(** * LFLib: the threaded serial port [sPort] and the port opener [serPort]

    A shallow embedding of the serial-port part of [LFLib.py]
    (functions [serPort], [pln] and the methods of class [sPort]) and the
    properties of its receive buffer, its line reader, its writers and its
    reconnection logic.

    Conventions of the embedding:
    - Python [bytes] are lists of [Byte.byte]; Python [str] values are
      lists of Unicode code points ([N]);
    - a Python [int] is a [Z]; slices follow Python's index adjustment;
    - the class-level object [sPort.buffer] is one record, [Buffer], shared
      by every method; the observable effects (console output, calls of
      the serial transport, timers handed to [window.after], reader
      threads started) are appended to a trace;
    - a method is a computation [Py A]: from a world to an outcome (a
      returned value or a raised exception) and the world it leaves;
    - the program has two threads, the foreground and the reader thread
      of pyserial. What each of them does is a computation of its own:
      starting a thread is an event of the trace ([reader_start]), the
      first step of the started thread is [reader_begins], a chunk the
      thread receives goes through [data_received], and a call handed
      to [window.after] is run by [run_callback]. A sequence of calls
      is one order in which these steps happen. *)

From Stdlib.Strings Require Import String Ascii Byte.
From Stdlib Require Import ZArith NArith List Bool Lia DecimalString Permutation.
Import ListNotations.

Local Open Scope Z_scope.

(** ** Python values used by the module *)

Definition bytes := list byte.
Definition pystr := list N.

(** A string literal of the source, as code points. *)
Definition str (s : string) : pystr :=
  List.map N_of_ascii (list_ascii_of_string s).

(** A bytes literal of printable characters. *)
Definition blit (s : string) : bytes := list_byte_of_string s.

(** The byte the source compares with: [chr(c) == "\n"]. *)
Definition newline : byte := x0a.

Inductive pyval :=
| PyNone
| PyStr (s : pystr)
| PyBytes (b : bytes).

(** The exception classes that can occur in the modelled code.
    [SerialException] derives from [IOError], that is [OSError];
    [SerialTimeoutException] and [PortNotOpenError] derive from
    [SerialException]; [SerialDisconnect] is the module's own class and
    derives from [Exception] only. *)
Inductive exn :=
| OSError
| SerialException
| SerialTimeoutException
| PortNotOpenError
| SerialDisconnect
| NameError
| AttributeError
| IndexError
| TypeError
| UnicodeEncodeError.

Definition isinstance_OSError (e : exn) : bool :=
  match e with
  | OSError | SerialException | SerialTimeoutException | PortNotOpenError => true
  | _ => false
  end.

Definition isinstance_SerialException (e : exn) : bool :=
  match e with
  | SerialException | SerialTimeoutException | PortNotOpenError => true
  | _ => false
  end.

Definition isinstance_SerialDisconnect (e : exn) : bool :=
  match e with
  | SerialDisconnect => true
  | _ => false
  end.

(** ** Slices

    [s[lo:hi]] with step 1: a negative index counts from the end, and
    both indices are clamped to [0 .. len(s)]. *)

Definition adjust_index (i len : Z) : Z :=
  if i <? 0 then (if i + len <? 0 then 0 else i + len)
  else if len <? i then len else i.

Definition slice {A : Type} (s : list A) (lo hi : Z) : list A :=
  let len := Z.of_nat (length s) in
  let lo' := adjust_index lo len in
  let hi' := adjust_index hi len in
  firstn (Z.to_nat (hi' - lo')) (skipn (Z.to_nat lo') s).

(** [len(s)] as a Python int. *)
Definition len {A : Type} (s : list A) : Z := Z.of_nat (length s).

(** [range(n)] and [range(n-1, -1, -1)]. *)
Definition range (n : nat) : list nat := seq 0 n.
Definition range_down (n : nat) : list nat := rev (seq 0 n).

(** ** [bytes.decode()] and [str.encode()]

    Both are called with their defaults: UTF-8, [errors='strict'].
    Decoding accepts exactly the well-formed sequences: no overlong
    forms, no surrogates, nothing above U+10FFFF. *)

Definition in_range (lo hi : N) (c : byte) : bool :=
  (N.leb lo (Byte.to_N c) && N.leb (Byte.to_N c) hi)%bool.

Definition cont_bits (c : byte) : N := (Byte.to_N c - 128)%N.

Fixpoint decode (bs : bytes) : option pystr :=
  match bs with
  | [] => Some []
  | b0 :: t0 =>
      let n0 := Byte.to_N b0 in
      if N.ltb n0 128 then option_map (cons n0) (decode t0)
      else if in_range 194 223 b0 then
        match t0 with
        | b1 :: t1 =>
            if in_range 128 191 b1
            then option_map (cons ((n0 - 192) * 64 + cont_bits b1)%N) (decode t1)
            else None
        | _ => None
        end
      else if in_range 224 239 b0 then
        match t0 with
        | b1 :: b2 :: t2 =>
            let lo := if N.eqb n0 224 then 160%N else 128%N in
            let hi := if N.eqb n0 237 then 159%N else 191%N in
            if (in_range lo hi b1 && in_range 128 191 b2)%bool
            then option_map
                   (cons ((n0 - 224) * 4096 + cont_bits b1 * 64 + cont_bits b2)%N)
                   (decode t2)
            else None
        | _ => None
        end
      else if in_range 240 244 b0 then
        match t0 with
        | b1 :: b2 :: b3 :: t3 =>
            let lo := if N.eqb n0 240 then 144%N else 128%N in
            let hi := if N.eqb n0 244 then 143%N else 191%N in
            if (in_range lo hi b1 && in_range 128 191 b2 && in_range 128 191 b3)%bool
            then option_map
                   (cons ((n0 - 240) * 262144 + cont_bits b1 * 4096
                          + cont_bits b2 * 64 + cont_bits b3)%N)
                   (decode t3)
            else None
        | _ => None
        end
      else None
  end.

Definition byte_of_N (n : N) : byte :=
  match Byte.of_N (n mod 256) with
  | Some c => c
  | None => x00
  end.

Definition encode_char (c : N) : option bytes :=
  if N.ltb c 128 then Some [byte_of_N c]
  else if N.ltb c 2048 then
    Some [byte_of_N (192 + c / 64); byte_of_N (128 + c mod 64)]
  else if N.ltb c 65536 then
    if (N.leb 55296 c && N.leb c 57343)%bool then None
    else Some [byte_of_N (224 + c / 4096); byte_of_N (128 + (c / 64) mod 64);
               byte_of_N (128 + c mod 64)]
  else if N.ltb c 1114112 then
    Some [byte_of_N (240 + c / 262144); byte_of_N (128 + (c / 4096) mod 64);
          byte_of_N (128 + (c / 64) mod 64); byte_of_N (128 + c mod 64)]
  else None.

Fixpoint encode (s : pystr) : option bytes :=
  match s with
  | [] => Some []
  | c :: rest =>
      match encode_char c, encode rest with
      | Some cs, Some bs => Some (cs ++ bs)
      | _, _ => None
      end
  end.

(** ** The shared state and the observable effects *)

(** An open [serial.Serial] object: the device it was opened on and the
    read timeout it was given. *)
Record Port := mkPort { port_name : string; port_timeout : option Z }.

(** [class Buffer], the object every [sPort] shares as [sPort.buffer]
    (the figure [dummyFig] is left to the GUI side). *)
Record Buffer := mkBuffer {
  port : option Port;
  content : bytes;
  size : Z;
  disconnected : bool;
  terminator : pyval
}.

Definition nl : string := String "010"%char EmptyString.

Definition Buffer_initial : Buffer :=
  {| port := None; content := []; size := 4096; disconnected := false;
     terminator := PyStr (str nl) |}.

(** The class attribute [sPort.handleData]: the placeholder [dummy] or a
    function of the application, referred to by a number. *)
Inductive handler :=
| dummy
| user (f : nat).

(** What [window.after] is given to call later. *)
Inductive callback :=
| cb_readStoreBuffer (data : bytes)
| cb_reopen.

Inductive event :=
| Printed (line : string)
| Comports
| SerialOpen (name : string) (timeout : option Z)
| PortWrite (p : Port) (data : bytes)
| PortReadline (p : Port)
| After (ms : Z) (cb : callback)
| ReaderStart (p : option Port).

Record World := mkWorld {
  buffer : Buffer;
  handleData : handler;
  trace : list event
}.

Definition World_initial : World :=
  {| buffer := Buffer_initial; handleData := dummy; trace := [] |}.

(** How a computation ends: with a value, with an exception, or, for the
    [while] loop of [serPort] only, with the fuel of the model used up
    (the loop is shown below to end before that). *)
Inductive Outcome (A : Type) :=
| Return (a : A)
| Raise (e : exn)
| OutOfFuel.
Arguments Return {A} a.
Arguments Raise {A} e.
Arguments OutOfFuel {A}.

Definition Py (A : Type) : Type := World -> Outcome A * World.

Definition ret {A : Type} (a : A) : Py A := fun w => (Return a, w).

Definition bind {A B : Type} (m : Py A) (k : A -> Py B) : Py B :=
  fun w =>
    match m w with
    | (Return a, w') => k a w'
    | (Raise e, w') => (Raise e, w')
    | (OutOfFuel, w') => (OutOfFuel, w')
    end.

Definition raise {A : Type} (e : exn) : Py A := fun w => (Raise e, w).

(** [try: body / except <classes>: handler]; [classes] decides which
    exceptions the clause catches. *)
Definition try_except {A : Type} (body : Py A) (classes : exn -> bool)
    (handle : Py A) : Py A :=
  fun w =>
    match body w with
    | (Raise e, w') => if classes e then handle w' else (Raise e, w')
    | r => r
    end.

Declare Scope py_scope.
Delimit Scope py_scope with py.
Notation "x <- m ;; k" := (bind m (fun x => k))
  (at level 100, m at next level, right associativity) : py_scope.
Notation "m ;; k" := (bind m (fun _ => k))
  (at level 100, right associativity) : py_scope.
Local Open Scope py_scope.

Definition get_buffer : Py Buffer := fun w => (Return (buffer w), w).

Definition update_buffer (f : Buffer -> Buffer) : Py unit :=
  fun w => (Return tt,
            {| buffer := f (buffer w); handleData := handleData w; trace := trace w |}).

Definition with_port (p : option Port) (b : Buffer) : Buffer :=
  {| port := p; content := content b; size := size b;
     disconnected := disconnected b; terminator := terminator b |}.
Definition with_content (c : bytes) (b : Buffer) : Buffer :=
  {| port := port b; content := c; size := size b;
     disconnected := disconnected b; terminator := terminator b |}.
Definition with_size (n : Z) (b : Buffer) : Buffer :=
  {| port := port b; content := content b; size := n;
     disconnected := disconnected b; terminator := terminator b |}.
Definition with_disconnected (d : bool) (b : Buffer) : Buffer :=
  {| port := port b; content := content b; size := size b;
     disconnected := d; terminator := terminator b |}.
Definition with_terminator (t : pyval) (b : Buffer) : Buffer :=
  {| port := port b; content := content b; size := size b;
     disconnected := disconnected b; terminator := t |}.

Definition set_handleData (h : handler) : Py unit :=
  fun w => (Return tt, {| buffer := buffer w; handleData := h; trace := trace w |}).

Definition emit (e : event) (w : World) : World :=
  {| buffer := buffer w; handleData := handleData w; trace := trace w ++ [e] |}.

(** The world after the events [es], in this order. *)
Definition emit_all (es : list event) (w : World) : World :=
  {| buffer := buffer w; handleData := handleData w; trace := trace w ++ es |}.

(** [l[i]] for an index that is not negative. *)
Definition getitem {A : Type} (l : list A) (i : nat) : Py A :=
  match nth_error l i with
  | Some x => ret x
  | None => raise IndexError
  end.

(** ** What the module is given from outside

    The serial transport (pyserial), the operating system, the GUI event
    loop and the functions of the application. An answer of the
    transport may depend on everything that happened before, the trace.
    - [env_comports]: the names of the devices [comports()] lists;
    - [env_open], [env_write]: [None] when the call succeeds, the
      exception it raises otherwise;
    - [env_readline]: the line read, or the exception raised;
    - [env_user f]: what the application function number [f] does when
      it is called as [handleData];
    - [env_flush_events], [env_update_idletasks]: what the pending work
      of the event loop does when [clearBuffer] lets it run;
    - [global_Serial]: whether the module global [Serial] is bound (to
      [serial.Serial]) when [reopen] runs. The module imports [serial],
      [ReaderThread] and [Protocol] and never binds [Serial] itself, so
      this is [false] unless the application assigns it. *)
Record Env := mkEnv {
  os_name : string;
  env_comports : list event -> list string;
  env_open : list event -> string -> option exn;
  env_write : list event -> Port -> bytes -> option exn;
  env_readline : list event -> Port -> bytes + exn;
  env_user : nat -> Py unit;
  env_flush_events : Py unit;
  env_update_idletasks : Py unit;
  global_Serial : bool
}.

Fixpoint bytes_eqb (x y : bytes) : bool :=
  match x, y with
  | [], [] => true
  | a :: x', c :: y' => Byte.eqb a c && bytes_eqb x' y'
  | _, _ => false
  end.

(** [ret == answer], where [ret] is what [readline] gave and [answer] is
    [None] or a bytes object. *)
Definition answer_eq (r : bytes) (answer : option bytes) : bool :=
  match answer with
  | Some a => bytes_eqb r a
  | None => false
  end.

Section LFLib.

Variable E : Env.

(** *** Calls that leave the module *)

(** [pln(text)]: the text and a newline on the console. *)
Definition pln (text : string) : Py unit :=
  fun w => (Return tt, emit (Printed text) w).

(** [serial.tools.list_ports.comports()], as the names of the devices. *)
Definition comports : Py (list string) :=
  fun w => (Return (env_comports E (trace w)), emit Comports w).

(** [serial.Serial(name)] and [serial.Serial(name, timeout=t)]. *)
Definition serial_Serial (name : string) (timeout : option Z) : Py Port :=
  fun w =>
    match env_open E (trace w) name with
    | None => (Return (mkPort name timeout), emit (SerialOpen name timeout) w)
    | Some e => (Raise e, emit (SerialOpen name timeout) w)
    end.

(** [port.write(data)]. *)
Definition port_write (p : Port) (data : bytes) : Py unit :=
  fun w =>
    match env_write E (trace w) p data with
    | None => (Return tt, emit (PortWrite p data) w)
    | Some e => (Raise e, emit (PortWrite p data) w)
    end.

(** [port.readline()]. *)
Definition port_readline (p : Port) : Py bytes :=
  fun w =>
    match env_readline E (trace w) p with
    | inl line => (Return line, emit (PortReadline p) w)
    | inr e => (Raise e, emit (PortReadline p) w)
    end.

(** [window.after(ms, cb)]. *)
Definition window_after (ms : Z) (cb : callback) : Py unit :=
  fun w => (Return tt, emit (After ms cb) w).

(** [ReaderThread(port, sPort).start()], as the calling thread has it:
    the thread is started and the call returns. What the started thread
    does, at some time after that, begins with [reader_begins], below. *)
Definition reader_start (p : option Port) : Py unit :=
  fun w => (Return tt, emit (ReaderStart p) w).

(** [self.handleData()]. *)
Definition call_handleData : Py unit :=
  fun w =>
    match handleData w with
    | dummy => ret tt w
    | user f => env_user E f w
    end.

(** *** [serPort] *)

Definition could_not_open : string :=
  "Could not open the serial port! Try un- and replugging the device or providing the correct port name.".

Definition prefix : string :=
  if String.eqb (os_name E) "nt" then ""
  else if String.eqb (os_name E) "posix" then "/dev/"
  else "".

(** The [while] loop of the "Auto" branch, on the loop variables
    [correctPort], [portNum] and [port] ([None] while unassigned). *)
Fixpoint serPort_while (fuel : nat) (ports : list string)
    (command question answer : option bytes)
    (correctPort : bool) (portNum : nat) (port : option Port)
    : Py (bool * option Port) :=
  if (negb correctPort && (portNum <? length ports)%nat)%bool then
    match fuel with
    | O => fun w => (OutOfFuel, w)
    | S fuel' =>
        dev <- getitem ports portNum ;;
        let name := (prefix ++ dev)%string in
        p <- serial_Serial name (Some 2) ;;
        match command with
        | Some c => (port_write p c ;; _ <- port_readline p ;; ret tt)
        | None => ret tt
        end ;;
        correctPort' <-
          match question with
          | Some q =>
              (port_write p q ;; r <- port_readline p ;; ret (answer_eq r answer))
          | None => ret true
          end ;;
        serPort_while fuel' ports command question answer
                      correctPort' (portNum + 1)%nat (Some p)
    end
  else ret (correctPort, port).

Definition serPort_excepts (e : exn) : bool :=
  (isinstance_SerialException e || isinstance_SerialDisconnect e)%bool.

Definition serPort (name : string) (command question answer final : option bytes)
    : Py Port :=
  try_except
    (if String.eqb name "Auto" then
       ports <- comports ;;
       if (1 <? length ports)%nat then
         r <- serPort_while (length ports) ports command question answer
                            false 1%nat None ;;
         let '(correctPort, port) := r in
         (if negb correctPort then raise SerialDisconnect else ret tt) ;;
         match port with
         | Some p =>
             match final with
             | Some f => (port_write p f ;; _ <- port_readline p ;; ret tt)
             | None => ret tt
             end ;;
             ret p
         | None => raise NameError
         end
       else raise SerialDisconnect
     else serial_Serial name None)
    serPort_excepts
    (pln could_not_open ;; raise SerialDisconnect).

(** *** class [sPort] *)

Definition sPort_init (name : string) (terminatorV : pyval) : Py unit :=
  p <- serPort name None None None None ;;
  update_buffer (with_port (Some p)) ;;
  update_buffer (with_terminator terminatorV).

(** The first step of a started reader thread. Its [run()] calls the
    protocol factory it was given, which is the class [sPort] itself: the
    constructor runs with its defaults, [sPort("Auto", "\n")], on the
    buffer all links share, so that the port is opened anew by [serPort]
    and the terminator is set to the line feed. An exception of the
    constructor ends the thread before it reads anything. Afterwards the
    thread calls [connection_made], which does nothing, and hands every
    chunk it reads from the port it was started on to [data_received]. *)
Definition reader_begins : Py unit :=
  sPort_init "Auto" (PyStr (str nl)).

(** The canvas added to [dummyFig] is left to the GUI side. *)
Definition start (maxSize : Z) (handleFunc : option nat) : Py unit :=
  match handleFunc with
  | Some f => set_handleData (user f)
  | None => ret tt
  end ;;
  update_buffer (with_size maxSize) ;;
  b <- get_buffer ;;
  reader_start (port b).

Definition readStoreBuffer (data : bytes) : Py unit :=
  b <- get_buffer ;;
  (if len (content b) + len data <=? size b
   then update_buffer (with_content (content b ++ data))
   else ret tt) ;;
  call_handleData.

Fixpoint clearBuffer_for (indices : list nat) : Py unit :=
  match indices with
  | [] => ret tt
  | newLineIndex :: rest =>
      b <- get_buffer ;;
      c <- getitem (content b) newLineIndex ;;
      if Byte.eqb c newline
      then update_buffer
             (with_content
                (slice (content b) (Z.of_nat newLineIndex + 1) (len (content b))))
      else clearBuffer_for rest
  end.

Definition clearBuffer (clearLine : bool) : Py unit :=
  env_flush_events E ;;
  env_update_idletasks E ;;
  if clearLine then
    b <- get_buffer ;;
    let numBytes := length (content b) in
    clearBuffer_for (range_down numBytes)
  else update_buffer (with_content []).


(** In [Serial("/dev/" + ports[1].name)] the name [Serial] is looked up
    before the argument is evaluated. *)
Definition reopen : Py unit :=
  newPort <-
    try_except
      (ports <- comports ;;
       if (1 <? length ports)%nat then
         (if global_Serial E then ret tt else raise NameError) ;;
         dev <- getitem ports 1%nat ;;
         p <- serial_Serial ("/dev/" ++ dev)%string None ;;
         ret (Some p)
       else ret None)
      isinstance_SerialException
      (ret None) ;;
  match newPort with
  | Some p =>
      update_buffer (with_port (Some p)) ;;
      update_buffer (with_disconnected false) ;;
      b <- get_buffer ;;
      reader_start (port b)
  | None => window_after 1 cb_reopen
  end.

Definition connection_lost : Py unit :=
  pln "Serial port disconnected. Trying to reconnect..." ;;
  reopen ;;
  update_buffer (with_disconnected true).

Definition sPort_disconnected : Py bool :=
  b <- get_buffer ;; ret (disconnected b).

Definition not_enough_data : pyval := PyStr (str "not enough data").
Definition not_a_string : pyval := PyStr (str "Read data isn't a string").

Definition readB (n : Z) : Py pyval :=
  b <- get_buffer ;;
  let numBytes := len (content b) in
  if numBytes <? n then ret not_enough_data
  else
    let retVal := slice (content b) 0 n in
    update_buffer (with_content (slice (content b) n (len (content b)))) ;;
    ret (PyBytes retVal).

Fixpoint readL_for (indices : list nat) : Py pyval :=
  match indices with
  | [] => ret not_enough_data
  | newLineIndex :: rest =>
      b <- get_buffer ;;
      c <- getitem (content b) newLineIndex ;;
      if Byte.eqb c newline then
        let retVal :=
          match decode (slice (content b) 0 (Z.of_nat newLineIndex)) with
          | Some s => PyStr s
          | None => not_a_string
          end in
        update_buffer
          (with_content
             (slice (content b) (Z.of_nat newLineIndex + 1) (len (content b)))) ;;
        ret retVal
      else readL_for rest
  end.

Definition readL : Py pyval :=
  b <- get_buffer ;;
  let numBytes := length (content b) in
  readL_for (range numBytes).

Definition port_closed_msg : string :=
  "Where are you tryinng to write to? The port is closed!".
Definition write_error_msg : string :=
  "Error in writing (the port is probably closed but hasn't noticed yet)".

(** [self.buffer.port.write(data)]: the attribute [write] of [None] does
    not exist. *)
Definition buffer_port_write (data : bytes) : Py unit :=
  b <- get_buffer ;;
  match port b with
  | Some p => port_write p data
  | None => raise AttributeError
  end.

Definition write (data : bytes) : Py unit :=
  b <- get_buffer ;;
  if disconnected b then pln port_closed_msg
  else
    try_except (buffer_port_write data) isinstance_OSError (pln write_error_msg).

(** In [self.buffer.port.write((s + '\n').encode())] the method is
    looked up on the port before the argument is evaluated. *)
Definition writeL (s : pystr) : Py unit :=
  b <- get_buffer ;;
  if disconnected b then pln port_closed_msg
  else
    try_except
      (b <- get_buffer ;;
       match port b with
       | Some p =>
           match encode (s ++ str nl) with
           | Some data => port_write p data
           | None => raise UnicodeEncodeError
           end
       | None => raise AttributeError
       end)
      isinstance_OSError
      (pln write_error_msg).


End LFLib.

(** ** Worlds and environments used to state and to run the properties *)

Definition put_buffer (b : Buffer) (w : World) : World :=
  {| buffer := b; handleData := handleData w; trace := trace w |}.

Definition put_content (c : bytes) (w : World) : World :=
  put_buffer (with_content c (buffer w)) w.

(** The chunks the reader delivers, stored one after the other. *)
Fixpoint store_chunks (E : Env) (chunks : list bytes) : Py unit :=
  match chunks with
  | [] => ret tt
  | data :: rest => (readStoreBuffer E data ;; store_chunks E rest)
  end.

(** A host with two serial devices that open, accept every write and
    answer every [readline] with an empty line; a GUI with nothing
    pending; application functions that do nothing. *)
Definition plain_env : Env :=
  {| os_name := "posix";
     env_comports := fun _ => ["ttyS0"; "ttyUSB0"]%string;
     env_open := fun _ _ => None;
     env_write := fun _ _ _ => None;
     env_readline := fun _ _ => inl [];
     env_user := fun _ => ret tt;
     env_flush_events := ret tt;
     env_update_idletasks := ret tt;
     global_Serial := false |}.

(** A world whose buffer holds [c], with capacity [cap], connected to
    [/dev/ttyUSB0]. *)
Definition world_with (c : bytes) (cap : Z) : World :=
  {| buffer := {| port := Some (mkPort "/dev/ttyUSB0" None); content := c;
                  size := cap; disconnected := false;
                  terminator := PyStr (str nl) |};
     handleData := dummy;
     trace := [] |}.

(** The world in which the application function number 0 has been
    registered as the callback. *)
Definition listening (w : World) : World :=
  {| buffer := buffer w; handleData := user 0; trace := trace w |}.

(** [plain_env] with application functions that leave a line on the
    console when they are called. *)
Definition announcing_env : Env :=
  {| os_name := os_name plain_env;
     env_comports := env_comports plain_env;
     env_open := env_open plain_env;
     env_write := env_write plain_env;
     env_readline := env_readline plain_env;
     env_user := fun _ => pln "data handled";
     env_flush_events := env_flush_events plain_env;
     env_update_idletasks := env_update_idletasks plain_env;
     global_Serial := global_Serial plain_env |}.

(** [plain_env] with one chunk waiting in the event loop: the call
    [readStoreBuffer(chunk)] that [data_received] has scheduled runs
    when [flush_events] lets the pending work run. *)
Definition pending_env (chunk : bytes) : Env :=
  {| os_name := os_name plain_env;
     env_comports := env_comports plain_env;
     env_open := env_open plain_env;
     env_write := env_write plain_env;
     env_readline := env_readline plain_env;
     env_user := env_user plain_env;
     env_flush_events := readStoreBuffer plain_env chunk;
     env_update_idletasks := env_update_idletasks plain_env;
     global_Serial := global_Serial plain_env |}.

(** A link that is started, receives six bytes and is started again
    with the capacity 4; then one more byte arrives. Each started reader
    thread makes its first step before it delivers anything. *)
Definition restart_session : Py unit :=
  sPort_init plain_env "Auto" (PyStr (str nl)) ;;
  start 4096 None ;;
  reader_begins plain_env ;;
  readStoreBuffer plain_env (blit "abcdef") ;;
  start 4 None ;;
  reader_begins plain_env ;;
  readStoreBuffer plain_env (blit "g").




(** The buffer is within its capacity. *)
Definition within_capacity (w : World) : Prop :=
  len (content (buffer w)) <= size (buffer w).

(** What [readL] returns for the bytes before the line feed. *)
Definition decoded_line (line : bytes) : pyval :=
  match decode line with
  | Some s => PyStr s
  | None => not_a_string
  end.

(** The GUI refresh [clearBuffer] starts with:
    [dummyFig.canvas.flush_events()], then [window.update_idletasks()]. *)
Definition gui_refresh (E : Env) : Py unit :=
  env_flush_events E ;; env_update_idletasks E.

(** [new] is what is left of [old] after bytes were taken from its front. *)
Definition is_suffix (new old : bytes) : Prop :=
  exists removed, old = removed ++ new.

(** [plain_env] with a transport whose [write] fails with [e]. *)
Definition write_fails_env (e : exn) : Env :=
  {| os_name := os_name plain_env;
     env_comports := env_comports plain_env;
     env_open := env_open plain_env;
     env_write := fun _ _ _ => Some e;
     env_readline := env_readline plain_env;
     env_user := env_user plain_env;
     env_flush_events := env_flush_events plain_env;
     env_update_idletasks := env_update_idletasks plain_env;
     global_Serial := global_Serial plain_env |}.

(** The world [w] once the link is marked disconnected. *)
Definition unplugged (w : World) : World :=
  put_buffer (with_disconnected true (buffer w)) w.

(** The world [w] of a link whose configured terminator is [t]. *)
Definition with_terminator_world (t : pyval) (w : World) : World :=
  put_buffer (with_terminator t (buffer w)) w.

(** A session on a link created with the terminator [b";"]: the
    constructor, [start], one chunk [b"ab;cd\nef"] delivered, then
    [readL()] and [writeL("x")]; the value of [readL()] is returned. *)
Definition semicolon_session : Py pyval :=
  sPort_init plain_env "/dev/ttyUSB0" (PyBytes (blit ";")) ;;
  start 4096 None ;;
  readStoreBuffer plain_env (blit "ab;cd" ++ newline :: blit "ef") ;;
  line <- readL ;;
  writeL plain_env (str "x") ;;
  ret line.

(** ** [Open] with the device name "Auto", in the words of its description

    The second definition of the operation, written from its description
    and not from the text of [serPort]: a recursion over the candidate
    devices, which are the enumerated ones without the first. It is
    compared with [serPort] below. *)

Section OpenAuto.

Variable E : Env.
Variables initCommand probeCommand expectedAnswer finalCommand : option bytes.

Definition NoDeviceFound : exn := SerialDisconnect.

(** Write a command, when one is given, and discard one line of response. *)
Definition write_discard_line (p : Port) (cmd : option bytes) : Py unit :=
  match cmd with
  | Some c => (port_write E p c ;; _ <- port_readline E p ;; ret tt)
  | None => ret tt
  end.

(** Write the probe, read one line and compare it with the expected
    answer; with no probe the candidate is accepted. *)
Definition probe_matches (p : Port) : Py bool :=
  match probeCommand with
  | Some q =>
      (port_write E p q ;; r <- port_readline E p ;;
       ret (answer_eq r expectedAnswer))
  | None => ret true
  end.

(** Each candidate is opened with the timeout 2; the first one that
    matches is selected; with none left the operation fails. *)
Fixpoint Open_candidates (candidates : list string) : Py Port :=
  match candidates with
  | [] => raise NoDeviceFound
  | dev :: rest =>
      p <- serial_Serial E (prefix E ++ dev)%string (Some 2) ;;
      write_discard_line p initCommand ;;
      selected <- probe_matches p ;;
      if selected then ret p else Open_candidates rest
  end.

(** A failure of the transport and the lack of a device are both reported
    as [NoDeviceFound], after the message to the caller. *)
Definition Open_auto : Py Port :=
  try_except
    (devices <- comports E ;;
     if (length devices <? 2)%nat then raise NoDeviceFound
     else
       p <- Open_candidates (skipn 1 devices) ;;
       write_discard_line p finalCommand ;;
       ret p)
    (fun e => (isinstance_SerialException e || isinstance_SerialDisconnect e)%bool)
    (pln could_not_open ;; raise NoDeviceFound).

End OpenAuto.

(** The candidate port for the device [dev]. *)
Definition candidate (E : Env) (dev : string) : Port :=
  mkPort (prefix E ++ dev)%string (Some 2).

(** What happens to a command on the port [p]: it is written and one
    line is read. *)
Definition exchange (p : Port) (cmd : option bytes) : list event :=
  match cmd with
  | Some c => [PortWrite p c; PortReadline p]
  | None => []
  end.

(** The calls made on one candidate: it is opened, given the initial
    command and probed. *)
Definition visit (command question : option bytes) (p : Port) : list event :=
  SerialOpen (port_name p) (port_timeout p)
  :: exchange p command ++ exchange p question.

(** A computation that never runs out of fuel, whatever the world. *)
Definition terminates {A : Type} (m : Py A) : Prop :=
  forall w, fst (m w) <> OutOfFuel.

(** A host whose devices are [devices], where opening [name] gives
    [opens name] and a [readline] on [p] gives [answers p]; the rest as
    in [plain_env]. *)
Definition host_env (devices : list string) (opens : string -> option exn)
    (answers : Port -> bytes) : Env :=
  {| os_name := os_name plain_env;
     env_comports := fun _ => devices;
     env_open := fun _ name => opens name;
     env_write := env_write plain_env;
     env_readline := fun _ p => inl (answers p);
     env_user := env_user plain_env;
     env_flush_events := env_flush_events plain_env;
     env_update_idletasks := env_update_idletasks plain_env;
     global_Serial := global_Serial plain_env |}.

(** Three devices; the one on [/dev/ttyUSB1] answers [b"scope"], the
    others [b"meter"]. *)
Definition lab_env : Env :=
  host_env ["ttyS0"; "ttyUSB0"; "ttyUSB1"]%string (fun _ => None)
           (fun p => if String.eqb (port_name p) "/dev/ttyUSB1"
                     then blit "scope" else blit "meter").

(** [plain_env] in a process where the application has bound the module
    global [Serial] to [serial.Serial]. *)
Definition Serial_bound_env : Env :=
  {| os_name := os_name plain_env;
     env_comports := env_comports plain_env;
     env_open := env_open plain_env;
     env_write := env_write plain_env;
     env_readline := env_readline plain_env;
     env_user := env_user plain_env;
     env_flush_events := env_flush_events plain_env;
     env_update_idletasks := env_update_idletasks plain_env;
     global_Serial := true |}.

(** [connection_lost()], then [disconnected()]. *)
Definition lost_then_asked (E : Env) : Py bool :=
  connection_lost E ;; sPort_disconnected.

(** ** Sequences of calls on the link *)

(** [readB(n)] for each [n] of [sizes] in turn; the values returned. *)
Fixpoint read_back (sizes : list Z) : Py (list pyval) :=
  match sizes with
  | [] => ret []
  | n :: rest => (v <- readB n ;; vs <- read_back rest ;; ret (v :: vs))
  end.

(** [readL()] called [k] times; the values returned. *)
Fixpoint read_lines (k : nat) : Py (list pyval) :=
  match k with
  | O => ret []
  | S k' => (v <- readL ;; vs <- read_lines k' ;; ret (v :: vs))
  end.

(** The bytes of [lines], each followed by a line feed. *)
Definition join_lines (lines : list bytes) : bytes :=
  concat (List.map (fun l => l ++ [newline]) lines).

(** One call made on the link by the event loop or by the application. *)
Inductive action :=
| Deliver (data : bytes)
| ReadB (n : Z)
| ReadL
| ClearBuffer (clearLine : bool)
| Write (data : bytes)
| WriteL (s : pystr).

Definition perform (E : Env) (a : action) : Py unit :=
  match a with
  | Deliver data => readStoreBuffer E data
  | ReadB n => (_ <- readB n ;; ret tt)
  | ReadL => (_ <- readL ;; ret tt)
  | ClearBuffer clearLine => clearBuffer E clearLine
  | Write data => write E data
  | WriteL s => writeL E s
  end.

Fixpoint perform_all (E : Env) (actions : list action) : Py unit :=
  match actions with
  | [] => ret tt
  | a :: rest => (perform E a ;; perform_all E rest)
  end.

(** A computation that leaves [sPort.buffer] as it found it. *)
Definition keeps_buffer {A : Type} (m : Py A) : Prop :=
  forall w, buffer (snd (m w)) = buffer w.

(** A computation that leaves the buffer within its capacity with the
    same capacity. *)
Definition keeps_capacity {A : Type} (m : Py A) : Prop :=
  forall w, within_capacity w ->
            within_capacity (snd (m w))
            /\ size (buffer (snd (m w))) = size (buffer w).

(** No event of the trace starts a reader thread. *)
Definition no_reader_started (t : list event) : Prop :=
  forall p, ~ In (ReaderStart p) t.

(** [reopen()] run [n] times, as the event loop does when each attempt
    schedules the next; an exception ends the sequence. *)
Fixpoint reopen_polls (E : Env) (n : nat) : Py unit :=
  match n with
  | O => ret tt
  | S n' => (reopen E ;; reopen_polls E n')
  end.

(** * The helper functions of the module

    They compute on their arguments and print to the console. A result
    comes with the lines printed, each line being the text of one call
    of [pln]. *)

(** An argument that should be a [str]: a [str], or another object,
    given by the text [print] shows for it. *)
Inductive pyobj :=
| OStr (s : pystr)
| OOther (shown : pystr).

(** The line [pln(arg1, arg2, ...)] prints, from the texts of its
    arguments. *)
Definition pln_line (args : list pystr) : pystr := concat args.

(** [str(n)] for an int. *)
Definition str_of_int (n : Z) : pystr :=
  str (NilZero.string_of_int (Z.to_int n)).

Definition quote : pystr := [34%N].
Definition dot : N := 46%N.
Definition slash : N := 47%N.
Definition colon : N := 58%N.

(** [s.rindex(c)] for a single character [c]: the highest index at which
    it occurs; [None] stands for the [ValueError]. *)
Fixpoint rindex_from (s : pystr) (c : N) (i : nat) (last : option nat)
    : option nat :=
  match s with
  | [] => last
  | x :: rest => rindex_from rest c (S i) (if N.eqb x c then Some i else last)
  end.

Definition rindex (s : pystr) (c : N) : option nat := rindex_from s c 0 None.

(** ** [fileNameFromPath] *)

Definition no_extension_line (path : pystr) : pystr :=
  pln_line [str "Path: " ++ quote; path; quote ++ str " doesn't have an extension."].

Definition no_directory_line (path : pystr) : pystr :=
  pln_line [str "Path: " ++ quote; path;
            quote ++ str " has no directory. If the file is in the same directory as the calling program, use: "
            ++ quote ++ str "./[filename]" ++ quote ++ str "."].

Definition fileNameFromPath (path : pyobj) (cropExt : bool)
    : pyval * list pystr :=
  match path with
  | OOther shown =>
      (PyNone, [pln_line [str "Path "; shown; str " must be a string."]])
  | OStr path =>
      let '(cropExtension, printed1) :=
        if cropExt then
          match rindex path dot with
          | Some i => (len path - Z.of_nat i, [])
          | None => (0, [no_extension_line path])
          end
        else (0, []) in
      let '(cropDirectory, printed2) :=
        match rindex path slash with
        | Some i => (Z.of_nat i + 1, [])
        | None => (0, [no_directory_line path])
        end in
      (PyStr (slice path cropDirectory (- cropExtension)), printed1 ++ printed2)
  end.

(** ** [reorder] *)

(** An argument that should be a list: a list, or another object, given
    by the text [print] shows for its type. *)
Inductive list_arg (B : Type) :=
| IsList (l : list B)
| NotList (type_shown : pystr).
Arguments IsList {B} l.
Arguments NotList {B} type_shown.

(** What a helper function can raise: [ValueError], or one of the
    exceptions above. *)
Inductive raised :=
| ValueError
| Other (e : exn).

(** How a call of a helper function ends; [Exhausted] is for the
    [while] loops of the model only. *)
Inductive result (A : Type) :=
| Returned (a : A)
| Raised (e : raised)
| Exhausted.
Arguments Returned {A} a.
Arguments Raised {A} e.
Arguments Exhausted {A}.

(** An element of [order]. It is an int [z] (a bool is the int 0 or 1),
    or another object, given by what the subscription [a[o]] does for
    it: a slice gives the list of the elements it selects, an object
    with [__index__] (a numpy int) the element at that index or
    [IndexError], an object a list cannot be subscripted with (a str, a
    float, [None]) [TypeError], and an [__index__] that raises gives its
    exception. The subscription is taken to leave [a] as it is. *)
Inductive index_obj (A : Type) :=
| IInt (z : Z)
| IObj (get : list A -> A + raised).
Arguments IInt {A} z.
Arguments IObj {A} get.

(** An object a list cannot be subscripted with. *)
Definition INotInt {A : Type} : index_obj A :=
  IObj (fun _ => inr (Other TypeError)).

Definition type_shown {B : Type} (x : list_arg B) : pystr :=
  match x with
  | IsList _ => str "<class 'list'>"
  | NotList shown => shown
  end.

Section Reorder.

Context {A : Type}.

(** The object [None], with which [newList] is filled at first. *)
Variable none : A.

(** [l[z]] for an int [z]: a negative [z] counts from the end; [None]
    stands for the [IndexError]. *)
Definition subscript (l : list A) (z : Z) : option A :=
  let i := if z <? 0 then z + len l else z in
  if ((i <? 0) || (len l <=? i))%bool then None else nth_error l (Z.to_nat i).

(** [a[o]] for an element [o] of [order]. *)
Definition gets (a : list A) (o : index_obj A) : A + raised :=
  match o with
  | IInt z =>
      match subscript a z with
      | Some v => inl v
      | None => inr (Other IndexError)
      end
  | IObj get => get a
  end.

(** [l[i] = v] for an index within the list. *)
Fixpoint list_set (l : list A) (i : nat) (v : A) : list A :=
  match l, i with
  | [], _ => []
  | _ :: t, O => v :: t
  | x :: t, S i' => x :: list_set t i' v
  end.

(** The loop [newList[i] = a[order[i]]]. *)
Fixpoint reorder_fill (a : list A) (order : list (index_obj A))
    (indices : list nat) (newList : list A) : list A + raised :=
  match indices with
  | [] => inl newList
  | i :: rest =>
      match nth_error order i with
      | None => inr (Other IndexError)
      | Some o =>
          match gets a o with
          | inr e => inr e
          | inl v => reorder_fill a order rest (list_set newList i v)
          end
      end
  end.

(** The loop [a[i] = newList[i]]. *)
Fixpoint reorder_copy (a newList : list A) (indices : list nat) : list A :=
  match indices with
  | [] => a
  | i :: rest => reorder_copy (list_set a i (nth i newList none)) newList rest
  end.

Definition not_lists_line (a : list_arg A) (order : list_arg (index_obj A))
    : pystr :=
  pln_line [str "Input data and order both have to be lists, but they are ";
            type_shown a; str " and "; type_shown order; str "."].

Definition lengths_line (la lo : nat) : pystr :=
  pln_line [str "Input data and order both have to be of the same length, but they have length ";
            str_of_int (Z.of_nat la); str " and "; str_of_int (Z.of_nat lo); str "."].

Definition not_integers_line : pystr := str "Order must be a list of integers.".

Definition out_of_bounds_line : pystr :=
  str "Order contains an out of bounds index.".

(** What [reorder] does with an exception of the first loop: the two
    [except] clauses, and any other exception leaves the call. *)
Definition reorder_except (e : raised) : result unit * list pystr :=
  match e with
  | Other TypeError => (Returned tt, [not_integers_line])
  | Other IndexError => (Returned tt, [out_of_bounds_line])
  | _ => (Raised e, [])
  end.

(** [reorder(a, order)] returns nothing and changes [a] in place: how
    the call ends, [a] after the call, and the lines printed. *)
Definition reorder (a : list_arg A) (order : list_arg (index_obj A))
    : result unit * list_arg A * list pystr :=
  match a, order with
  | IsList al, IsList ol =>
      let l := length ol in
      if negb (length al =? l)%nat
      then (Returned tt, a, [lengths_line (length al) l])
      else
        let newList := repeat none l in
        match reorder_fill al ol (range l) newList with
        | inr e => (fst (reorder_except e), a, snd (reorder_except e))
        | inl newList' =>
            (Returned tt, IsList (reorder_copy al newList' (range l)), [])
        end
  | _, _ => (Returned tt, a, [not_lists_line a order])
  end.

End Reorder.

(** [a[o]] is the value [v]. *)
Definition picks {A : Type} (a : list A) (o : index_obj A) (v : A) : Prop :=
  gets a o = inl v.

(** Python objects for running examples: a number, or a list. *)
#[warnings="-register-all"]
Inductive pyitem :=
| Num (n : N)
| Lst (l : list pyitem).

(** The slice object [slice(lo, hi)]. *)
Definition slice_obj (lo hi : Z) : index_obj pyitem :=
  IObj (fun a => inl (Lst (slice a lo hi))).

(** An object whose [__index__] raises [ValueError]. *)
Definition failing_index : index_obj pyitem :=
  IObj (fun _ => inr ValueError).

(** ** [removeFromLists]

    The lists are changed in place and the same list object may be
    given more than once, so the lists live in a heap: a list object is
    a number, and the heap gives the elements each one holds. *)

(** An element of the tuple [lists] after the first: a list object or
    something else. *)
Inductive tuple_elem :=
| EList (r : nat)
| ENotList.

(** An object that is not a list and has no methods [remove] and [pop],
    such as an int, a str or a tuple: what [len(o)], [o.count(item)] and
    [o.index(item)] give, a number or the exception raised. *)
Record plain_obj (A : Type) := mkPlain {
  obj_len : nat + raised;
  obj_count : A -> nat + raised;
  obj_index : A -> nat + raised
}.
Arguments mkPlain {A} obj_len obj_count obj_index.
Arguments obj_len {A} p.
Arguments obj_count {A} p item.
Arguments obj_index {A} p item.

(** The first element of the tuple, which the function does not test: a
    list object or another object. *)
Inductive first_elem (A : Type) :=
| FList (r : nat)
| FOther (o : plain_obj A).
Arguments FList {A} r.
Arguments FOther {A} o.

(** The argument [lists]: not a tuple, the empty tuple, or a tuple with
    its first element and the elements after it. *)
Inductive lists_arg (A : Type) :=
| NotTuple
| EmptyTuple
| Tuple (first : first_elem A) (rest : list tuple_elem).
Arguments NotTuple {A}.
Arguments EmptyTuple {A}.
Arguments Tuple {A} first rest.

(** An object such as the int [5]: [len] raises [TypeError], and it has
    neither [count] nor [index]. *)
Definition int_obj {A : Type} : plain_obj A :=
  mkPlain (inr (Other TypeError)) (fun _ => inr (Other AttributeError))
          (fun _ => inr (Other AttributeError)).

(** A tuple of [n] elements of which [k] equal the item looked for, the
    first of them at the index [i]. *)
Definition tuple_obj {A : Type} (n k i : nat) : plain_obj A :=
  mkPlain (inl n) (fun _ => inl k) (fun _ => inl i).

Section RemoveFromLists.

Context {A : Type}.

(** [x == item], as the methods [count], [index] and [remove] test it. *)
Variable eqb : A -> A -> bool.

Definition heap : Type := nat -> list A.

Definition heap_set (h : heap) (r : nat) (l : list A) : heap :=
  fun r' => if Nat.eqb r' r then l else h r'.

(** [l.count(item)]. *)
Fixpoint count (item : A) (l : list A) : nat :=
  match l with
  | [] => O
  | x :: t => if eqb x item then S (count item t) else count item t
  end.

(** [l.index(item)]; [None] stands for the [ValueError]. *)
Fixpoint index (item : A) (l : list A) : option nat :=
  match l with
  | [] => None
  | x :: t => if eqb x item then Some O else option_map S (index item t)
  end.

(** [l.remove(item)]: the list without the first element equal to
    [item]; [None] stands for the [ValueError]. *)
Fixpoint remove (item : A) (l : list A) : option (list A) :=
  match l with
  | [] => None
  | x :: t => if eqb x item then Some t else option_map (cons x) (remove item t)
  end.

(** [l.pop(i)] for an index that is not negative: the list without the
    element at [i]; [None] stands for the [IndexError]. *)
Fixpoint pop (l : list A) (i : nat) : option (list A) :=
  match l, i with
  | [], _ => None
  | _ :: t, O => Some t
  | x :: t, S i' => option_map (cons x) (pop t i')
  end.

(** The checks on [lists[1:]]: the line printed by the first check that
    fails. *)
Fixpoint check_rest (h : heap) (listLen : nat) (rest : list tuple_elem)
    : option pystr :=
  match rest with
  | [] => None
  | ENotList :: _ => Some (str "Lists must be a tuple of lists.")
  | EList r :: more =>
      if negb (length (h r) =? listLen)%nat
      then Some (str "Lists are not of the same length.")
      else check_rest h listLen more
  end.

(** [while lists[0].count(item) > 0: lists[0].remove(item)]. *)
Fixpoint remove_while (fuel : nat) (item : A) (first : nat) (h : heap)
    : result unit * heap :=
  if (0 <? count item (h first))%nat then
    match fuel with
    | O => (Exhausted, h)
    | S fuel' =>
        match remove item (h first) with
        | Some l' => remove_while fuel' item first (heap_set h first l')
        | None => (Raised ValueError, h)
        end
    end
  else (Returned tt, h).

(** [for l in lists[1:]: l.pop(index)]; the checks have let only list
    objects through. *)
Fixpoint pop_rest (h : heap) (rest : list tuple_elem) (i : nat)
    : result unit * heap :=
  match rest with
  | [] => (Returned tt, h)
  | EList r :: more =>
      match pop (h r) i with
      | Some l' => pop_rest (heap_set h r l') more i
      | None => (Raised (Other IndexError), h)
      end
  | ENotList :: _ => (Raised (Other AttributeError), h)
  end.

(** The [while] loop for several lists. *)
Fixpoint pop_while (fuel : nat) (item : A) (first : nat)
    (rest : list tuple_elem) (h : heap) : result unit * heap :=
  if (0 <? count item (h first))%nat then
    match fuel with
    | O => (Exhausted, h)
    | S fuel' =>
        match index item (h first) with
        | None => (Raised ValueError, h)
        | Some i =>
            match pop (h first) i with
            | None => (Raised (Other IndexError), h)
            | Some l' =>
                match pop_rest (heap_set h first l') rest i with
                | (Returned _, h') => pop_while fuel' item first rest h'
                | stopped => stopped
                end
            end
        end
    end
  else (Returned tt, h).

(** The two [while] loops on a first element that is not a list: with
    no occurrence of [item] nothing is done; otherwise the first
    removal fails, as the object has no [remove] and no [pop]. *)
Definition other_while (item : A) (o : plain_obj A) (single : bool)
    : result unit :=
  match obj_count o item with
  | inr e => Raised e
  | inl O => Returned tt
  | inl (S _) =>
      if single then Raised (Other AttributeError)
      else
        match obj_index o item with
        | inr e => Raised e
        | inl _ => Raised (Other AttributeError)
        end
  end.

(** [removeFromLists(item, lists)] on the heap [h]: how the call ends,
    the heap it leaves and the lines printed. *)
Definition removeFromLists (item : A) (lists : lists_arg A) (h : heap)
    : result unit * heap * list pystr :=
  match lists with
  | NotTuple => (Returned tt, h, [str "Lists must be a tuple of lists."])
  | EmptyTuple => (Returned tt, h, [str "No lists given to remove the item from."])
  | Tuple (FList first) rest =>
      let listLen := length (h first) in
      match check_rest h listLen rest with
      | Some line => (Returned tt, h, [line])
      | None =>
          match rest with
          | [] => (remove_while listLen item first h, [])
          | _ => (pop_while listLen item first rest h, [])
          end
      end
  | Tuple (FOther o) rest =>
      match obj_len o with
      | inr e => (Raised e, h, [])
      | inl listLen =>
          match check_rest h listLen rest with
          | Some line => (Returned tt, h, [line])
          | None =>
              (other_while item o match rest with [] => true | _ => false end,
               h, [])
          end
      end
  end.

(** The elements of [l] at the positions where [l0] does not hold
    [item]. *)
Fixpoint keep_where (item : A) (l0 l : list A) : list A :=
  match l0, l with
  | x :: t0, y :: t =>
      if eqb x item then keep_where item t0 t else y :: keep_where item t0 t
  | _, _ => []
  end.

End RemoveFromLists.

(** ** [timeToSeconds] *)

Section TimeToSeconds.

(** [int(s)] for a [str]; [None] stands for the [ValueError]. *)
Variable py_int : pystr -> option Z.

Definition not_a_str_line (shown : pystr) : pystr :=
  pln_line [str "Input "; shown; str " is not a string."].

Definition bad_format_line (t : pystr) : pystr :=
  pln_line [str "Input "; t; str " does not have a proper format."].

(** [timeToSeconds(t)]: the number of seconds or [None], or the
    exception raised, with the lines printed. *)
Definition timeToSeconds (t : pyobj) : result (option Z) * list pystr :=
  match t with
  | OOther shown => (Returned None, [not_a_str_line shown])
  | OStr t =>
      match subscript t (-3) with
      | None => (Raised (Other IndexError), [])
      | Some c3 =>
          let correctForm := N.eqb c3 colon in
          let checked :=
            if 6 <=? len t then
              match subscript t (-6) with
              | None => inr (Other IndexError)
              | Some c6 => if N.eqb c6 colon then inl (true, correctForm)
                           else inl (false, false)
              end
            else inl (false, correctForm) in
          match checked with
          | inr e => (Raised e, [])
          | inl (hours, correctForm) =>
              if negb correctForm then (Returned None, [bad_format_line t])
              else
                match py_int (slice t (-2) (len t)) with
                | None => (Raised ValueError, [])
                | Some s =>
                    let seconds := 0 + s in
                    match py_int (slice t (-5) (-3)) with
                    | None => (Raised ValueError, [])
                    | Some m =>
                        let seconds := seconds + 60 * m in
                        if hours then
                          match py_int (slice t 0 (-6)) with
                          | None => (Raised ValueError, [])
                          | Some h => (Returned (Some (seconds + 3600 * h)), [])
                          end
                        else (Returned (Some seconds), [])
                    end
                end
          end
      end
  end.

End TimeToSeconds.

(** For running examples: the value [int] gives for a string of ASCII
    digits that is not empty; any other string is refused here. *)
Fixpoint digits_value (s : pystr) (acc : Z) : option Z :=
  match s with
  | [] => Some acc
  | c :: rest =>
      if (N.leb 48 c && N.leb c 57)%bool
      then digits_value rest (10 * acc + Z.of_N (c - 48))
      else None
  end.

Definition int_of_digits (s : pystr) : option Z :=
  match s with
  | [] => None
  | _ => digits_value s 0
  end.

(** The number of times the devices were enumerated. *)
Fixpoint enumerations (t : list event) : nat :=
  match t with
  | [] => O
  | Comports :: rest => S (enumerations rest)
  | _ :: rest => enumerations rest
  end.

(** A host that lists one device for the first [k] enumerations and two
    from then on, in a process where [Serial] is bound. *)
Definition returning_env (k : nat) : Env :=
  {| os_name := os_name plain_env;
     env_comports := fun t => if (enumerations t <? k)%nat
                              then ["ttyS0"]%string
                              else ["ttyS0"; "ttyUSB0"]%string;
     env_open := env_open plain_env;
     env_write := env_write plain_env;
     env_readline := env_readline plain_env;
     env_user := env_user plain_env;
     env_flush_events := env_flush_events plain_env;
     env_update_idletasks := env_update_idletasks plain_env;
     global_Serial := true |}.

(** The world after [start(maxSize, handleFunc)]: the capacity is
    [maxSize], the callback is [h], and a reader was started on the
    port of the buffer. *)
Definition started (maxSize : Z) (h : handler) (w : World) : World :=
  {| buffer := with_size maxSize (buffer w);
     handleData := h;
     trace := trace w ++ [ReaderStart (port (buffer w))] |}.

(** * Properties *)

(** ** Slices against [firstn] and [skipn] *)

Section SliceFacts.

Context {A : Type}.
Implicit Types (s pre post : list A) (n : Z).

Lemma len_nonneg s : 0 <= len s.
Proof. unfold len. lia. Qed.

Lemma len_app s1 s2 : len (s1 ++ s2) = len s1 + len s2.
Proof. unfold len. rewrite length_app. lia. Qed.

Lemma slice_head s n :
  0 <= n <= len s -> slice s 0 n = firstn (Z.to_nat n) s.
Proof.
  intros Hn. unfold slice, adjust_index. fold (len s).
  change (0 <? 0) with false. cbv iota.
  destruct (Z.ltb_spec (len s) 0) as [H0|H0]; [pose proof (len_nonneg s); lia|].
  destruct (Z.ltb_spec n 0) as [H1|H1]; [lia|].
  destruct (Z.ltb_spec (len s) n) as [H2|H2]; [lia|].
  rewrite Z.sub_0_r. reflexivity.
Qed.

(** A slice up to the end is what [skipn] leaves, at the adjusted index. *)
Lemma slice_to_end s n :
  slice s n (len s) = skipn (Z.to_nat (adjust_index n (len s))) s.
Proof.
  unfold slice. fold (len s).
  assert (Hl : adjust_index (len s) (len s) = len s).
  { unfold adjust_index. pose proof (len_nonneg s).
    destruct (Z.ltb_spec (len s) 0); [lia|].
    destruct (Z.ltb_spec (len s) (len s)); [lia|]. reflexivity. }
  rewrite Hl.
  apply firstn_all2. rewrite length_skipn. unfold len. lia.
Qed.

Lemma slice_tail s n :
  0 <= n <= len s -> slice s n (len s) = skipn (Z.to_nat n) s.
Proof.
  intros Hn. rewrite slice_to_end. unfold adjust_index.
  destruct (Z.ltb_spec n 0); [lia|].
  destruct (Z.ltb_spec (len s) n); [lia|]. reflexivity.
Qed.

Lemma slice_head_app pre post :
  slice (pre ++ post) 0 (len pre) = pre.
Proof.
  rewrite slice_head.
  - unfold len. rewrite Nat2Z.id. rewrite firstn_app, Nat.sub_diag.
    rewrite firstn_all. simpl. apply app_nil_r.
  - rewrite len_app. pose proof (len_nonneg pre). pose proof (len_nonneg post). lia.
Qed.

Lemma slice_tail_app pre post :
  slice (pre ++ post) (len pre) (len (pre ++ post)) = post.
Proof.
  rewrite slice_tail.
  - unfold len. rewrite Nat2Z.id. rewrite skipn_app, Nat.sub_diag.
    rewrite skipn_all. reflexivity.
  - rewrite len_app. pose proof (len_nonneg pre). pose proof (len_nonneg post). lia.
Qed.

(** Whatever the index, a slice up to the end is a suffix. *)
Lemma slice_to_end_suffix s n :
  exists pre, s = pre ++ slice s n (len s).
Proof.
  rewrite slice_to_end.
  exists (firstn (Z.to_nat (adjust_index n (len s))) s).
  symmetry. apply firstn_skipn.
Qed.

End SliceFacts.

(** ** The receive buffer: storing chunks *)

Ltac run_py :=
  unfold bind, ret, raise, get_buffer, update_buffer, set_handleData,
    try_except; cbn [fst snd buffer handleData trace].

Lemma emit_all_nil w : emit_all [] w = w.
Proof. destruct w. unfold emit_all. cbn. rewrite app_nil_r. reflexivity. Qed.

Lemma emit_all_app es1 es2 w :
  emit_all es2 (emit_all es1 w) = emit_all (es1 ++ es2) w.
Proof. unfold emit_all. cbn. rewrite app_assoc. reflexivity. Qed.

Lemma emit_all_emit e es w : emit_all es (emit e w) = emit_all (e :: es) w.
Proof. unfold emit_all, emit. cbn. rewrite <- app_assoc. reflexivity. Qed.

Lemma emit_emit_all e es w : emit e (emit_all es w) = emit_all (es ++ [e]) w.
Proof. unfold emit_all, emit. cbn. rewrite app_assoc. reflexivity. Qed.

Lemma readStoreBuffer_fits E data w :
  len (content (buffer w)) + len data <= size (buffer w) ->
  readStoreBuffer E data w
  = call_handleData E (put_content (content (buffer w) ++ data) w).
Proof.
  intros Hfit. unfold readStoreBuffer. run_py.
  destruct (Z.leb_spec (len (content (buffer w)) + len data) (size (buffer w)));
    [reflexivity | lia].
Qed.

Lemma readStoreBuffer_overflow E data w :
  size (buffer w) < len (content (buffer w)) + len data ->
  readStoreBuffer E data w = call_handleData E w.
Proof.
  intros Hover. unfold readStoreBuffer. run_py.
  destruct (Z.leb_spec (len (content (buffer w)) + len data) (size (buffer w)));
    [lia | reflexivity].
Qed.

Lemma call_handleData_dummy E w :
  handleData w = dummy -> call_handleData E w = (Return tt, w).
Proof. intros H. unfold call_handleData. rewrite H. reflexivity. Qed.

Lemma store_chunks_within_capacity E :
  (forall w, within_capacity w -> within_capacity (snd (call_handleData E w))) ->
  forall chunks w,
    within_capacity w -> within_capacity (snd (store_chunks E chunks w)).
Proof.
  intros Hcb chunks. induction chunks as [|data rest IH]; intros w Hw.
  - exact Hw.
  - cbn [store_chunks]. unfold bind.
    assert (Hstep : within_capacity (snd (readStoreBuffer E data w))).
    { destruct (Z.le_gt_cases (len (content (buffer w)) + len data) (size (buffer w)))
        as [Hfit|Hover].
      - rewrite readStoreBuffer_fits by exact Hfit. apply Hcb.
        unfold within_capacity, put_content, put_buffer. cbn.
        rewrite len_app. exact Hfit.
      - rewrite readStoreBuffer_overflow by lia. apply Hcb. exact Hw. }
    destruct (readStoreBuffer E data w) as [[[]|e|] w1]; cbn [snd] in Hstep.
    + apply IH. exact Hstep.
    + exact Hstep.
    + exact Hstep.
Qed.

Lemma call_handleData_user E f w :
  handleData w = user f -> call_handleData E w = env_user E f w.
Proof. intros H. unfold call_handleData. rewrite H. reflexivity. Qed.

(** C1, as the code has it. A chunk that fits ([len(content) + len(data) <= size]) is
    appended whole to the end of the buffer; a chunk that does not fit is
    dropped whole and the buffer is what it was. In both cases the
    callback is called next, on the buffer so obtained: the application
    function [f] that [start] registered runs there, and the placeholder
    does nothing. A buffer that is within its capacity when the chunks
    arrive stays within it over any sequence of chunks (as long as the
    callback does not break the bound), and of two chunks of which only
    the first fits the buffer holds the old content and the first. The
    bound is not one of all reachable states: [start] sets the capacity
    and leaves the content. *)
Theorem readStoreBuffer_capacity (E : Env) (data : bytes) (w : World) :
  (len (content (buffer w)) + len data <= size (buffer w) ->
   readStoreBuffer E data w
   = call_handleData E (put_content (content (buffer w) ++ data) w))
  /\ (size (buffer w) < len (content (buffer w)) + len data ->
      readStoreBuffer E data w = call_handleData E w)
  /\ (forall f, handleData w = user f ->
        (len (content (buffer w)) + len data <= size (buffer w) ->
         readStoreBuffer E data w
         = env_user E f (put_content (content (buffer w) ++ data) w))
        /\ (size (buffer w) < len (content (buffer w)) + len data ->
            readStoreBuffer E data w = env_user E f w))
  /\ (handleData w = dummy ->
        (len (content (buffer w)) + len data <= size (buffer w) ->
         readStoreBuffer E data w
         = (Return tt, put_content (content (buffer w) ++ data) w))
        /\ (size (buffer w) < len (content (buffer w)) + len data ->
            readStoreBuffer E data w = (Return tt, w)))
  /\ ((forall w0, within_capacity w0 ->
                  within_capacity (snd (call_handleData E w0))) ->
      within_capacity w ->
      forall chunks, within_capacity (snd (store_chunks E chunks w)))
  /\ (handleData w = dummy ->
      forall c2,
        len (content (buffer w)) + len data <= size (buffer w) ->
        size (buffer w) < len (content (buffer w)) + len data + len c2 ->
        store_chunks E [data; c2] w
        = (Return tt, put_content (content (buffer w) ++ data) w)).
Proof.
  split; [apply readStoreBuffer_fits|].
  split; [apply readStoreBuffer_overflow|].
  split.
  { intros f Hf. split; intros H.
    - rewrite readStoreBuffer_fits by exact H.
      apply call_handleData_user. exact Hf.
    - rewrite readStoreBuffer_overflow by exact H.
      apply call_handleData_user. exact Hf. }
  split.
  { intros Hd. split; intros H.
    - rewrite readStoreBuffer_fits by exact H.
      apply call_handleData_dummy. exact Hd.
    - rewrite readStoreBuffer_overflow by exact H.
      apply call_handleData_dummy. exact Hd. }
  split.
  - intros Hcb Hw chunks. apply store_chunks_within_capacity; assumption.
  - intros Hd c2 Hfit Hover. cbn [store_chunks]. unfold bind.
    rewrite readStoreBuffer_fits by exact Hfit.
    rewrite call_handleData_dummy by exact Hd.
    rewrite readStoreBuffer_overflow.
    + rewrite call_handleData_dummy by exact Hd. reflexivity.
    + unfold put_content, put_buffer. cbn. rewrite len_app. lia.
Qed.

Lemma readStoreBuffer_capacity_witness :
  readStoreBuffer plain_env (blit "cd") (world_with (blit "ab") 4)
  = call_handleData plain_env (put_content (blit "abcd") (world_with (blit "ab") 4))
  /\ readStoreBuffer plain_env (blit "cde") (world_with (blit "ab") 4)
     = call_handleData plain_env (world_with (blit "ab") 4)
  /\ readStoreBuffer announcing_env (blit "cd") (listening (world_with (blit "ab") 4))
     = (Return tt,
        emit (Printed "data handled")
          (put_content (blit "abcd") (listening (world_with (blit "ab") 4))))
  /\ readStoreBuffer announcing_env (blit "cde") (listening (world_with (blit "ab") 4))
     = (Return tt,
        emit (Printed "data handled") (listening (world_with (blit "ab") 4)))
  /\ readStoreBuffer plain_env (blit "cd") (world_with (blit "ab") 4)
     = (Return tt, put_content (blit "abcd") (world_with (blit "ab") 4))
  /\ readStoreBuffer plain_env (blit "cde") (world_with (blit "ab") 4)
     = (Return tt, world_with (blit "ab") 4)
  /\ within_capacity
       (snd (store_chunks plain_env [blit "c"; blit "def"; blit "g"]
                          (world_with (blit "ab") 4)))
  /\ store_chunks plain_env [blit "cd"; blit "e"] (world_with (blit "ab") 4)
     = (Return tt, put_content (blit "abcd") (world_with (blit "ab") 4)).
Proof.
  split.
  { apply (proj1 (readStoreBuffer_capacity plain_env (blit "cd")
                    (world_with (blit "ab") 4))).
    vm_compute. discriminate. }
  split.
  { apply (proj1 (proj2 (readStoreBuffer_capacity plain_env (blit "cde")
                           (world_with (blit "ab") 4)))).
    vm_compute. reflexivity. }
  split.
  { apply (proj1 (proj1 (proj2 (proj2 (readStoreBuffer_capacity announcing_env
             (blit "cd") (listening (world_with (blit "ab") 4))))) 0%nat eq_refl)).
    vm_compute. discriminate. }
  split.
  { apply (proj2 (proj1 (proj2 (proj2 (readStoreBuffer_capacity announcing_env
             (blit "cde") (listening (world_with (blit "ab") 4))))) 0%nat eq_refl)).
    vm_compute. reflexivity. }
  split.
  { apply (proj1 (proj1 (proj2 (proj2 (proj2 (readStoreBuffer_capacity plain_env
             (blit "cd") (world_with (blit "ab") 4))))) eq_refl)).
    vm_compute. discriminate. }
  split.
  { apply (proj2 (proj1 (proj2 (proj2 (proj2 (readStoreBuffer_capacity plain_env
             (blit "cde") (world_with (blit "ab") 4))))) eq_refl)).
    vm_compute. reflexivity. }
  split.
  { apply (proj1 (proj2 (proj2 (proj2 (proj2 (readStoreBuffer_capacity plain_env
             (blit "c") (world_with (blit "ab") 4))))))).
    - intros w0 H0. unfold call_handleData. destruct (handleData w0); exact H0.
    - vm_compute. discriminate. }
  { apply (proj2 (proj2 (proj2 (proj2 (proj2 (readStoreBuffer_capacity plain_env
             (blit "cd") (world_with (blit "ab") 4))))))).
    - reflexivity.
    - vm_compute. discriminate.
    - vm_compute. reflexivity. }
Defined.

(** C1, as worded, does not hold of every reachable state: a link that
    holds six bytes and is started again with the capacity 4 keeps the
    six bytes, and the chunk that arrives next is handled and dropped
    while the buffer is above its capacity. *)
Lemma capacity_exceeded_after_restart :
  fst (restart_session World_initial) = Return tt
  /\ content (buffer (snd (restart_session World_initial))) = blit "abcdef"
  /\ size (buffer (snd (restart_session World_initial))) = 4
  /\ ~ within_capacity (snd (restart_session World_initial)).
Proof.
  split; [vm_compute; reflexivity|].
  split; [vm_compute; reflexivity|].
  split; [vm_compute; reflexivity|].
  vm_compute. intros H. apply H. reflexivity.
Qed.

(** ** What the reader thread does with a chunk *)






(** ** Reading bytes *)

Lemma readB_short n w :
  len (content (buffer w)) < n -> readB n w = (Return not_enough_data, w).
Proof.
  intros Hlt. unfold readB. run_py.
  destruct (Z.ltb_spec (len (content (buffer w))) n); [reflexivity | lia].
Qed.

Lemma readB_enough n w :
  0 <= n <= len (content (buffer w)) ->
  readB n w
  = (Return (PyBytes (firstn (Z.to_nat n) (content (buffer w)))),
     put_content (skipn (Z.to_nat n) (content (buffer w))) w).
Proof.
  intros Hn. unfold readB. run_py.
  destruct (Z.ltb_spec (len (content (buffer w))) n); [lia|].
  rewrite slice_head, slice_tail by lia. reflexivity.
Qed.

(** C2. For [n >= 0]: with fewer than [n] bytes buffered, [readB(n)]
    returns "not enough data" and the world is unchanged, so that a second
    call right after it returns the same; otherwise the buffer splits as
    [first ++ rest] with [first] of length [n], [first] is returned and
    [rest] is what the buffer holds afterwards. *)
Theorem readB_fifo (n : Z) (w : World) :
  0 <= n ->
  (len (content (buffer w)) < n ->
   readB n w = (Return not_enough_data, w)
   /\ (r1 <- readB n ;; r2 <- readB n ;; ret (r1, r2)) w
      = (Return (not_enough_data, not_enough_data), w))
  /\ (n <= len (content (buffer w)) ->
      exists first rest,
        content (buffer w) = first ++ rest
        /\ len first = n
        /\ readB n w = (Return (PyBytes first), put_content rest w)).
Proof.
  intros Hn. split.
  - intros Hlt. split; [apply readB_short; exact Hlt|].
    unfold bind. rewrite readB_short by exact Hlt. cbv beta iota.
    rewrite readB_short by exact Hlt. reflexivity.
  - intros Hle.
    exists (firstn (Z.to_nat n) (content (buffer w))),
           (skipn (Z.to_nat n) (content (buffer w))).
    split; [symmetry; apply firstn_skipn|].
    split; [|apply readB_enough; lia].
    unfold len in *. rewrite length_firstn. lia.
Qed.

Lemma readB_fifo_witness :
  (readB 3 (world_with (blit "ab") 8) = (Return not_enough_data, world_with (blit "ab") 8)
   /\ (r1 <- readB 3 ;; r2 <- readB 3 ;; ret (r1, r2)) (world_with (blit "ab") 8)
      = (Return (not_enough_data, not_enough_data), world_with (blit "ab") 8))
  /\ exists first rest,
       content (buffer (world_with (blit "abcde") 8)) = first ++ rest
       /\ len first = 2
       /\ readB 2 (world_with (blit "abcde") 8)
          = (Return (PyBytes first), put_content rest (world_with (blit "abcde") 8)).
Proof.
  split.
  - apply (proj1 (readB_fifo 3 (world_with (blit "ab") 8) ltac:(lia))).
    vm_compute. reflexivity.
  - apply (proj2 (readB_fifo 2 (world_with (blit "abcde") 8) ltac:(lia))).
    vm_compute. discriminate.
Defined.

(** ** Reading a line *)

Lemma eqb_newline_true c : c = newline -> Byte.eqb c newline = true.
Proof. apply Byte.byte_dec_lb. Qed.

Lemma eqb_newline_false c : c <> newline -> Byte.eqb c newline = false.
Proof.
  intros Hc. destruct (Byte.eqb c newline) eqn:Heq; [|reflexivity].
  apply Byte.byte_dec_bl in Heq. contradiction.
Qed.

Lemma getitem_app_l (pre post : bytes) (i : nat) (w : World) :
  (i < length pre)%nat ->
  exists c, In c pre /\ getitem (pre ++ post) i w = (Return c, w).
Proof.
  intros Hi. unfold getitem. rewrite nth_error_app1 by exact Hi.
  destruct (nth_error pre i) as [c|] eqn:Hnth.
  - exists c. split; [eapply nth_error_In; exact Hnth | reflexivity].
  - apply nth_error_None in Hnth. lia.
Qed.

Lemma getitem_middle (pre post : bytes) (c : byte) (w : World) :
  getitem (pre ++ c :: post) (length pre) w = (Return c, w).
Proof.
  unfold getitem. rewrite nth_error_app2 by lia.
  rewrite Nat.sub_diag. reflexivity.
Qed.

Lemma slice_after_middle (pre post : bytes) (c : byte) :
  slice (pre ++ c :: post) (Z.of_nat (length pre) + 1) (len (pre ++ c :: post))
  = post.
Proof.
  replace (pre ++ c :: post) with ((pre ++ [c]) ++ post)
    by (rewrite <- app_assoc; reflexivity).
  replace (Z.of_nat (length pre) + 1) with (len (pre ++ [c]))
    by (rewrite len_app; unfold len; simpl; lia).
  apply slice_tail_app.
Qed.

(** The loop of [readL], started at index [k] inside the part before
    the first line feed. *)
Lemma readL_for_found (pre post : bytes) (w : World) :
  content (buffer w) = pre ++ newline :: post ->
  ~ In newline pre ->
  forall m k,
    (k <= length pre)%nat -> (length pre < k + m)%nat ->
    readL_for (seq k m) w = (Return (decoded_line pre), put_content post w).
Proof.
  intros Hc Hpre m. induction m as [|m IH]; intros k Hk Hm; [lia|].
  cbn [seq readL_for]. run_py. rewrite Hc.
  destruct (Nat.eq_dec k (length pre)) as [->|Hne].
  - rewrite getitem_middle. rewrite eqb_newline_true by reflexivity.
    rewrite slice_after_middle.
    change (Z.of_nat (length pre)) with (len pre). rewrite slice_head_app.
    reflexivity.
  - destruct (getitem_app_l pre (newline :: post) k w) as [c [Hin Hget]]; [lia|].
    rewrite Hget. rewrite eqb_newline_false.
    + apply IH; lia.
    + intros ->. contradiction.
Qed.

Lemma readL_for_absent (w : World) :
  ~ In newline (content (buffer w)) ->
  forall indices,
    (forall i, In i indices -> (i < length (content (buffer w)))%nat) ->
    readL_for indices w = (Return not_enough_data, w).
Proof.
  intros Hno indices. induction indices as [|i rest IH]; intros Hrange.
  - reflexivity.
  - cbn [readL_for]. run_py.
    destruct (getitem_app_l (content (buffer w)) [] i w) as [c [Hin Hget]].
    { apply Hrange. left. reflexivity. }
    rewrite app_nil_r in Hget. rewrite Hget.
    rewrite eqb_newline_false by (intros ->; contradiction).
    apply IH. intros j Hj. apply Hrange. right. exact Hj.
Qed.

Lemma readL_found (pre post : bytes) (w : World) :
  content (buffer w) = pre ++ newline :: post ->
  ~ In newline pre ->
  readL w = (Return (decoded_line pre), put_content post w).
Proof.
  intros Hc Hpre. unfold readL, range. run_py.
  apply (readL_for_found pre post w Hc Hpre); [lia|].
  rewrite Hc, length_app. simpl. lia.
Qed.

Lemma readL_absent (w : World) :
  ~ In newline (content (buffer w)) ->
  readL w = (Return not_enough_data, w).
Proof.
  intros Hno. unfold readL, range. run_py.
  apply readL_for_absent; [exact Hno|].
  intros i Hi. apply in_seq in Hi. lia.
Qed.

(** C3. On a link with the default terminator (line feed): when the buffer
    is [pre ++ b"\n" ++ post] with no line feed in [pre], [readL] removes
    [pre] and the line feed, leaving [post], and returns [pre] decoded, or
    "Read data isn't a string" when [pre] does not decode, the bytes being
    removed all the same; on [b"ab\ncd"] it returns ["ab"] and leaves
    [b"cd"]; without a line feed in the buffer it returns
    "not enough data" and changes nothing. *)
Theorem readL_line (w : World) :
  terminator (buffer w) = PyStr (str nl) ->
  (forall pre post,
      content (buffer w) = pre ++ newline :: post ->
      ~ In newline pre ->
      (forall s, decode pre = Some s ->
                 readL w = (Return (PyStr s), put_content post w))
      /\ (decode pre = None ->
          readL w = (Return not_a_string, put_content post w)))
  /\ (content (buffer w) = blit "ab" ++ newline :: blit "cd" ->
      readL w = (Return (PyStr (str "ab")), put_content (blit "cd") w))
  /\ (~ In newline (content (buffer w)) ->
      readL w = (Return not_enough_data, w)).
Proof.
  intros _. split; [|split].
  - intros pre post Hc Hpre.
    pose proof (readL_found pre post w Hc Hpre) as Hr.
    unfold decoded_line in Hr. split.
    + intros s Hs. rewrite Hs in Hr. exact Hr.
    + intros Hs. rewrite Hs in Hr. exact Hr.
  - intros Hc. apply (readL_found (blit "ab") (blit "cd") w Hc).
    cbn. intros [H|[H|[]]]; discriminate H.
  - apply readL_absent.
Qed.

Lemma readL_line_witness :
  readL (world_with (blit "ab" ++ newline :: blit "cd") 4096)
  = (Return (PyStr (str "ab")),
     put_content (blit "cd") (world_with (blit "ab" ++ newline :: blit "cd") 4096))
  /\ readL (world_with ([xff; x61] ++ newline :: blit "cd") 4096)
     = (Return not_a_string,
        put_content (blit "cd") (world_with ([xff; x61] ++ newline :: blit "cd") 4096))
  /\ readL (world_with (blit "abcd") 4096)
     = (Return not_enough_data, world_with (blit "abcd") 4096).
Proof.
  split; [|split].
  - apply (proj1 (proj2 (readL_line
                           (world_with (blit "ab" ++ newline :: blit "cd") 4096)
                           eq_refl))).
    reflexivity.
  - apply (proj2 (proj1 (readL_line
                           (world_with ([xff; x61] ++ newline :: blit "cd") 4096)
                           eq_refl)
                        [xff; x61] (blit "cd") eq_refl
                        ltac:(cbn; intros [H|[H|[]]]; discriminate H))).
    reflexivity.
  - apply (proj2 (proj2 (readL_line (world_with (blit "abcd") 4096) eq_refl))).
    cbn. intros [H|[H|[H|[H|[]]]]]; discriminate H.
Defined.

(** ** Clearing the buffer *)

Lemma getitem_app_r (pre post : bytes) (c : byte) (i : nat) (w : World) :
  (length pre < i)%nat -> (i < length (pre ++ c :: post))%nat ->
  exists d, In d post /\ getitem (pre ++ c :: post) i w = (Return d, w).
Proof.
  intros Hlo Hhi. unfold getitem. rewrite nth_error_app2 by lia.
  destruct (i - length pre)%nat as [|j] eqn:Hj; [lia|]. cbn [nth_error].
  destruct (nth_error post j) as [d|] eqn:Hnth.
  - exists d. split; [eapply nth_error_In; exact Hnth | reflexivity].
  - apply nth_error_None in Hnth. rewrite length_app in Hhi. simpl in Hhi. lia.
Qed.

Lemma range_down_S m : range_down (S m) = m :: range_down m.
Proof.
  unfold range_down. rewrite seq_S, rev_app_distr. reflexivity.
Qed.

(** The loop of [clearBuffer], started at index [m - 1] at or after the
    last line feed. *)
Lemma clearBuffer_for_found (pre post : bytes) (w : World) :
  content (buffer w) = pre ++ newline :: post ->
  ~ In newline post ->
  forall m,
    (length pre < m)%nat -> (m <= length (content (buffer w)))%nat ->
    clearBuffer_for (range_down m) w = (Return tt, put_content post w).
Proof.
  intros Hc Hpost m. induction m as [|m IH]; intros Hlo Hhi; [lia|].
  rewrite range_down_S. cbn [clearBuffer_for]. run_py. rewrite Hc.
  destruct (Nat.eq_dec m (length pre)) as [->|Hne].
  - rewrite getitem_middle. rewrite eqb_newline_true by reflexivity.
    rewrite slice_after_middle. reflexivity.
  - destruct (getitem_app_r pre post newline m w) as [d [Hin Hget]];
      [lia | rewrite <- Hc; lia |].
    rewrite Hget. rewrite eqb_newline_false by (intros ->; contradiction).
    apply IH; lia.
Qed.

Lemma clearBuffer_for_absent (w : World) :
  ~ In newline (content (buffer w)) ->
  forall indices,
    (forall i, In i indices -> (i < length (content (buffer w)))%nat) ->
    clearBuffer_for indices w = (Return tt, w).
Proof.
  intros Hno indices. induction indices as [|i rest IH]; intros Hrange.
  - reflexivity.
  - cbn [clearBuffer_for]. run_py.
    destruct (getitem_app_l (content (buffer w)) [] i w) as [c [Hin Hget]].
    { apply Hrange. left. reflexivity. }
    rewrite app_nil_r in Hget. rewrite Hget.
    rewrite eqb_newline_false by (intros ->; contradiction).
    apply IH. intros j Hj. apply Hrange. right. exact Hj.
Qed.

Lemma clearBuffer_after_refresh E clearLine w w1 :
  gui_refresh E w = (Return tt, w1) ->
  clearBuffer E clearLine w
  = (if clearLine
     then clearBuffer_for (range_down (length (content (buffer w1)))) w1
     else (Return tt, put_content [] w1)).
Proof.
  unfold gui_refresh, clearBuffer, bind.
  destruct (env_flush_events E w) as [[[]|e|] w0]; [|discriminate|discriminate].
  destruct (env_update_idletasks E w0) as [[[]|e|] w0'];
    [|discriminate|discriminate].
  intros Heq. injection Heq as ->. destruct clearLine; reflexivity.
Qed.

Lemma clearBuffer_line_found E w w1 pre post :
  gui_refresh E w = (Return tt, w1) ->
  content (buffer w1) = pre ++ newline :: post ->
  ~ In newline post ->
  clearBuffer E true w = (Return tt, put_content post w1).
Proof.
  intros Hg Hc Hpost. rewrite (clearBuffer_after_refresh E true w w1 Hg).
  apply (clearBuffer_for_found pre post w1 Hc Hpost); [|lia].
  rewrite Hc, length_app. simpl. lia.
Qed.

Lemma clearBuffer_line_absent E w w1 :
  gui_refresh E w = (Return tt, w1) ->
  ~ In newline (content (buffer w1)) ->
  clearBuffer E true w = (Return tt, w1).
Proof.
  intros Hg Hno. rewrite (clearBuffer_after_refresh E true w w1 Hg).
  apply clearBuffer_for_absent; [exact Hno|].
  intros i Hi. unfold range_down in Hi. apply in_rev, in_seq in Hi. lia.
Qed.




(** ** The consumer only takes bytes from the front *)

Lemma split_at_first (x : byte) (l : bytes) :
  In x l -> exists pre post, l = pre ++ x :: post /\ ~ In x pre.
Proof.
  induction l as [|c l IH]; intros Hin; [destruct Hin|].
  destruct (Byte.byte_eq_dec c x) as [->|Hne].
  - exists [], l. split; [reflexivity | intros []].
  - destruct Hin as [Heq|Hin]; [contradiction|].
    destruct (IH Hin) as [pre [post [Hl Hpre]]].
    exists (c :: pre), post. split.
    + rewrite Hl. reflexivity.
    + intros [Heq|Hin']; [contradiction | exact (Hpre Hin')].
Qed.

Lemma split_at_last (x : byte) (l : bytes) :
  In x l -> exists pre post, l = pre ++ x :: post /\ ~ In x post.
Proof.
  intros Hin. apply in_rev in Hin.
  destruct (split_at_first x (rev l) Hin) as [pre [post [Hl Hpre]]].
  exists (rev post), (rev pre). split.
  - rewrite <- (rev_involutive l), Hl, rev_app_distr. cbn [rev].
    rewrite <- app_assoc. reflexivity.
  - intros Hin'. apply in_rev in Hin'. exact (Hpre Hin').
Qed.

Lemma is_suffix_refl (c : bytes) : is_suffix c c.
Proof. exists []. reflexivity. Qed.

Lemma is_suffix_nil (c : bytes) : is_suffix [] c.
Proof. exists c. symmetry. apply app_nil_r. Qed.

Lemma is_suffix_after (pre post : bytes) (x : byte) :
  is_suffix post (pre ++ x :: post).
Proof. exists (pre ++ [x]). rewrite <- app_assoc. reflexivity. Qed.

Lemma readB_suffix n w :
  is_suffix (content (buffer (snd (readB n w)))) (content (buffer w)).
Proof.
  unfold readB. run_py.
  destruct (Z.ltb_spec (len (content (buffer w))) n).
  - apply is_suffix_refl.
  - cbn. apply slice_to_end_suffix.
Qed.

Lemma readL_suffix w :
  is_suffix (content (buffer (snd (readL w)))) (content (buffer w)).
Proof.
  destruct (in_dec Byte.byte_eq_dec newline (content (buffer w))) as [Hin|Hno].
  - destruct (split_at_first newline _ Hin) as [pre [post [Hc Hpre]]].
    rewrite (readL_found pre post w Hc Hpre). cbn. rewrite Hc.
    apply is_suffix_after.
  - rewrite (readL_absent w Hno). apply is_suffix_refl.
Qed.

Lemma clearBuffer_suffix E clearLine w w1 :
  gui_refresh E w = (Return tt, w1) ->
  is_suffix (content (buffer (snd (clearBuffer E clearLine w))))
            (content (buffer w1)).
Proof.
  intros Hg. destruct clearLine.
  - destruct (in_dec Byte.byte_eq_dec newline (content (buffer w1))) as [Hin|Hno].
    + destruct (split_at_last newline _ Hin) as [pre [post [Hc Hpost]]].
      rewrite (clearBuffer_line_found E w w1 pre post Hg Hc Hpost). cbn.
      rewrite Hc. apply is_suffix_after.
    + rewrite (clearBuffer_line_absent E w w1 Hg Hno). apply is_suffix_refl.
  - rewrite (clearBuffer_after_refresh E false w w1 Hg). cbn.
    apply is_suffix_nil.
Qed.

(** C10, as the code has it. After [readB(n)] (any integer [n]) and after
    [readL()] the buffer is a suffix of what it was: bytes are only taken
    from the front, none is added, repeated or moved. After
    [clearBuffer], in either mode, the buffer is a suffix of the buffer
    as the GUI refresh at the start of [clearBuffer] leaves it, and hence
    of the buffer the call found when that refresh does not touch the
    content. *)
Theorem consumer_leaves_suffix (E : Env) (w : World) :
  (forall n, is_suffix (content (buffer (snd (readB n w)))) (content (buffer w)))
  /\ is_suffix (content (buffer (snd (readL w)))) (content (buffer w))
  /\ (forall clearLine w1,
         gui_refresh E w = (Return tt, w1) ->
         is_suffix (content (buffer (snd (clearBuffer E clearLine w))))
                   (content (buffer w1)))
  /\ (forall clearLine w1,
         gui_refresh E w = (Return tt, w1) ->
         content (buffer w1) = content (buffer w) ->
         is_suffix (content (buffer (snd (clearBuffer E clearLine w))))
                   (content (buffer w))).
Proof.
  split; [intros n; apply readB_suffix|].
  split; [apply readL_suffix|].
  split; [intros clearLine w1; apply clearBuffer_suffix|].
  intros clearLine w1 Hg Hsame. rewrite <- Hsame.
  apply clearBuffer_suffix. exact Hg.
Qed.

Lemma consumer_leaves_suffix_witness :
  let w := world_with (blit "ab" ++ newline :: blit "cd") 64 in
  is_suffix (content (buffer (snd (clearBuffer plain_env true w))))
            (content (buffer w))
  /\ is_suffix (content (buffer (snd (clearBuffer plain_env false w))))
               (content (buffer w))
  /\ is_suffix (content (buffer (snd (clearBuffer (pending_env (blit "ef")) true w))))
               (blit "ab" ++ newline :: blit "cdef").
Proof.
  intros w. split; [|split].
  - apply (proj1 (proj2 (proj2 (consumer_leaves_suffix plain_env w))) true w eq_refl).
  - apply (proj2 (proj2 (proj2 (consumer_leaves_suffix plain_env w))) false w
                 eq_refl eq_refl).
  - apply (proj1 (proj2 (proj2 (consumer_leaves_suffix (pending_env (blit "ef")) w)))
                 true (put_content (blit "ab" ++ newline :: blit "cdef") w) eq_refl).
Defined.

(** C10, as worded, does not hold of [clearBuffer]: with the chunk
    [b"cd"] waiting in the event loop, [clearBuffer(True)] on [b"ab"]
    leaves [b"abcd"], which is no suffix of [b"ab"]: the refresh at the
    start of [clearBuffer] has added bytes to the buffer. *)
Lemma clearBuffer_not_suffix_of_previous :
  ~ is_suffix
      (content (buffer (snd (clearBuffer (pending_env (blit "cd")) true
                                         (world_with (blit "ab") 64)))))
      (content (buffer (world_with (blit "ab") 64))).
Proof.
  assert (Hc : content (buffer (snd (clearBuffer (pending_env (blit "cd")) true
                                                (world_with (blit "ab") 64))))
               = blit "abcd") by (vm_compute; reflexivity).
  rewrite Hc. intros [removed Heq].
  apply (f_equal (@length byte)) in Heq.
  rewrite length_app in Heq. cbn in Heq. lia.
Qed.

(** ** Writing *)

Lemma write_disconnected E data w :
  disconnected (buffer w) = true ->
  write E data w = (Return tt, emit (Printed port_closed_msg) w).
Proof. intros Hd. unfold write. run_py. rewrite Hd. reflexivity. Qed.

Lemma writeL_disconnected E s w :
  disconnected (buffer w) = true ->
  writeL E s w = (Return tt, emit (Printed port_closed_msg) w).
Proof. intros Hd. unfold writeL. run_py. rewrite Hd. reflexivity. Qed.

Lemma buffer_port_write_fails E data w p e :
  port (buffer w) = Some p ->
  env_write E (trace w) p data = Some e ->
  buffer_port_write E data w = (Raise e, emit (PortWrite p data) w).
Proof.
  intros Hp He. unfold buffer_port_write. run_py. rewrite Hp.
  unfold port_write. rewrite He. reflexivity.
Qed.

Lemma buffer_port_write_raises E data w e :
  fst (buffer_port_write E data w) = Raise e ->
  (port (buffer w) = None /\ e = AttributeError)
  \/ (exists p, port (buffer w) = Some p /\ env_write E (trace w) p data = Some e).
Proof.
  unfold buffer_port_write. run_py.
  destruct (port (buffer w)) as [p|].
  - unfold port_write. destruct (env_write E (trace w) p data) as [e'|] eqn:He.
    + cbn. intros [= <-]. right. exists p. split; [reflexivity | exact He].
    + cbn. discriminate.
  - cbn. intros [= <-]. left. split; reflexivity.
Qed.

Lemma write_io_failure E data w p e :
  disconnected (buffer w) = false ->
  port (buffer w) = Some p ->
  env_write E (trace w) p data = Some e ->
  isinstance_OSError e = true ->
  write E data w
  = (Return tt, emit (Printed write_error_msg) (emit (PortWrite p data) w)).
Proof.
  intros Hd Hp He Hio. unfold write. run_py. rewrite Hd.
  rewrite (buffer_port_write_fails E data w p e Hp He). rewrite Hio.
  reflexivity.
Qed.

Lemma writeL_io_failure E s data w p e :
  disconnected (buffer w) = false ->
  port (buffer w) = Some p ->
  encode (s ++ str nl) = Some data ->
  env_write E (trace w) p data = Some e ->
  isinstance_OSError e = true ->
  writeL E s w
  = (Return tt, emit (Printed write_error_msg) (emit (PortWrite p data) w)).
Proof.
  intros Hd Hp Hs He Hio. unfold writeL. run_py. rewrite Hd, Hp, Hs.
  unfold port_write. rewrite He. cbn. rewrite Hio. reflexivity.
Qed.

Lemma write_raises_no_OSError E data w e :
  fst (write E data w) = Raise e -> isinstance_OSError e = false.
Proof.
  unfold write. run_py. destruct (disconnected (buffer w)); [discriminate|].
  destruct (buffer_port_write E data w) as [[[]|e'|] w'] eqn:Hw;
    cbn; try discriminate.
  destruct (isinstance_OSError e') eqn:Hio; cbn; [discriminate|].
  intros [= <-]. exact Hio.
Qed.

Lemma writeL_raises_no_OSError E s w e :
  fst (writeL E s w) = Raise e -> isinstance_OSError e = false.
Proof.
  unfold writeL. run_py. destruct (disconnected (buffer w)); [discriminate|].
  destruct (port (buffer w)) as [p|].
  - destruct (encode (s ++ str nl)) as [data|].
    + destruct (port_write E p data w) as [[[]|e'|] w'] eqn:Hw;
        cbn; try discriminate.
      destruct (isinstance_OSError e') eqn:Hio; cbn; [discriminate|].
      intros [= <-]. exact Hio.
    + cbn. intros [= <-]. reflexivity.
  - cbn. intros [= <-]. reflexivity.
Qed.

(** C6. On a disconnected link [write] and [writeL] return normally; the
    world they leave differs from the one they found by the warning line
    only: nothing was handed to the transport, nothing else changed. On a
    connected link a transport write that fails with an [OSError] (which
    the serial exceptions are) is attempted, caught and answered with the
    warning line, and the call returns normally; no [OSError] ever leaves
    [write] or [writeL]. *)
Theorem write_guarded (E : Env) (w : World) :
  (disconnected (buffer w) = true ->
   forall data s,
     write E data w = (Return tt, emit (Printed port_closed_msg) w)
     /\ writeL E s w = (Return tt, emit (Printed port_closed_msg) w))
  /\ (disconnected (buffer w) = false ->
      forall p data e,
        port (buffer w) = Some p ->
        env_write E (trace w) p data = Some e ->
        isinstance_OSError e = true ->
        write E data w
        = (Return tt, emit (Printed write_error_msg) (emit (PortWrite p data) w))
        /\ (forall s,
               encode (s ++ str nl) = Some data ->
               writeL E s w
               = (Return tt,
                  emit (Printed write_error_msg) (emit (PortWrite p data) w))))
  /\ (forall data s e,
         fst (write E data w) = Raise e \/ fst (writeL E s w) = Raise e ->
         isinstance_OSError e = false).
Proof.
  split; [|split].
  - intros Hd data s. split.
    + apply write_disconnected. exact Hd.
    + apply writeL_disconnected. exact Hd.
  - intros Hd p data e Hp He Hio. split.
    + apply (write_io_failure E data w p e); assumption.
    + intros s Hs. apply (writeL_io_failure E s data w p e); assumption.
  - intros data s e [H|H].
    + apply (write_raises_no_OSError E data w e H).
    + apply (writeL_raises_no_OSError E s w e H).
Qed.

Lemma write_guarded_witness :
  let off := unplugged (world_with [] 64) in
  let on := world_with [] 64 in
  let p := mkPort "/dev/ttyUSB0" None in
  let E := write_fails_env SerialTimeoutException in
  (write plain_env (blit "go") off = (Return tt, emit (Printed port_closed_msg) off)
   /\ writeL plain_env (str "go") off
      = (Return tt, emit (Printed port_closed_msg) off))
  /\ (write E (blit "go" ++ [newline]) on
      = (Return tt,
         emit (Printed write_error_msg)
              (emit (PortWrite p (blit "go" ++ [newline])) on))
      /\ writeL E (str "go") on
         = (Return tt,
            emit (Printed write_error_msg)
                 (emit (PortWrite p (blit "go" ++ [newline])) on)))
  /\ isinstance_OSError UnicodeEncodeError = false.
Proof.
  intros off on p E. split; [|split].
  - apply (proj1 (write_guarded plain_env off) eq_refl (blit "go") (str "go")).
  - destruct (proj1 (proj2 (write_guarded E on)) eq_refl p (blit "go" ++ [newline])
                    SerialTimeoutException eq_refl eq_refl eq_refl) as [Hw HwL].
    split; [exact Hw | apply (HwL (str "go")); reflexivity].
  - apply (proj2 (proj2 (write_guarded plain_env on)) (blit "go") [55296%N]
                 UnicodeEncodeError).
    right. reflexivity.
Defined.

(** ** The configured terminator *)

Lemma readL_for_terminator (t : pyval) (indices : list nat) (w : World) :
  readL_for indices (with_terminator_world t w)
  = (fst (readL_for indices w),
     with_terminator_world t (snd (readL_for indices w))).
Proof.
  induction indices as [|i rest IH]; [reflexivity|].
  cbn [readL_for]. run_py. unfold getitem.
  cbn [with_terminator_world put_buffer with_terminator buffer content].
  destruct (nth_error (content (buffer w)) i) as [c|]; [|reflexivity].
  unfold ret. destruct (Byte.eqb c newline); [reflexivity | exact IH].
Qed.

Lemma writeL_terminator E (t : pyval) (s : pystr) (w : World) :
  writeL E s (with_terminator_world t w)
  = (fst (writeL E s w), with_terminator_world t (snd (writeL E s w))).
Proof.
  destruct w as [[p c sz d t0] h tr].
  unfold writeL, buffer_port_write, port_write, pln, emit,
    with_terminator_world, put_buffer, with_terminator.
  run_py. cbn [port content size disconnected terminator].
  destruct d; [reflexivity|].
  destruct p as [p|]; [|reflexivity].
  destruct (encode (s ++ str nl)) as [data|]; [|reflexivity].
  cbn [buffer handleData trace port content size disconnected terminator].
  destruct (env_write E tr p data) as [e|]; [|reflexivity].
  destruct (isinstance_OSError e); reflexivity.
Qed.

(** C4, the code against the claim. Whatever terminator the link was
    created with, [readL] and [writeL] behave as with any other: the
    value returned, the bytes left in the buffer and the bytes handed to
    the transport do not depend on it. On a link created with [b";"] and
    holding [b"ab;cd\nef"], [readL()] returns ["ab;cd"] and leaves
    [b"ef"], and [writeL("x")] writes [b"x\n"]: lines end at the line
    feed of the source text, not at the terminator of the constructor. *)
Theorem terminator_not_consulted :
  (forall E t s w,
      readL (with_terminator_world t w)
      = (fst (readL w), with_terminator_world t (snd (readL w)))
      /\ writeL E s (with_terminator_world t w)
         = (fst (writeL E s w), with_terminator_world t (snd (writeL E s w))))
  /\ semicolon_session World_initial
     = (Return (PyStr (str "ab;cd")),
        {| buffer := {| port := Some (mkPort "/dev/ttyUSB0" None);
                        content := blit "ef";
                        size := 4096;
                        disconnected := false;
                        terminator := PyBytes (blit ";") |};
           handleData := dummy;
           trace := [SerialOpen "/dev/ttyUSB0" None;
                     ReaderStart (Some (mkPort "/dev/ttyUSB0" None));
                     PortWrite (mkPort "/dev/ttyUSB0" None)
                               (blit "x" ++ [newline])] |}).
Proof.
  split.
  - intros E t s w. split.
    + unfold readL. run_py. apply readL_for_terminator.
    + apply writeL_terminator.
  - vm_compute. reflexivity.
Qed.

(** ** Opening a port *)

Lemma bind_assoc {A B C : Type} (m : Py A) (f : A -> Py B) (g : B -> Py C) w :
  bind (bind m f) g w = bind m (fun a => bind (f a) g) w.
Proof. unfold bind. destruct (m w) as [[a|e|] w']; reflexivity. Qed.

Lemma bind_congr {A B : Type} (m : Py A) (f g : A -> Py B) w :
  (forall a w', f a w' = g a w') -> bind m f w = bind m g w.
Proof.
  intros Hfg. unfold bind. destruct (m w) as [[a|e|] w']; [apply Hfg | reflexivity..].
Qed.

Lemma try_except_congr {A : Type} (m1 m2 : Py A) classes handle w :
  m1 w = m2 w -> try_except m1 classes handle w = try_except m2 classes handle w.
Proof. intros H. unfold try_except. rewrite H. reflexivity. Qed.

Lemma skipn_nth_error {A : Type} (l : list A) (n : nat) :
  (n < length l)%nat ->
  exists x, nth_error l n = Some x /\ skipn n l = x :: skipn (S n) l.
Proof.
  revert n. induction l as [|a l IH]; intros n Hn; [simpl in Hn; lia|].
  destruct n as [|n].
  - exists a. split; reflexivity.
  - destruct (IH n) as [x [Hx Hs]]; [simpl in Hn; lia|].
    exists x. split; [exact Hx | exact Hs].
Qed.

Lemma serPort_while_done E fuel ports command question answer portNum port w :
  serPort_while E fuel ports command question answer true portNum port w
  = (Return (true, port), w).
Proof. destruct fuel; reflexivity. Qed.

(** The loop of [serPort] from index [portNum], followed by the rest of
    the "Auto" branch, against the recursion over the candidates. *)
Lemma serPort_while_refines E ports command question answer final :
  forall fuel portNum port w,
    (portNum <= length ports)%nat ->
    (length ports - portNum <= fuel)%nat ->
    bind (serPort_while E fuel ports command question answer false portNum port)
         (fun r =>
            let '(correctPort, port) := r in
            (if negb correctPort then raise SerialDisconnect else ret tt) ;;
            match port with
            | Some p =>
                match final with
                | Some f => (port_write E p f ;; _ <- port_readline E p ;; ret tt)
                | None => ret tt
                end ;;
                ret p
            | None => raise NameError
            end) w
    = bind (Open_candidates E command question answer (skipn portNum ports))
           (fun p => write_discard_line E p final ;; ret p) w.
Proof.
  induction fuel as [|fuel IH]; intros portNum port w Hle Hfuel.
  - assert (portNum = length ports) as -> by lia.
    rewrite skipn_all. cbn [serPort_while negb andb].
    rewrite Nat.ltb_irrefl. reflexivity.
  - cbn [serPort_while negb andb].
    destruct (Nat.ltb_spec portNum (length ports)) as [Hlt|Hge].
    + destruct (skipn_nth_error ports portNum Hlt) as [dev [Hnth Hskip]].
      rewrite Hskip. cbn [Open_candidates].
      unfold getitem. rewrite Hnth.
      rewrite !bind_assoc. unfold bind at 1. unfold ret at 1.
      rewrite !bind_assoc. apply bind_congr. intros p w1.
      rewrite !bind_assoc. apply bind_congr. intros [] w2.
      rewrite !bind_assoc. apply bind_congr. intros selected w3.
      destruct selected.
      * unfold bind at 1. rewrite serPort_while_done. reflexivity.
      * rewrite Nat.add_1_r. apply IH; lia.
    + assert (portNum = length ports) as -> by lia.
      rewrite skipn_all. reflexivity.
Qed.

Lemma serPort_refines_Open_auto E command question answer final w :
  serPort E "Auto" command question answer final w
  = Open_auto E command question answer final w.
Proof.
  unfold serPort, Open_auto. cbn [String.eqb Ascii.eqb Bool.eqb].
  apply try_except_congr. apply bind_congr. intros ports w1.
  destruct (Nat.ltb_spec 1 (length ports)) as [H1|H1];
    destruct (Nat.ltb_spec (length ports) 2) as [H2|H2]; try lia.
  - apply serPort_while_refines; lia.
  - reflexivity.
Qed.

Lemma terminates_ret {A : Type} (a : A) : terminates (ret a).
Proof. intros w. discriminate. Qed.

Lemma terminates_raise {A : Type} (e : exn) : terminates (@raise A e).
Proof. intros w. discriminate. Qed.

Lemma terminates_bind {A B : Type} (m : Py A) (f : A -> Py B) :
  terminates m -> (forall a, terminates (f a)) -> terminates (bind m f).
Proof.
  intros Hm Hf w. unfold bind. specialize (Hm w).
  destruct (m w) as [[a|e|] w']; [apply Hf | discriminate | ].
  exfalso. apply Hm. reflexivity.
Qed.

Lemma terminates_try_except {A : Type} (m : Py A) classes handle :
  terminates m -> terminates handle -> terminates (try_except m classes handle).
Proof.
  intros Hm Hh w. unfold try_except. specialize (Hm w).
  destruct (m w) as [[a|e|] w']; [discriminate | | exact Hm].
  destruct (classes e); [apply Hh | discriminate].
Qed.

Lemma terminates_serial_Serial E name timeout :
  terminates (serial_Serial E name timeout).
Proof.
  intros w. unfold serial_Serial. destruct (env_open E (trace w) name); discriminate.
Qed.

Lemma terminates_port_write E p data : terminates (port_write E p data).
Proof.
  intros w. unfold port_write. destruct (env_write E (trace w) p data); discriminate.
Qed.

Lemma terminates_port_readline E p : terminates (port_readline E p).
Proof.
  intros w. unfold port_readline. destruct (env_readline E (trace w) p); discriminate.
Qed.

Lemma terminates_write_discard_line E p cmd :
  terminates (write_discard_line E p cmd).
Proof.
  destruct cmd as [c|]; cbn [write_discard_line]; [|apply terminates_ret].
  apply terminates_bind; [apply terminates_port_write|]. intros _.
  apply terminates_bind; [apply terminates_port_readline|]. intros _.
  apply terminates_ret.
Qed.

Lemma terminates_Open_candidates E command question answer candidates :
  terminates (Open_candidates E command question answer candidates).
Proof.
  induction candidates as [|dev rest IH]; cbn [Open_candidates].
  - apply terminates_raise.
  - apply terminates_bind; [apply terminates_serial_Serial|]. intros p.
    apply terminates_bind; [apply terminates_write_discard_line|]. intros _.
    apply terminates_bind.
    + unfold probe_matches. destruct question as [q|]; [|apply terminates_ret].
      apply terminates_bind; [apply terminates_port_write|]. intros _.
      apply terminates_bind; [apply terminates_port_readline|]. intros r.
      apply terminates_ret.
    + intros [|]; [apply terminates_ret | exact IH].
Qed.

Lemma terminates_Open_auto E command question answer final :
  terminates (Open_auto E command question answer final).
Proof.
  unfold Open_auto. apply terminates_try_except.
  - apply terminates_bind; [intros w; discriminate|]. intros devices.
    destruct (length devices <? 2)%nat; [apply terminates_raise|].
    apply terminates_bind; [apply terminates_Open_candidates|]. intros p.
    apply terminates_bind; [apply terminates_write_discard_line|]. intros _.
    apply terminates_ret.
  - apply terminates_bind; [intros w; discriminate|]. intros _.
    apply terminates_raise.
Qed.

Lemma Open_auto_raises E command question answer final w e :
  fst (Open_auto E command question answer final w) = Raise e ->
  isinstance_SerialException e = false.
Proof.
  unfold Open_auto, try_except.
  match goal with |- context [bind ?m ?f w] => destruct (bind m f w) as [[p|e'|] w'] end;
    cbn [fst]; try discriminate.
  destruct (isinstance_SerialException e') eqn:Hse; cbn [orb].
  - unfold pln, bind, raise. cbn. intros [= <-]. reflexivity.
  - destruct (isinstance_SerialDisconnect e'); cbn.
    + intros [= <-]. reflexivity.
    + intros [= <-]. exact Hse.
Qed.

Lemma Open_auto_too_few E command question answer final w :
  (length (env_comports E (trace w)) < 2)%nat ->
  Open_auto E command question answer final w
  = (Raise NoDeviceFound, emit (Printed could_not_open) (emit Comports w)).
Proof.
  intros Hfew. unfold Open_auto, try_except, bind, comports.
  destruct (Nat.ltb_spec (length (env_comports E (trace w))) 2); [|lia].
  reflexivity.
Qed.

Lemma Open_auto_open_fails E command question answer final w dev e :
  nth_error (env_comports E (trace w)) 1 = Some dev ->
  env_open E (trace (emit Comports w)) (prefix E ++ dev)%string = Some e ->
  isinstance_SerialException e = true ->
  Open_auto E command question answer final w
  = (Raise NoDeviceFound,
     emit (Printed could_not_open)
          (emit (SerialOpen (prefix E ++ dev)%string (Some 2)) (emit Comports w))).
Proof.
  intros Hdev Hopen Hse. unfold Open_auto, try_except, bind, comports.
  destruct (env_comports E (trace w)) as [|d0 [|d1 rest]]; try discriminate.
  injection Hdev as ->. cbn [length Nat.ltb Nat.leb skipn Open_candidates].
  unfold bind, serial_Serial. rewrite Hopen. rewrite Hse. reflexivity.
Qed.

Lemma Open_auto_no_probe E answer w dev :
  nth_error (env_comports E (trace w)) 1 = Some dev ->
  env_open E (trace (emit Comports w)) (prefix E ++ dev)%string = None ->
  Open_auto E None None answer None w
  = (Return (mkPort (prefix E ++ dev)%string (Some 2)),
     emit (SerialOpen (prefix E ++ dev)%string (Some 2)) (emit Comports w)).
Proof.
  intros Hdev Hopen. unfold Open_auto, try_except, bind, comports.
  destruct (env_comports E (trace w)) as [|d0 [|d1 rest]]; try discriminate.
  injection Hdev as ->. cbn [length Nat.ltb Nat.leb skipn Open_candidates].
  unfold bind, serial_Serial. rewrite Hopen. reflexivity.
Qed.

(** A run on three devices: the candidate at index 1 is opened and
    probed and does not match, the one at index 2 matches and is
    selected, and the final command goes to it. *)
Example serPort_selects_matching_device :
  serPort lab_env "Auto" None (Some (blit "ID?")) (Some (blit "scope"))
          (Some (blit "GO")) World_initial
  = (Return (mkPort "/dev/ttyUSB1" (Some 2)),
     {| buffer := Buffer_initial;
        handleData := dummy;
        trace := [Comports;
                  SerialOpen "/dev/ttyUSB0" (Some 2);
                  PortWrite (mkPort "/dev/ttyUSB0" (Some 2)) (blit "ID?");
                  PortReadline (mkPort "/dev/ttyUSB0" (Some 2));
                  SerialOpen "/dev/ttyUSB1" (Some 2);
                  PortWrite (mkPort "/dev/ttyUSB1" (Some 2)) (blit "ID?");
                  PortReadline (mkPort "/dev/ttyUSB1" (Some 2));
                  PortWrite (mkPort "/dev/ttyUSB1" (Some 2)) (blit "GO");
                  PortReadline (mkPort "/dev/ttyUSB1" (Some 2))] |}).
Proof. vm_compute. reflexivity. Qed.

Lemma bytes_eqb_refl (x : bytes) : bytes_eqb x x = true.
Proof.
  induction x as [|c x IH]; [reflexivity|]. cbn.
  assert (Hc : Byte.eqb c c = true) by (apply Byte.byte_dec_lb; reflexivity).
  rewrite Hc. exact IH.
Qed.

Lemma bytes_eqb_eq (x y : bytes) : bytes_eqb x y = true -> x = y.
Proof.
  revert y. induction x as [|c x IH]; intros [|c' y] H; try discriminate H.
  - reflexivity.
  - cbn in H. apply andb_prop in H. destruct H as [Hc Hx].
    apply Byte.byte_dec_bl in Hc. subst c'. f_equal. apply IH. exact Hx.
Qed.

Lemma bytes_eqb_neq (x y : bytes) : x <> y -> bytes_eqb x y = false.
Proof.
  intros Hne. destruct (bytes_eqb x y) eqn:H; [|reflexivity].
  apply bytes_eqb_eq in H. contradiction.
Qed.

(** *** A transport that answers steadily

    The devices listed do not change, every port opens, every write
    succeeds and the line a port answers with depends on the port only. *)
Section Steady.

Variable E : Env.
Variable devices : list string.
Variable answers : Port -> bytes.
Hypothesis Hdevices : forall t, env_comports E t = devices.
Hypothesis Hopen : forall t name, env_open E t name = None.
Hypothesis Hwrite : forall t p data, env_write E t p data = None.
Hypothesis Hreadline : forall t p, env_readline E t p = inl (answers p).

Lemma write_discard_line_steady p cmd w :
  write_discard_line E p cmd w = (Return tt, emit_all (exchange p cmd) w).
Proof.
  destruct cmd as [c|]; cbn [write_discard_line exchange].
  - unfold bind, port_write, port_readline, ret. rewrite Hwrite, Hreadline.
    unfold emit_all, emit. cbn. rewrite <- app_assoc. reflexivity.
  - unfold ret. rewrite emit_all_nil. reflexivity.
Qed.

Lemma probe_matches_steady q a p w :
  probe_matches E (Some q) (Some a) p w
  = (Return (bytes_eqb (answers p) a), emit_all (exchange p (Some q)) w).
Proof.
  unfold probe_matches, bind, port_write, port_readline, ret.
  rewrite Hwrite, Hreadline. unfold emit_all, emit. cbn.
  rewrite <- app_assoc. reflexivity.
Qed.

Lemma Open_candidates_step command q a dev rest w :
  Open_candidates E command (Some q) (Some a) (dev :: rest) w
  = (if bytes_eqb (answers (candidate E dev)) a
     then (Return (candidate E dev),
           emit_all (visit command (Some q) (candidate E dev)) w)
     else Open_candidates E command (Some q) (Some a) rest
            (emit_all (visit command (Some q) (candidate E dev)) w)).
Proof.
  cbn [Open_candidates]. unfold bind at 1. unfold serial_Serial.
  rewrite Hopen. fold (candidate E dev). unfold bind at 1.
  rewrite write_discard_line_steady. unfold bind at 1.
  rewrite probe_matches_steady.
  rewrite emit_all_app, emit_all_emit.
  change (SerialOpen (prefix E ++ dev) (Some 2)
          :: exchange (candidate E dev) command
             ++ exchange (candidate E dev) (Some q))
    with (visit command (Some q) (candidate E dev)).
  destruct (bytes_eqb (answers (candidate E dev)) a); reflexivity.
Qed.

Lemma Open_candidates_selects command q a :
  forall cands missed hit later w,
    map (candidate E) cands = missed ++ hit :: later ->
    (forall p, In p missed -> answers p <> a) ->
    answers hit = a ->
    Open_candidates E command (Some q) (Some a) cands w
    = (Return hit,
       emit_all (concat (map (visit command (Some q)) missed)
                 ++ visit command (Some q) hit) w).
Proof.
  induction cands as [|dev rest IH]; intros missed hit later w Hmap Hmiss Hhit.
  - destruct missed; discriminate Hmap.
  - rewrite (Open_candidates_step command q a).
    destruct missed as [|m missed'].
    + cbn in Hmap. injection Hmap as Hdev Hrest. rewrite Hdev.
      rewrite Hhit, bytes_eqb_refl. reflexivity.
    + cbn in Hmap. injection Hmap as Hdev Hrest. rewrite Hdev.
      rewrite bytes_eqb_neq by (apply Hmiss; left; reflexivity).
      rewrite (IH missed' hit later _ Hrest).
      * rewrite emit_all_app. cbn [map concat]. rewrite <- app_assoc.
        reflexivity.
      * intros p Hp. apply Hmiss. right. exact Hp.
      * exact Hhit.
Qed.

Lemma Open_candidates_none command q a :
  forall cands w,
    (forall p, In p (map (candidate E) cands) -> answers p <> a) ->
    Open_candidates E command (Some q) (Some a) cands w
    = (Raise NoDeviceFound,
       emit_all (concat (map (visit command (Some q))
                             (map (candidate E) cands))) w).
Proof.
  induction cands as [|dev rest IH]; intros w Hno.
  - cbn. unfold raise. rewrite emit_all_nil. reflexivity.
  - rewrite (Open_candidates_step command q a).
    rewrite bytes_eqb_neq by (apply Hno; left; reflexivity).
    rewrite IH by (intros p Hp; apply Hno; right; exact Hp).
    rewrite emit_all_app. reflexivity.
Qed.

Lemma Open_auto_selects command q a final missed hit later w :
  map (candidate E) (skipn 1 devices) = missed ++ hit :: later ->
  (forall p, In p missed -> answers p <> a) ->
  answers hit = a ->
  Open_auto E command (Some q) (Some a) final w
  = (Return hit,
     emit_all (Comports
               :: concat (map (visit command (Some q)) missed)
                  ++ visit command (Some q) hit ++ exchange hit final) w).
Proof.
  intros Hmap Hmiss Hhit. unfold Open_auto, try_except.
  unfold bind at 1. unfold comports. rewrite Hdevices.
  destruct (Nat.ltb_spec (length devices) 2) as [Hfew|Hmany].
  - destruct devices as [|d0 [|d1 rest]]; cbn in Hfew; try lia;
      cbn in Hmap; destruct missed; discriminate Hmap.
  - unfold bind at 1.
    rewrite (Open_candidates_selects command q a _ missed hit later _
                                     Hmap Hmiss Hhit).
    unfold bind. rewrite write_discard_line_steady. unfold ret.
    rewrite !emit_all_app, emit_all_emit. rewrite <- app_assoc.
    reflexivity.
Qed.

Lemma Open_auto_none command q a final w :
  (forall p, In p (map (candidate E) (skipn 1 devices)) -> answers p <> a) ->
  Open_auto E command (Some q) (Some a) final w
  = (Raise NoDeviceFound,
     emit_all (Comports
               :: concat (map (visit command (Some q))
                              (map (candidate E) (skipn 1 devices)))
                  ++ [Printed could_not_open]) w).
Proof.
  intros Hno. unfold Open_auto, try_except.
  unfold bind at 1. unfold comports. rewrite Hdevices.
  destruct (Nat.ltb_spec (length devices) 2) as [Hfew|Hmany].
  - assert (Hskip : skipn 1 devices = []).
    { destruct devices as [|d0 [|d1 rest]]; cbn in Hfew; try lia; reflexivity. }
    rewrite Hskip. unfold raise, pln, bind. cbn.
    unfold emit_all, emit. cbn. rewrite <- app_assoc. reflexivity.
  - unfold bind at 1. rewrite (Open_candidates_none command q a _ _ Hno).
    unfold NoDeviceFound. cbn. unfold pln, bind, raise.
    rewrite emit_emit_all, emit_all_emit. reflexivity.
Qed.

End Steady.

(** C7. [serPort("Auto", ...)] is the operation [Open_auto]: with fewer
    than two devices it fails with [SerialDisconnect] (NoDeviceFound)
    without opening anything; otherwise the candidates from index 1 on
    are opened in turn with timeout 2, given the initial command (one
    line of response discarded) and the probe, and the first whose
    answer is the expected one (the first opened, without a probe) is
    selected and given the final command (one line discarded); with no
    match it fails with NoDeviceFound. The loop always ends. A failure
    of the transport to open a candidate is reported as NoDeviceFound,
    and no serial exception leaves the function. On a transport that
    answers steadily the calls are given one by one: with the candidates
    [missed ++ hit :: later], where no port of [missed] answers the
    probe with the expected line and [hit] does, every port of [missed]
    is visited in turn, then [hit], which gets the final command and is
    returned, and no port of [later] is touched; when no candidate
    answers with the expected line all are visited and the call fails. *)
Theorem serPort_auto (E : Env) (command question answer final : option bytes)
    (w : World) :
  serPort E "Auto" command question answer final w
  = Open_auto E command question answer final w
  /\ fst (serPort E "Auto" command question answer final w) <> OutOfFuel
  /\ ((length (env_comports E (trace w)) < 2)%nat ->
      serPort E "Auto" command question answer final w
      = (Raise SerialDisconnect, emit (Printed could_not_open) (emit Comports w)))
  /\ (forall dev e,
         nth_error (env_comports E (trace w)) 1 = Some dev ->
         env_open E (trace (emit Comports w)) (prefix E ++ dev)%string = Some e ->
         isinstance_SerialException e = true ->
         serPort E "Auto" command question answer final w
         = (Raise SerialDisconnect,
            emit (Printed could_not_open)
                 (emit (SerialOpen (prefix E ++ dev)%string (Some 2))
                       (emit Comports w))))
  /\ (forall e,
         fst (serPort E "Auto" command question answer final w) = Raise e ->
         isinstance_SerialException e = false)
  /\ (command = None -> question = None -> final = None ->
      forall dev,
        nth_error (env_comports E (trace w)) 1 = Some dev ->
        env_open E (trace (emit Comports w)) (prefix E ++ dev)%string = None ->
        serPort E "Auto" command question answer final w
        = (Return (mkPort (prefix E ++ dev)%string (Some 2)),
           emit (SerialOpen (prefix E ++ dev)%string (Some 2)) (emit Comports w)))
  /\ (forall devices answers q a,
        (forall t, env_comports E t = devices) ->
        (forall t name, env_open E t name = None) ->
        (forall t p data, env_write E t p data = None) ->
        (forall t p, env_readline E t p = inl (answers p)) ->
        question = Some q ->
        answer = Some a ->
        (forall missed hit later,
            map (candidate E) (skipn 1 devices) = missed ++ hit :: later ->
            (forall p, In p missed -> answers p <> a) ->
            answers hit = a ->
            serPort E "Auto" command question answer final w
            = (Return hit,
               emit_all (Comports
                         :: concat (map (visit command question) missed)
                            ++ visit command question hit
                            ++ exchange hit final) w))
        /\ ((forall p, In p (map (candidate E) (skipn 1 devices)) ->
                       answers p <> a) ->
            serPort E "Auto" command question answer final w
            = (Raise SerialDisconnect,
               emit_all (Comports
                         :: concat (map (visit command question)
                                        (map (candidate E) (skipn 1 devices)))
                            ++ [Printed could_not_open]) w))).
Proof.
  rewrite serPort_refines_Open_auto.
  split; [reflexivity|].
  split; [apply terminates_Open_auto|].
  split; [apply Open_auto_too_few|].
  split; [intros dev e; apply Open_auto_open_fails|].
  split; [intros e; apply Open_auto_raises|].
  split; [intros -> -> -> dev; apply Open_auto_no_probe|].
  intros devices answers q a Hdev Hopen Hwrite Hread -> ->. split.
  - intros missed hit later.
    apply (Open_auto_selects E devices answers Hdev Hopen Hwrite Hread).
  - apply (Open_auto_none E devices answers Hdev Hopen Hwrite Hread).
Qed.

Lemma serPort_auto_witness :
  let alone := host_env ["ttyS0"]%string (fun _ => None) (fun _ => []) in
  let stuck := host_env ["ttyS0"; "ttyUSB0"]%string
                        (fun _ => Some SerialException) (fun _ => []) in
  let usb0 := mkPort "/dev/ttyUSB0" (Some 2) in
  let usb1 := mkPort "/dev/ttyUSB1" (Some 2) in
  serPort alone "Auto" None None None None World_initial
  = (Raise SerialDisconnect,
     emit (Printed could_not_open) (emit Comports World_initial))
  /\ serPort stuck "Auto" None None None None World_initial
     = (Raise SerialDisconnect,
        emit (Printed could_not_open)
             (emit (SerialOpen "/dev/ttyUSB0" (Some 2))
                   (emit Comports World_initial)))
  /\ isinstance_SerialException SerialDisconnect = false
  /\ serPort plain_env "Auto" None None None None World_initial
     = (Return (mkPort "/dev/ttyUSB0" (Some 2)),
        emit (SerialOpen "/dev/ttyUSB0" (Some 2)) (emit Comports World_initial))
  /\ serPort lab_env "Auto" (Some (blit "RST")) (Some (blit "ID?"))
             (Some (blit "scope")) (Some (blit "GO")) World_initial
     = (Return usb1,
        emit_all [Comports;
                  SerialOpen "/dev/ttyUSB0" (Some 2);
                  PortWrite usb0 (blit "RST"); PortReadline usb0;
                  PortWrite usb0 (blit "ID?"); PortReadline usb0;
                  SerialOpen "/dev/ttyUSB1" (Some 2);
                  PortWrite usb1 (blit "RST"); PortReadline usb1;
                  PortWrite usb1 (blit "ID?"); PortReadline usb1;
                  PortWrite usb1 (blit "GO"); PortReadline usb1]
                 World_initial)
  /\ serPort lab_env "Auto" None (Some (blit "ID?"))
             (Some (blit "plotter")) (Some (blit "GO")) World_initial
     = (Raise SerialDisconnect,
        emit_all [Comports;
                  SerialOpen "/dev/ttyUSB0" (Some 2);
                  PortWrite usb0 (blit "ID?"); PortReadline usb0;
                  SerialOpen "/dev/ttyUSB1" (Some 2);
                  PortWrite usb1 (blit "ID?"); PortReadline usb1;
                  Printed could_not_open]
                 World_initial).
Proof.
  intros alone stuck usb0 usb1. split; [|split; [|split; [|split; [|split]]]].
  - apply (proj1 (proj2 (proj2 (serPort_auto alone None None None None
                                             World_initial)))).
    vm_compute. reflexivity.
  - apply (proj1 (proj2 (proj2 (proj2 (serPort_auto stuck None None None None
                                                    World_initial))))
                 "ttyUSB0"%string SerialException eq_refl eq_refl eq_refl).
  - apply (proj1 (proj2 (proj2 (proj2 (proj2
             (serPort_auto stuck None None None None World_initial)))))
                 SerialDisconnect).
    reflexivity.
  - apply (proj1 (proj2 (proj2 (proj2 (proj2 (proj2
             (serPort_auto plain_env None None None None World_initial))))))
                 eq_refl eq_refl eq_refl "ttyUSB0"%string eq_refl eq_refl).
  - apply (proj1 (proj2 (proj2 (proj2 (proj2 (proj2 (proj2
             (serPort_auto lab_env (Some (blit "RST")) (Some (blit "ID?"))
                           (Some (blit "scope")) (Some (blit "GO"))
                           World_initial))))))
             ["ttyS0"; "ttyUSB0"; "ttyUSB1"]%string
             (fun p => if String.eqb (port_name p) "/dev/ttyUSB1"
                       then blit "scope" else blit "meter")
             (blit "ID?") (blit "scope")
             (fun _ => eq_refl) (fun _ _ => eq_refl) (fun _ _ _ => eq_refl)
             (fun _ _ => eq_refl) eq_refl eq_refl)
             [usb0] usb1 [] eq_refl).
    + intros p [<-|[]]. vm_compute. discriminate.
    + reflexivity.
  - apply (proj2 (proj2 (proj2 (proj2 (proj2 (proj2 (proj2
             (serPort_auto lab_env None (Some (blit "ID?"))
                           (Some (blit "plotter")) (Some (blit "GO"))
                           World_initial))))))
             ["ttyS0"; "ttyUSB0"; "ttyUSB1"]%string
             (fun p => if String.eqb (port_name p) "/dev/ttyUSB1"
                       then blit "scope" else blit "meter")
             (blit "ID?") (blit "plotter")
             (fun _ => eq_refl) (fun _ _ => eq_refl) (fun _ _ _ => eq_refl)
             (fun _ _ => eq_refl) eq_refl eq_refl)).
    intros p [<-|[<-|[]]]; vm_compute; discriminate.
Defined.

(** ** Reconnecting *)

(** With fewer than two devices an attempt changes nothing and is
    scheduled again. *)
Lemma reopen_rescheduled E w :
  (length (env_comports E (trace w)) < 2)%nat ->
  reopen E w = (Return tt, emit (After 1 cb_reopen) (emit Comports w)).
Proof.
  intros Hfew. unfold reopen, try_except, bind, comports.
  destruct (Nat.ltb_spec 1 (length (env_comports E (trace w)))); [lia|].
  reflexivity.
Qed.

(** With two devices or more the attempt reaches the call [Serial(...)],
    a name the module does not bind. *)
Lemma reopen_NameError E w :
  global_Serial E = false ->
  (2 <= length (env_comports E (trace w)))%nat ->
  reopen E w = (Raise NameError, emit Comports w).
Proof.
  intros Hunbound Hdev. unfold reopen, try_except, bind, comports.
  destruct (Nat.ltb_spec 1 (length (env_comports E (trace w)))); [|lia].
  rewrite Hunbound. reflexivity.
Qed.

(** Where [Serial] is bound and the device at index 1 opens, the attempt
    rebinds the port, marks the link connected and starts a reader. *)
Lemma reopen_succeeds E w dev :
  global_Serial E = true ->
  nth_error (env_comports E (trace w)) 1 = Some dev ->
  env_open E (trace (emit Comports w)) ("/dev/" ++ dev)%string = None ->
  reopen E w
  = (Return tt,
     emit (ReaderStart (Some (mkPort ("/dev/" ++ dev)%string None)))
          (put_buffer
             (with_disconnected false
                (with_port (Some (mkPort ("/dev/" ++ dev)%string None)) (buffer w)))
             (emit (SerialOpen ("/dev/" ++ dev)%string None) (emit Comports w)))).
Proof.
  intros Hbound Hdev Hopen. unfold reopen, try_except, bind, comports.
  destruct (env_comports E (trace w)) as [|d0 [|d1 rest]] eqn:Hports;
    try discriminate.
  injection Hdev as ->. cbn [length Nat.ltb Nat.leb]. rewrite Hbound.
  unfold getitem. cbn [nth_error]. unfold ret at 1 2. unfold serial_Serial.
  rewrite Hopen. reflexivity.
Qed.

(** C8, the code against the claim. A connected link loses its
    connection while the host lists two devices. In the module as it is
    written the reconnect attempt raises [NameError] at [Serial(...)]:
    the port is not rebound, no reader is started, nothing is scheduled,
    and the exception leaves [connection_lost] before the link is marked
    disconnected. Where the application has bound [Serial], the attempt
    made inside [connection_lost] succeeds (port rebound, reader
    started) and [connection_lost] then marks the link disconnected:
    [disconnected()] answers [True] after the successful attempt. With a
    single device the attempt is scheduled again and the link is marked
    disconnected. *)
Theorem connection_lost_runs :
  connection_lost plain_env (world_with [] 4096)
  = (Raise NameError,
     {| buffer := buffer (world_with [] 4096);
        handleData := dummy;
        trace := [Printed "Serial port disconnected. Trying to reconnect...";
                  Comports] |})
  /\ lost_then_asked Serial_bound_env (world_with [] 4096)
     = (Return true,
        {| buffer := {| port := Some (mkPort "/dev/ttyUSB0" None);
                        content := [];
                        size := 4096;
                        disconnected := true;
                        terminator := PyStr (str nl) |};
           handleData := dummy;
           trace := [Printed "Serial port disconnected. Trying to reconnect...";
                     Comports;
                     SerialOpen "/dev/ttyUSB0" None;
                     ReaderStart (Some (mkPort "/dev/ttyUSB0" None))] |})
  /\ lost_then_asked (host_env ["ttyS0"]%string (fun _ => None) (fun _ => []))
                     (world_with [] 4096)
     = (Return true,
        {| buffer := buffer (unplugged (world_with [] 4096));
           handleData := dummy;
           trace := [Printed "Serial port disconnected. Trying to reconnect...";
                     Comports;
                     After 1 cb_reopen] |}).
Proof. vm_compute. repeat split; reflexivity. Qed.

(** * Further properties of the serial link *)

(** ** [readB] with any integer *)

Lemma slice_from_start {A : Type} (s : list A) (n : Z) :
  slice s 0 n = firstn (Z.to_nat (adjust_index n (len s))) s.
Proof.
  unfold slice. fold (len s).
  assert (H0 : adjust_index 0 (len s) = 0).
  { unfold adjust_index. pose proof (len_nonneg s).
    change (0 <? 0) with false. cbv iota.
    destruct (Z.ltb_spec (len s) 0); [lia | reflexivity]. }
  rewrite H0, Z.sub_0_r. reflexivity.
Qed.

Lemma adjust_index_negative (n l : Z) :
  n < 0 -> 0 <= l -> adjust_index n l = Z.max 0 (l + n).
Proof.
  intros Hn Hl. unfold adjust_index.
  destruct (Z.ltb_spec n 0); [|lia].
  destruct (Z.ltb_spec (n + l) 0); lia.
Qed.

Lemma readB_cut (n : Z) (w : World) :
  n <= len (content (buffer w)) ->
  readB n w
  = (Return (PyBytes (firstn (Z.to_nat (adjust_index n (len (content (buffer w)))))
                             (content (buffer w)))),
     put_content (skipn (Z.to_nat (adjust_index n (len (content (buffer w)))))
                        (content (buffer w))) w).
Proof.
  intros Hle. unfold readB. run_py.
  destruct (Z.ltb_spec (len (content (buffer w))) n); [lia|].
  rewrite slice_from_start, slice_to_end. reflexivity.
Qed.

(** X1. [readB(n)] for any integer [n]: when the buffer is shorter than
    [n] the answer is "not enough data" and nothing changes; otherwise
    the buffer is cut in two at Python's adjusted index and the first
    part is returned while the second stays, so that no byte is lost.
    [readB(0)] therefore returns [b""] and changes nothing, and a
    negative [n] returns all but the last [-n] bytes and keeps those. *)
Theorem readB_any_integer (n : Z) (w : World) :
  let c := content (buffer w) in
  let k := Z.to_nat (adjust_index n (len c)) in
  (len c < n -> readB n w = (Return not_enough_data, w))
  /\ (n <= len c ->
      readB n w = (Return (PyBytes (firstn k c)), put_content (skipn k c) w)
      /\ firstn k c ++ skipn k c = c)
  /\ (n = 0 -> readB n w = (Return (PyBytes []), put_content c w))
  /\ (n < 0 -> k = Z.to_nat (len c + n)).
Proof.
  intros c k. split; [apply readB_short|]. split; [|split].
  - intros Hle. split; [apply readB_cut; exact Hle | apply firstn_skipn].
  - intros ->. unfold readB. run_py. fold c. pose proof (len_nonneg c).
    destruct (Z.ltb_spec (len c) 0); [lia|].
    rewrite slice_from_start, slice_to_end.
    unfold adjust_index. change (0 <? 0) with false. cbv iota.
    destruct (Z.ltb_spec (len c) 0); [lia|]. reflexivity.
  - intros Hneg. unfold k. rewrite adjust_index_negative.
    + destruct (Z.max_spec 0 (len c + n)) as [[_ ->]|[Hle ->]];
        [reflexivity|].
      rewrite Z2Nat.inj_0. symmetry.
      destruct (len c + n) eqn:Hs; try reflexivity. lia.
    + exact Hneg.
    + apply len_nonneg.
Qed.

Lemma readB_any_integer_witness :
  let w := world_with (blit "abcde") 8 in
  readB 9 w = (Return not_enough_data, w)
  /\ readB (-2) w = (Return (PyBytes (blit "abc")), put_content (blit "de") w)
  /\ readB 0 w = (Return (PyBytes []), put_content (blit "abcde") w)
  /\ Z.to_nat (adjust_index (-2) 5) = 3%nat.
Proof.
  intros w. split; [|split; [|split]].
  - apply (proj1 (readB_any_integer 9 w)). vm_compute. reflexivity.
  - apply (proj1 (proj2 (readB_any_integer (-2) w))). vm_compute. discriminate.
  - apply (proj1 (proj2 (proj2 (readB_any_integer 0 w)))). reflexivity.
  - apply (proj2 (proj2 (proj2 (readB_any_integer (-2) w)))). reflexivity.
Defined.

(** ** Chunks stored and read back *)

Lemma put_content_same w : put_content (content (buffer w)) w = w.
Proof. destruct w as [[p c sz d t] h tr]. reflexivity. Qed.

Lemma readB_app (first rest : bytes) (w : World) :
  content (buffer w) = first ++ rest ->
  readB (len first) w = (Return (PyBytes first), put_content rest w).
Proof.
  intros Hc. unfold readB. run_py. rewrite Hc.
  destruct (Z.ltb_spec (len (first ++ rest)) (len first)) as [Hlt|_].
  - rewrite len_app in Hlt. pose proof (len_nonneg rest). lia.
  - rewrite slice_head_app, slice_tail_app. reflexivity.
Qed.

Lemma store_chunks_all_fit E chunks :
  forall w,
    handleData w = dummy ->
    len (content (buffer w)) + len (concat chunks) <= size (buffer w) ->
    store_chunks E chunks w
    = (Return tt, put_content (content (buffer w) ++ concat chunks) w).
Proof.
  induction chunks as [|data rest IH]; intros w Hd Hfit.
  - cbn [store_chunks concat]. rewrite app_nil_r, put_content_same. reflexivity.
  - cbn [store_chunks concat] in *. rewrite len_app in Hfit.
    pose proof (len_nonneg (concat rest)).
    unfold bind. rewrite readStoreBuffer_fits by lia.
    rewrite call_handleData_dummy by exact Hd.
    rewrite IH.
    + cbn. rewrite <- app_assoc. reflexivity.
    + exact Hd.
    + cbn. rewrite len_app. lia.
Qed.

Lemma read_back_chunks chunks :
  forall rest w,
    content (buffer w) = concat chunks ++ rest ->
    read_back (List.map len chunks) w
    = (Return (List.map PyBytes chunks), put_content rest w).
Proof.
  induction chunks as [|data more IH]; intros rest w Hc.
  - cbn in *. rewrite <- Hc, put_content_same. reflexivity.
  - cbn [List.map read_back concat] in *. rewrite <- app_assoc in Hc.
    unfold bind. rewrite (readB_app data (concat more ++ rest) w Hc).
    rewrite (IH rest (put_content (concat more ++ rest) w)) by reflexivity.
    reflexivity.
Qed.

(** X2. Chunks come out as they went in. Into an empty buffer with the
    placeholder callback, chunks whose total length is within the
    capacity are all stored, and reading back as many bytes as each
    chunk had returns the chunks in their order of arrival and leaves
    the world as it was before the first chunk. *)
Theorem chunks_read_back (E : Env) (chunks : list bytes) (w : World) :
  handleData w = dummy ->
  content (buffer w) = [] ->
  len (concat chunks) <= size (buffer w) ->
  store_chunks E chunks w = (Return tt, put_content (concat chunks) w)
  /\ (store_chunks E chunks ;; read_back (List.map len chunks)) w
     = (Return (List.map PyBytes chunks), w).
Proof.
  intros Hd Hempty Hfit.
  assert (Hs : store_chunks E chunks w
               = (Return tt, put_content (concat chunks) w)).
  { rewrite store_chunks_all_fit; [rewrite Hempty; reflexivity | exact Hd |].
    rewrite Hempty. exact Hfit. }
  split; [exact Hs|].
  unfold bind. rewrite Hs.
  rewrite (read_back_chunks chunks [] (put_content (concat chunks) w)).
  - destruct w as [[p c sz d t] h tr]. cbn in Hempty. subst c. reflexivity.
  - cbn. rewrite app_nil_r. reflexivity.
Qed.

Lemma chunks_read_back_witness :
  let w := world_with [] 8 in
  store_chunks plain_env [blit "ab"; blit "cde"; blit "f"] w
  = (Return tt, put_content (blit "abcdef") w)
  /\ (store_chunks plain_env [blit "ab"; blit "cde"; blit "f"] ;;
      read_back [2; 3; 1]) w
     = (Return [PyBytes (blit "ab"); PyBytes (blit "cde"); PyBytes (blit "f")], w).
Proof.
  intros w.
  apply (chunks_read_back plain_env [blit "ab"; blit "cde"; blit "f"] w
                          eq_refl eq_refl).
  vm_compute. discriminate.
Defined.

(** ** Lines read one after the other *)

Lemma read_lines_joined lines :
  forall rest w,
    (forall l, In l lines -> ~ In newline l) ->
    content (buffer w) = join_lines lines ++ rest ->
    read_lines (length lines) w
    = (Return (List.map decoded_line lines), put_content rest w).
Proof.
  induction lines as [|l more IH]; intros rest w Hno Hc.
  - cbn in *. rewrite <- Hc, put_content_same. reflexivity.
  - cbn [length read_lines List.map]. unfold bind.
    assert (Hc' : content (buffer w)
                  = l ++ newline :: (join_lines more ++ rest)).
    { rewrite Hc. unfold join_lines. cbn [List.map concat].
      rewrite <- !app_assoc. reflexivity. }
    rewrite (readL_found l (join_lines more ++ rest) w Hc').
    + rewrite (IH rest (put_content (join_lines more ++ rest) w)).
      * reflexivity.
      * intros l' Hl'. apply Hno. right. exact Hl'.
      * reflexivity.
    + apply Hno. left. reflexivity.
Qed.

(** X3. Lines come out one per call and in order. When the buffer holds
    the lines [lines], each followed by a line feed and none containing
    one, and then [rest], as many calls of [readL] as there are lines
    return the lines decoded, in order, and leave [rest]; when [rest]
    has no line feed the next call returns "not enough data" and leaves
    [rest] where it is. *)
Theorem readL_lines_in_order (lines : list bytes) (rest : bytes) (w : World) :
  (forall l, In l lines -> ~ In newline l) ->
  content (buffer w) = join_lines lines ++ rest ->
  read_lines (length lines) w
  = (Return (List.map decoded_line lines), put_content rest w)
  /\ (~ In newline rest ->
      read_lines (S (length lines)) w
      = (Return (List.map decoded_line lines ++ [not_enough_data]),
         put_content rest w)).
Proof.
  intros Hno Hc. split; [apply read_lines_joined; assumption|].
  intros Hrest.
  replace (S (length lines)) with (length lines + 1)%nat by lia.
  revert w Hc. induction lines as [|l more IH]; intros w Hc.
  - cbn in *. unfold bind. rewrite readL_absent by (rewrite Hc; exact Hrest).
    rewrite <- Hc, put_content_same. reflexivity.
  - cbn [length Nat.add read_lines List.map app]. unfold bind.
    assert (Hc' : content (buffer w)
                  = l ++ newline :: (join_lines more ++ rest)).
    { rewrite Hc. unfold join_lines. cbn [List.map concat].
      rewrite <- !app_assoc. reflexivity. }
    rewrite (readL_found l (join_lines more ++ rest) w Hc')
      by (apply Hno; left; reflexivity).
    rewrite (IH (fun l' Hl' => Hno l' (or_intror Hl'))
                (put_content (join_lines more ++ rest) w) eq_refl).
    reflexivity.
Qed.

Lemma readL_lines_in_order_witness :
  let w := world_with (blit "one" ++ newline :: blit "two" ++ newline :: blit "thr") 64 in
  read_lines 2 w
  = (Return [PyStr (str "one"); PyStr (str "two")], put_content (blit "thr") w)
  /\ read_lines 3 w
     = (Return [PyStr (str "one"); PyStr (str "two"); not_enough_data],
        put_content (blit "thr") w).
Proof.
  intros w.
  assert (Hno : forall l, In l [blit "one"; blit "two"] -> ~ In newline l).
  { intros l [<-|[<-|[]]]; cbn; intros [H|[H|[H|[]]]]; discriminate H. }
  destruct (readL_lines_in_order [blit "one"; blit "two"] (blit "thr") w Hno eq_refl)
    as [H2 H3].
  split; [exact H2|].
  apply H3. cbn. intros [H|[H|[H|[]]]]; discriminate H.
Defined.

(** ** Clearing up to the last line, then reading *)

(** X4. After [clearBuffer(True)] no complete line is left: the [readL]
    that follows returns "not enough data" and changes nothing, whatever
    the buffer held. *)
Theorem clearBuffer_then_readL (E : Env) (w w1 : World) :
  gui_refresh E w = (Return tt, w1) ->
  fst (clearBuffer E true w) = Return tt
  /\ readL (snd (clearBuffer E true w))
     = (Return not_enough_data, snd (clearBuffer E true w)).
Proof.
  intros Hg.
  destruct (in_dec Byte.byte_eq_dec newline (content (buffer w1))) as [Hin|Hno].
  - destruct (split_at_last newline _ Hin) as [pre [post [Hc Hpost]]].
    rewrite (clearBuffer_line_found E w w1 pre post Hg Hc Hpost).
    split; [reflexivity|]. apply readL_absent. exact Hpost.
  - rewrite (clearBuffer_line_absent E w w1 Hg Hno).
    split; [reflexivity|]. apply readL_absent. exact Hno.
Qed.

Lemma clearBuffer_then_readL_witness :
  let w := world_with (blit "ab" ++ newline :: blit "cd") 64 in
  fst (clearBuffer plain_env true w) = Return tt
  /\ readL (snd (clearBuffer plain_env true w))
     = (Return not_enough_data, snd (clearBuffer plain_env true w)).
Proof.
  intros w. apply (clearBuffer_then_readL plain_env w w eq_refl).
Defined.

(** ** Text through [encode] and [decode] *)

Ltac lia_div := zify; Z.to_euclidean_division_equations; lia.

Lemma to_N_byte_of_N (n : N) : (n < 256)%N -> Byte.to_N (byte_of_N n) = n.
Proof.
  intros Hn. unfold byte_of_N. rewrite N.mod_small by exact Hn.
  destruct (Byte.of_N n) as [c|] eqn:Hof.
  - apply Byte.to_of_N. exact Hof.
  - apply Byte.of_N_None_iff in Hof. lia.
Qed.

Lemma in_range_true (lo hi : N) (c : byte) :
  (lo <= Byte.to_N c <= hi)%N -> in_range lo hi c = true.
Proof.
  intros [H1 H2]. unfold in_range.
  rewrite (proj2 (N.leb_le _ _) H1), (proj2 (N.leb_le _ _) H2). reflexivity.
Qed.

Lemma in_range_false (lo hi : N) (c : byte) :
  (Byte.to_N c < lo \/ hi < Byte.to_N c)%N -> in_range lo hi c = false.
Proof.
  intros H. unfold in_range.
  destruct (N.leb_spec lo (Byte.to_N c)); [|reflexivity].
  destruct (N.leb_spec (Byte.to_N c) hi); [lia | reflexivity].
Qed.

Lemma decode_one (b0 : byte) (t : bytes) :
  (Byte.to_N b0 < 128)%N ->
  decode (b0 :: t) = option_map (cons (Byte.to_N b0)) (decode t).
Proof.
  intros H. cbn [decode]. rewrite (proj2 (N.ltb_lt _ _) H). reflexivity.
Qed.

Lemma decode_two (b0 b1 : byte) (t : bytes) :
  (194 <= Byte.to_N b0 <= 223)%N ->
  (128 <= Byte.to_N b1 <= 191)%N ->
  decode (b0 :: b1 :: t)
  = option_map (cons ((Byte.to_N b0 - 192) * 64 + cont_bits b1)%N) (decode t).
Proof.
  intros H0 H1. cbn [decode].
  rewrite (proj2 (N.ltb_ge _ _)) by lia.
  rewrite (in_range_true 194 223 b0 H0), (in_range_true 128 191 b1 H1).
  reflexivity.
Qed.

Lemma decode_three (b0 b1 b2 : byte) (t : bytes) :
  (224 <= Byte.to_N b0 <= 239)%N ->
  ((if N.eqb (Byte.to_N b0) 224 then 160 else 128) <= Byte.to_N b1
   <= (if N.eqb (Byte.to_N b0) 237 then 159 else 191))%N ->
  (128 <= Byte.to_N b2 <= 191)%N ->
  decode (b0 :: b1 :: b2 :: t)
  = option_map
      (cons ((Byte.to_N b0 - 224) * 4096 + cont_bits b1 * 64 + cont_bits b2)%N)
      (decode t).
Proof.
  intros H0 H1 H2. cbn [decode].
  rewrite (proj2 (N.ltb_ge _ _)) by lia.
  rewrite (in_range_false 194 223 b0) by lia.
  rewrite (in_range_true 224 239 b0 H0).
  rewrite (in_range_true _ _ b1 H1), (in_range_true 128 191 b2 H2).
  reflexivity.
Qed.

Lemma decode_four (b0 b1 b2 b3 : byte) (t : bytes) :
  (240 <= Byte.to_N b0 <= 244)%N ->
  ((if N.eqb (Byte.to_N b0) 240 then 144 else 128) <= Byte.to_N b1
   <= (if N.eqb (Byte.to_N b0) 244 then 143 else 191))%N ->
  (128 <= Byte.to_N b2 <= 191)%N ->
  (128 <= Byte.to_N b3 <= 191)%N ->
  decode (b0 :: b1 :: b2 :: b3 :: t)
  = option_map
      (cons ((Byte.to_N b0 - 240) * 262144 + cont_bits b1 * 4096
             + cont_bits b2 * 64 + cont_bits b3)%N)
      (decode t).
Proof.
  intros H0 H1 H2 H3. cbn [decode].
  rewrite (proj2 (N.ltb_ge _ _)) by lia.
  rewrite (in_range_false 194 223 b0) by lia.
  rewrite (in_range_false 224 239 b0) by lia.
  rewrite (in_range_true 240 244 b0 H0).
  rewrite (in_range_true _ _ b1 H1), (in_range_true 128 191 b2 H2),
    (in_range_true 128 191 b3 H3).
  reflexivity.
Qed.

Lemma Some_eq {A : Type} (a b : A) : Some a = Some b -> a = b.
Proof. congruence. Qed.

Lemma decode_encode_char (c : N) (cs t : bytes) :
  encode_char c = Some cs ->
  decode (cs ++ t) = option_map (cons c) (decode t).
Proof.
  unfold encode_char.
  destruct (N.ltb_spec c 128) as [H1|H1].
  { intros Heq. apply Some_eq in Heq. subst cs. cbn [app].
    rewrite decode_one; rewrite to_N_byte_of_N by lia; [reflexivity | lia]. }
  destruct (N.ltb_spec c 2048) as [H2|H2].
  { intros Heq. apply Some_eq in Heq. subst cs. cbn [app].
    rewrite decode_two; unfold cont_bits; rewrite ?to_N_byte_of_N by lia_div.
    - f_equal. f_equal. lia_div.
    - lia_div.
    - lia_div. }
  destruct (N.ltb_spec c 65536) as [H3|H3].
  { destruct (N.leb_spec 55296 c) as [Hs1|Hs1];
      [destruct (N.leb_spec c 57343) as [Hs2|Hs2]|]; cbn [andb];
      try discriminate; intros Heq; apply Some_eq in Heq; subst cs; cbn [app].
    - rewrite decode_three; unfold cont_bits; rewrite ?to_N_byte_of_N by lia_div.
      + f_equal. f_equal. lia_div.
      + lia_div.
      + destruct (N.eqb_spec (224 + c / 4096) 224);
          destruct (N.eqb_spec (224 + c / 4096) 237); lia_div.
      + lia_div.
    - rewrite decode_three; unfold cont_bits; rewrite ?to_N_byte_of_N by lia_div.
      + f_equal. f_equal. lia_div.
      + lia_div.
      + destruct (N.eqb_spec (224 + c / 4096) 224);
          destruct (N.eqb_spec (224 + c / 4096) 237); lia_div.
      + lia_div. }
  destruct (N.ltb_spec c 1114112) as [H4|H4]; [|discriminate].
  intros Heq. apply Some_eq in Heq. subst cs. cbn [app].
  rewrite decode_four; unfold cont_bits; rewrite ?to_N_byte_of_N by lia_div.
  - f_equal. f_equal. lia_div.
  - lia_div.
  - destruct (N.eqb_spec (240 + c / 262144) 240);
      destruct (N.eqb_spec (240 + c / 262144) 244); lia_div.
  - lia_div.
  - lia_div.
Qed.

Lemma decode_encode (s : pystr) :
  forall bs, encode s = Some bs -> decode bs = Some s.
Proof.
  induction s as [|c rest IH]; intros bs.
  - intros [= <-]. reflexivity.
  - cbn [encode]. destruct (encode_char c) as [cs|] eqn:Hc; [|discriminate].
    destruct (encode rest) as [bs'|] eqn:Hr; [|discriminate].
    intros Heq. apply Some_eq in Heq. subst bs.
    rewrite (decode_encode_char c cs bs' Hc).
    rewrite (IH bs' eq_refl). reflexivity.
Qed.

Lemma encode_char_bytes (c : N) (cs : bytes) (b : byte) :
  encode_char c = Some cs -> In b cs ->
  (Byte.to_N b = c /\ (c < 128)%N) \/ (128 <= Byte.to_N b)%N.
Proof.
  unfold encode_char.
  destruct (N.ltb_spec c 128) as [H1|H1].
  { intros Heq. apply Some_eq in Heq. subst cs. intros [<-|[]].
    left. split; [apply to_N_byte_of_N; lia | exact H1]. }
  assert (Hbig : forall e, (128 <= e < 256)%N -> b = byte_of_N e ->
                           (128 <= Byte.to_N b)%N).
  { intros e He ->. rewrite to_N_byte_of_N; lia. }
  destruct (N.ltb_spec c 2048) as [H2|H2].
  { intros Heq. apply Some_eq in Heq. subst cs.
    intros [Hb|[Hb|[]]]; right; symmetry in Hb;
      (eapply Hbig; [|exact Hb]); lia_div. }
  destruct (N.ltb_spec c 65536) as [H3|H3].
  { destruct (N.leb_spec 55296 c) as [Hs1|Hs1];
      [destruct (N.leb_spec c 57343) as [Hs2|Hs2]|]; cbn [andb];
      try discriminate; intros Heq; apply Some_eq in Heq; subst cs;
      intros [Hb|[Hb|[Hb|[]]]]; right; symmetry in Hb;
      (eapply Hbig; [|exact Hb]); lia_div. }
  destruct (N.ltb_spec c 1114112) as [H4|H4]; [|discriminate].
  intros Heq. apply Some_eq in Heq. subst cs.
  intros [Hb|[Hb|[Hb|[Hb|[]]]]]; right; symmetry in Hb;
    (eapply Hbig; [|exact Hb]); lia_div.
Qed.

Lemma encode_no_newline (s : pystr) :
  forall bs, encode s = Some bs -> ~ In 10%N s -> ~ In newline bs.
Proof.
  induction s as [|c rest IH]; intros bs.
  - intros Heq. apply Some_eq in Heq. subst bs. intros _ [].
  - cbn [encode]. destruct (encode_char c) as [cs|] eqn:Hc; [|discriminate].
    destruct (encode rest) as [bs'|] eqn:Hr; [|discriminate].
    intros Heq. apply Some_eq in Heq. subst bs. intros Hno Hin.
    apply in_app_or in Hin. destruct Hin as [Hin|Hin].
    + destruct (encode_char_bytes c cs newline Hc Hin) as [[Hc10 _]|Hbig].
      * apply Hno. left. symmetry. exact Hc10.
      * cbn in Hbig. lia.
    + apply (IH bs' eq_refl); [|exact Hin].
      intros H10. apply Hno. right. exact H10.
Qed.

Lemma encode_app (s1 s2 : pystr) (b2 : bytes) :
  encode s2 = Some b2 ->
  forall b1, encode s1 = Some b1 -> encode (s1 ++ s2) = Some (b1 ++ b2).
Proof.
  intros H2. induction s1 as [|c rest IH]; intros b1.
  - intros Heq. apply Some_eq in Heq. subst b1. exact H2.
  - cbn [encode app]. destruct (encode_char c) as [cs|]; [|discriminate].
    destruct (encode rest) as [bs'|]; [|discriminate].
    intros Heq. apply Some_eq in Heq. subst b1.
    rewrite (IH bs' eq_refl), <- app_assoc. reflexivity.
Qed.

Lemma writeL_sends E s bs w p :
  encode s = Some bs ->
  disconnected (buffer w) = false ->
  port (buffer w) = Some p ->
  env_write E (trace w) p (bs ++ [newline]) = None ->
  writeL E s w = (Return tt, emit (PortWrite p (bs ++ [newline])) w).
Proof.
  intros Hs Hd Hp Hw. unfold writeL. run_py. rewrite Hd, Hp.
  rewrite (encode_app s (str nl) [newline] eq_refl bs Hs).
  unfold port_write. rewrite Hw. reflexivity.
Qed.

(** X5. A line written is the line read. For a text [s] that encodes
    (no surrogate) to [bs]: decoding [bs] gives [s] back; [writeL(s)] on
    a connected link with a working transport hands [bs] and a line feed
    to the transport, once, and changes nothing else; and when [s] has
    no line feed, a buffer that starts with these bytes gives [s] to
    [readL()] and keeps what follows them. *)
Theorem writeL_readL_loopback (E : Env) (s : pystr) (bs : bytes) :
  encode s = Some bs ->
  decode bs = Some s
  /\ (forall w p,
         disconnected (buffer w) = false ->
         port (buffer w) = Some p ->
         env_write E (trace w) p (bs ++ [newline]) = None ->
         writeL E s w = (Return tt, emit (PortWrite p (bs ++ [newline])) w))
  /\ (~ In 10%N s ->
      forall w rest,
        content (buffer w) = (bs ++ [newline]) ++ rest ->
        readL w = (Return (PyStr s), put_content rest w)).
Proof.
  intros Hs. split; [apply decode_encode; exact Hs|]. split.
  - intros w p. apply writeL_sends. exact Hs.
  - intros Hno w rest Hc.
    rewrite (readL_found bs rest w).
    + unfold decoded_line. rewrite (decode_encode s bs Hs). reflexivity.
    + rewrite Hc, <- app_assoc. reflexivity.
    + apply (encode_no_newline s bs Hs Hno).
Qed.

Lemma writeL_readL_loopback_witness :
  let s := [71%N; 252%N; 8364%N; 128512%N] in
  let bs := [x47; xc3; xbc; xe2; x82; xac; xf0; x9f; x98; x80] in
  let w := world_with [] 64 in
  decode bs = Some s
  /\ writeL plain_env s w
     = (Return tt,
        emit (PortWrite (mkPort "/dev/ttyUSB0" None) (bs ++ [newline])) w)
  /\ readL (put_content ((bs ++ [newline]) ++ blit "next") w)
     = (Return (PyStr s), put_content (blit "next") w).
Proof.
  intros s bs w.
  destruct (writeL_readL_loopback plain_env s bs eq_refl) as [Hd [Hw Hr]].
  split; [exact Hd|]. split.
  - apply (Hw w (mkPort "/dev/ttyUSB0" None)); reflexivity.
  - apply (Hr ltac:(cbn; intros [H|[H|[H|[H|[]]]]]; discriminate H)
              (put_content ((bs ++ [newline]) ++ blit "next") w) (blit "next")).
    reflexivity.
Defined.

(** ** [serPort] with a device name *)

(** X6. With a name other than "Auto", [serPort] opens that device and
    nothing else happens: no enumeration, no timeout, and the initial,
    probe and final commands are not sent. A serial exception of the
    open is answered with the message and [SerialDisconnect]; any other
    exception leaves the function as it is. *)
Theorem serPort_named (E : Env) (name : string)
    (command question answer final : option bytes) (w : World) :
  name <> "Auto"%string ->
  (env_open E (trace w) name = None ->
   serPort E name command question answer final w
   = (Return (mkPort name None), emit (SerialOpen name None) w))
  /\ (forall e,
         env_open E (trace w) name = Some e ->
         serPort E name command question answer final w
         = if serPort_excepts e
           then (Raise SerialDisconnect,
                 emit (Printed could_not_open) (emit (SerialOpen name None) w))
           else (Raise e, emit (SerialOpen name None) w)).
Proof.
  intros Hname. apply String.eqb_neq in Hname.
  unfold serPort, try_except, serial_Serial. rewrite Hname. split.
  - intros Hopen. rewrite Hopen. reflexivity.
  - intros e Hopen. rewrite Hopen. destruct (serPort_excepts e); reflexivity.
Qed.

Lemma serPort_named_witness :
  let locked := host_env ["ttyS0"; "ttyUSB0"]%string
                         (fun _ => Some SerialException) (fun _ => []) in
  serPort plain_env "/dev/ttyACM0" (Some (blit "init")) (Some (blit "ID?"))
          (Some (blit "scope")) (Some (blit "go")) World_initial
  = (Return (mkPort "/dev/ttyACM0" None),
     emit (SerialOpen "/dev/ttyACM0" None) World_initial)
  /\ serPort locked "/dev/ttyACM0" (Some (blit "init")) None None None World_initial
     = (Raise SerialDisconnect,
        emit (Printed could_not_open)
             (emit (SerialOpen "/dev/ttyACM0" None) World_initial)).
Proof.
  intros locked. split.
  - apply (proj1 (serPort_named plain_env "/dev/ttyACM0" (Some (blit "init"))
                    (Some (blit "ID?")) (Some (blit "scope")) (Some (blit "go"))
                    World_initial ltac:(discriminate))).
    reflexivity.
  - apply (proj2 (serPort_named locked "/dev/ttyACM0" (Some (blit "init"))
                    None None None World_initial ltac:(discriminate))
                 SerialException).
    reflexivity.
Defined.

(** ** Reconnection attempts of the module as it is written *)

Lemma reopen_unbound E w :
  global_Serial E = false ->
  buffer (snd (reopen E w)) = buffer w
  /\ trace (snd (reopen E w)) = trace w ++ [Comports; After 1 cb_reopen]
     \/ buffer (snd (reopen E w)) = buffer w
        /\ trace (snd (reopen E w)) = trace w ++ [Comports]
        /\ fst (reopen E w) = Raise NameError.
Proof.
  intros Hunbound.
  destruct (Nat.lt_ge_cases (length (env_comports E (trace w))) 2) as [Hfew|Hmany].
  - left. rewrite reopen_rescheduled by exact Hfew. cbn.
    rewrite <- app_assoc. split; reflexivity.
  - right. rewrite reopen_NameError by assumption. cbn.
    repeat split; reflexivity.
Qed.

(** X7. While the module global [Serial] is unbound, which is how the
    module leaves it, no number of reconnection attempts reconnects:
    the buffer object (port, content, capacity, disconnected flag) is
    the same after the attempts as before, and no reader thread is
    started that was not started before. A link marked disconnected
    stays so. *)
Theorem reopen_never_reconnects (E : Env) (n : nat) (w : World) :
  global_Serial E = false ->
  buffer (snd (reopen_polls E n w)) = buffer w
  /\ (no_reader_started (trace w) ->
      no_reader_started (trace (snd (reopen_polls E n w))))
  /\ (disconnected (buffer w) = true ->
      disconnected (buffer (snd (reopen_polls E n w))) = true).
Proof.
  intros Hunbound.
  assert (Hkey : forall n w,
             buffer (snd (reopen_polls E n w)) = buffer w
             /\ (no_reader_started (trace w) ->
                 no_reader_started (trace (snd (reopen_polls E n w))))).
  { clear n w. induction n as [|n IH]; intros w.
    - split; [reflexivity | intros H; exact H].
    - cbn [reopen_polls]. unfold bind.
      destruct (reopen_unbound E w Hunbound) as [[Hb Ht]|[Hb [Ht Hr]]].
      + destruct (reopen E w) as [[[]|e|] w1] eqn:Hre; cbn [snd] in *.
        * destruct (IH w1) as [IHb IHt]. split; [congruence|].
          intros Hno. apply IHt. rewrite Ht. intros p Hin.
          apply in_app_or in Hin. destruct Hin as [Hin|[Hin|[Hin|[]]]];
            [exact (Hno p Hin) | discriminate Hin | discriminate Hin].
        * split; [exact Hb|]. intros Hno. rewrite Ht. intros p Hin.
          apply in_app_or in Hin. destruct Hin as [Hin|[Hin|[Hin|[]]]];
            [exact (Hno p Hin) | discriminate Hin | discriminate Hin].
        * split; [exact Hb|]. intros Hno. rewrite Ht. intros p Hin.
          apply in_app_or in Hin. destruct Hin as [Hin|[Hin|[Hin|[]]]];
            [exact (Hno p Hin) | discriminate Hin | discriminate Hin].
      + destruct (reopen E w) as [[[]|e|] w1] eqn:Hre; cbn [fst snd] in *;
          try discriminate.
        split; [exact Hb|]. intros Hno. rewrite Ht. intros p Hin.
        apply in_app_or in Hin. destruct Hin as [Hin|[Hin|[]]];
          [exact (Hno p Hin) | discriminate Hin]. }
  destruct (Hkey n w) as [Hb Ht]. split; [exact Hb|]. split; [exact Ht|].
  intros Hd. rewrite Hb. exact Hd.
Qed.

Lemma reopen_never_reconnects_witness :
  let w := unplugged (world_with [] 64) in
  buffer (snd (reopen_polls plain_env 5 w)) = buffer w
  /\ no_reader_started (trace (snd (reopen_polls plain_env 5 w)))
  /\ disconnected (buffer (snd (reopen_polls plain_env 5 w))) = true.
Proof.
  intros w.
  destruct (reopen_never_reconnects plain_env 5 w eq_refl) as [Hb [Ht Hd]].
  split; [exact Hb|]. split.
  - apply Ht. intros p [].
  - apply Hd. reflexivity.
Defined.

(** ** The capacity over a whole session *)

Lemma keeps_capacity_ret {A : Type} (a : A) : keeps_capacity (ret a).
Proof. intros w Hw. split; [exact Hw | reflexivity]. Qed.

Lemma keeps_capacity_bind {A B : Type} (m : Py A) (f : A -> Py B) :
  keeps_capacity m -> (forall a, keeps_capacity (f a)) ->
  keeps_capacity (bind m f).
Proof.
  intros Hm Hf w Hw. unfold bind. destruct (Hm w Hw) as [Hin Hsz].
  destruct (m w) as [[a|e|] w1]; cbn [snd] in *.
  - destruct (Hf a w1 Hin) as [Hin' Hsz']. split; [exact Hin' | congruence].
  - split; assumption.
  - split; assumption.
Qed.

Lemma keeps_capacity_suffix (c : bytes) (w : World) :
  is_suffix c (content (buffer w)) -> within_capacity w ->
  within_capacity (put_content c w)
  /\ size (buffer (put_content c w)) = size (buffer w).
Proof.
  intros [removed Hc] Hw. split; [|reflexivity].
  unfold within_capacity in *. cbn. rewrite Hc, len_app in Hw.
  pose proof (len_nonneg removed). lia.
Qed.

Lemma keeps_capacity_call_handleData E :
  (forall f, keeps_capacity (env_user E f)) ->
  keeps_capacity (call_handleData E).
Proof.
  intros Hu w Hw. unfold call_handleData.
  destruct (handleData w) as [|f]; [apply keeps_capacity_ret | apply Hu];
    exact Hw.
Qed.

Lemma keeps_capacity_readStoreBuffer E data :
  (forall f, keeps_capacity (env_user E f)) ->
  keeps_capacity (readStoreBuffer E data).
Proof.
  intros Hu w Hw.
  destruct (Z.le_gt_cases (len (content (buffer w)) + len data) (size (buffer w)))
    as [Hfit|Hover].
  - rewrite readStoreBuffer_fits by exact Hfit.
    apply (keeps_capacity_call_handleData E Hu
             (put_content (content (buffer w) ++ data) w)).
    unfold within_capacity. cbn. rewrite len_app. exact Hfit.
  - rewrite readStoreBuffer_overflow by lia.
    apply (keeps_capacity_call_handleData E Hu w Hw).
Qed.

Lemma readB_world n w :
  exists c, is_suffix c (content (buffer w)) /\ snd (readB n w) = put_content c w.
Proof.
  destruct (Z.lt_ge_cases (len (content (buffer w))) n) as [Hlt|Hge].
  - exists (content (buffer w)). split; [apply is_suffix_refl|].
    rewrite readB_short by exact Hlt. cbn. symmetry. apply put_content_same.
  - rewrite (readB_cut n w Hge). cbn [snd].
    eexists. split; [|reflexivity]. eexists. symmetry. apply firstn_skipn.
Qed.

Lemma readL_world w :
  exists c, is_suffix c (content (buffer w)) /\ snd (readL w) = put_content c w.
Proof.
  destruct (in_dec Byte.byte_eq_dec newline (content (buffer w))) as [Hin|Hno].
  - destruct (split_at_first newline _ Hin) as [pre [post [Hc Hpre]]].
    exists post. rewrite (readL_found pre post w Hc Hpre). split; [|reflexivity].
    rewrite Hc. apply is_suffix_after.
  - exists (content (buffer w)). rewrite (readL_absent w Hno).
    split; [apply is_suffix_refl | symmetry; apply put_content_same].
Qed.

Lemma clearBuffer_for_world w :
  exists c, is_suffix c (content (buffer w))
            /\ snd (clearBuffer_for (range_down (length (content (buffer w)))) w)
               = put_content c w.
Proof.
  destruct (in_dec Byte.byte_eq_dec newline (content (buffer w))) as [Hin|Hno].
  - destruct (split_at_last newline _ Hin) as [pre [post [Hc Hpost]]].
    exists post. rewrite (clearBuffer_for_found pre post w Hc Hpost).
    + split; [rewrite Hc; apply is_suffix_after | reflexivity].
    + rewrite Hc, length_app. simpl. lia.
    + lia.
  - exists (content (buffer w)). rewrite clearBuffer_for_absent.
    + split; [apply is_suffix_refl | symmetry; apply put_content_same].
    + exact Hno.
    + intros i Hi. unfold range_down in Hi. apply in_rev, in_seq in Hi. lia.
Qed.

Lemma keeps_capacity_world {A : Type} (m : Py A) :
  (forall w, exists c, is_suffix c (content (buffer w))
                       /\ snd (m w) = put_content c w) ->
  keeps_capacity m.
Proof.
  intros Hm w Hw. destruct (Hm w) as [c [Hsuf ->]].
  apply keeps_capacity_suffix; assumption.
Qed.

Lemma keeps_capacity_clearBuffer E clearLine :
  keeps_capacity (env_flush_events E) ->
  keeps_capacity (env_update_idletasks E) ->
  keeps_capacity (clearBuffer E clearLine).
Proof.
  intros Hf Hi. unfold clearBuffer.
  apply keeps_capacity_bind; [exact Hf|]. intros _.
  apply keeps_capacity_bind; [exact Hi|]. intros _.
  destruct clearLine.
  - apply keeps_capacity_world. intros w. unfold bind, get_buffer.
    apply clearBuffer_for_world.
  - apply keeps_capacity_world. intros w. exists []. split; [apply is_suffix_nil|].
    reflexivity.
Qed.

Lemma keeps_capacity_same_buffer {A : Type} (m : Py A) :
  keeps_buffer m -> keeps_capacity m.
Proof.
  intros Hm w Hw. unfold within_capacity in *. rewrite (Hm w).
  split; [exact Hw | reflexivity].
Qed.

Lemma keeps_buffer_write E data : keeps_buffer (write E data).
Proof.
  intros w. unfold write, buffer_port_write, port_write, pln. run_py.
  destruct (disconnected (buffer w)); [reflexivity|].
  destruct (port (buffer w)) as [p|]; [|reflexivity].
  destruct (env_write E (trace w) p data) as [e|]; [|reflexivity].
  destruct (isinstance_OSError e); reflexivity.
Qed.

Lemma keeps_buffer_writeL E s : keeps_buffer (writeL E s).
Proof.
  intros w. unfold writeL, buffer_port_write, port_write, pln. run_py.
  destruct (disconnected (buffer w)); [reflexivity|].
  destruct (port (buffer w)) as [p|]; [|reflexivity].
  destruct (encode (s ++ str nl)) as [data|]; [|reflexivity].
  destruct (env_write E (trace w) p data) as [e|]; [|reflexivity].
  destruct (isinstance_OSError e); reflexivity.
Qed.

Lemma keeps_capacity_perform E a :
  (forall f, keeps_capacity (env_user E f)) ->
  keeps_capacity (env_flush_events E) ->
  keeps_capacity (env_update_idletasks E) ->
  keeps_capacity (perform E a).
Proof.
  intros Hu Hf Hi. destruct a as [data|n| |clearLine|data|s]; cbn [perform].
  - apply keeps_capacity_readStoreBuffer. exact Hu.
  - apply keeps_capacity_bind; [|intros; apply keeps_capacity_ret].
    apply keeps_capacity_world. apply readB_world.
  - apply keeps_capacity_bind; [|intros; apply keeps_capacity_ret].
    apply keeps_capacity_world. apply readL_world.
  - apply keeps_capacity_clearBuffer; assumption.
  - apply keeps_capacity_same_buffer, keeps_buffer_write.
  - apply keeps_capacity_same_buffer, keeps_buffer_writeL.
Qed.

(** X8. The capacity holds over a whole session. When the functions of
    the application called as [handleData] and the work the GUI refresh
    lets run keep the buffer within its capacity and leave the capacity
    alone, then any sequence of chunk deliveries, [readB], [readL],
    [clearBuffer], [write] and [writeL] calls, started within the
    capacity, ends within the capacity and with the same capacity, also
    when one of the calls raises. *)
Theorem session_within_capacity (E : Env) (actions : list action) :
  (forall f, keeps_capacity (env_user E f)) ->
  keeps_capacity (env_flush_events E) ->
  keeps_capacity (env_update_idletasks E) ->
  keeps_capacity (perform_all E actions).
Proof.
  intros Hu Hf Hi. induction actions as [|a rest IH]; cbn [perform_all].
  - apply keeps_capacity_ret.
  - apply keeps_capacity_bind; [|intros _; exact IH].
    apply keeps_capacity_perform; assumption.
Qed.

Lemma session_within_capacity_witness :
  let session := [Deliver (blit "ab" ++ [newline]); Deliver (blit "cdefgh");
                  ReadL; Deliver (blit "ij"); ReadB 2; WriteL (str "x");
                  ClearBuffer true; Deliver (blit "klmnop"); ClearBuffer false] in
  within_capacity (snd (perform_all plain_env session (world_with [] 8)))
  /\ size (buffer (snd (perform_all plain_env session (world_with [] 8)))) = 8.
Proof.
  intros session.
  apply (session_within_capacity plain_env session).
  - intros f. apply keeps_capacity_ret.
  - apply keeps_capacity_ret.
  - apply keeps_capacity_ret.
  - vm_compute. discriminate.
Defined.

(** ** What opening a port leaves alone *)

Lemma keeps_buffer_ret {A : Type} (a : A) : keeps_buffer (ret a).
Proof. intros w. reflexivity. Qed.

Lemma keeps_buffer_raise {A : Type} (e : exn) : keeps_buffer (@raise A e).
Proof. intros w. reflexivity. Qed.

Lemma keeps_buffer_bind {A B : Type} (m : Py A) (f : A -> Py B) :
  keeps_buffer m -> (forall a, keeps_buffer (f a)) -> keeps_buffer (bind m f).
Proof.
  intros Hm Hf w. unfold bind. specialize (Hm w).
  destruct (m w) as [[a|e|] w1]; cbn [snd] in *; [|exact Hm|exact Hm].
  rewrite (Hf a w1). exact Hm.
Qed.

Lemma keeps_buffer_try_except {A : Type} (m : Py A) classes handle :
  keeps_buffer m -> keeps_buffer handle ->
  keeps_buffer (try_except m classes handle).
Proof.
  intros Hm Hh w. unfold try_except. specialize (Hm w).
  destruct (m w) as [[a|e|] w1]; cbn [snd] in *; [exact Hm| |exact Hm].
  destruct (classes e); cbn [snd]; [|exact Hm].
  rewrite (Hh w1). exact Hm.
Qed.

Lemma keeps_buffer_pln text : keeps_buffer (pln text).
Proof. intros w. reflexivity. Qed.

Lemma keeps_buffer_comports E : keeps_buffer (comports E).
Proof. intros w. reflexivity. Qed.

Lemma keeps_buffer_serial_Serial E name timeout :
  keeps_buffer (serial_Serial E name timeout).
Proof.
  intros w. unfold serial_Serial. destruct (env_open E (trace w) name); reflexivity.
Qed.

Lemma keeps_buffer_port_write E p data : keeps_buffer (port_write E p data).
Proof.
  intros w. unfold port_write. destruct (env_write E (trace w) p data); reflexivity.
Qed.

Lemma keeps_buffer_port_readline E p : keeps_buffer (port_readline E p).
Proof.
  intros w. unfold port_readline. destruct (env_readline E (trace w) p); reflexivity.
Qed.

Lemma keeps_buffer_write_discard_line E p cmd :
  keeps_buffer (write_discard_line E p cmd).
Proof.
  destruct cmd as [c|]; cbn [write_discard_line]; [|apply keeps_buffer_ret].
  apply keeps_buffer_bind; [apply keeps_buffer_port_write|]. intros _.
  apply keeps_buffer_bind; [apply keeps_buffer_port_readline|]. intros _.
  apply keeps_buffer_ret.
Qed.

Lemma keeps_buffer_Open_candidates E command question answer candidates :
  keeps_buffer (Open_candidates E command question answer candidates).
Proof.
  induction candidates as [|dev rest IH]; cbn [Open_candidates].
  - apply keeps_buffer_raise.
  - apply keeps_buffer_bind; [apply keeps_buffer_serial_Serial|]. intros p.
    apply keeps_buffer_bind; [apply keeps_buffer_write_discard_line|]. intros _.
    apply keeps_buffer_bind.
    + unfold probe_matches. destruct question as [q|]; [|apply keeps_buffer_ret].
      apply keeps_buffer_bind; [apply keeps_buffer_port_write|]. intros _.
      apply keeps_buffer_bind; [apply keeps_buffer_port_readline|]. intros r.
      apply keeps_buffer_ret.
    + intros [|]; [apply keeps_buffer_ret | exact IH].
Qed.

Lemma keeps_buffer_Open_auto E command question answer final :
  keeps_buffer (Open_auto E command question answer final).
Proof.
  unfold Open_auto. apply keeps_buffer_try_except.
  - apply keeps_buffer_bind; [apply keeps_buffer_comports|]. intros devices.
    destruct (length devices <? 2)%nat; [apply keeps_buffer_raise|].
    apply keeps_buffer_bind; [apply keeps_buffer_Open_candidates|]. intros p.
    apply keeps_buffer_bind; [apply keeps_buffer_write_discard_line|]. intros _.
    apply keeps_buffer_ret.
  - apply keeps_buffer_bind; [apply keeps_buffer_pln|]. intros _.
    apply keeps_buffer_raise.
Qed.

Lemma keeps_buffer_serPort E name command question answer final :
  keeps_buffer (serPort E name command question answer final).
Proof.
  destruct (String.eqb_spec name "Auto") as [->|Hname].
  - intros w. rewrite serPort_refines_Open_auto. apply keeps_buffer_Open_auto.
  - apply String.eqb_neq in Hname. unfold serPort. rewrite Hname.
    apply keeps_buffer_try_except; [apply keeps_buffer_serial_Serial|].
    apply keeps_buffer_bind; [apply keeps_buffer_pln|]. intros _.
    apply keeps_buffer_raise.
Qed.

Lemma serPort_never_returns_exhausted E name command question answer final :
  terminates (serPort E name command question answer final).
Proof.
  destruct (String.eqb_spec name "Auto") as [->|Hname].
  - intros w. rewrite serPort_refines_Open_auto. apply terminates_Open_auto.
  - apply String.eqb_neq in Hname. unfold serPort. rewrite Hname.
    apply terminates_try_except; [apply terminates_serial_Serial|].
    apply terminates_bind; [intros w; discriminate|]. intros _.
    apply terminates_raise.
Qed.

(** X9. What the constructor leaves alone. [serPort], with any name and
    any commands, never touches the shared buffer object. The
    constructor of [sPort] either fails, and then the buffer object is
    what it was (old port and terminator included), or returns, and then
    only the port and the terminator are new: the content, the capacity
    and the disconnected flag of the shared buffer are those of before,
    so a link that was marked disconnected is still marked so. *)
Theorem sPort_init_leaves (E : Env) (name : string) (terminatorV : pyval)
    (w : World) :
  (forall command question answer final,
      buffer (snd (serPort E name command question answer final w)) = buffer w)
  /\ (fst (sPort_init E name terminatorV w) <> Return tt ->
      buffer (snd (sPort_init E name terminatorV w)) = buffer w)
  /\ (fst (sPort_init E name terminatorV w) = Return tt ->
      exists p,
        buffer (snd (sPort_init E name terminatorV w))
        = with_terminator terminatorV (with_port (Some p) (buffer w))).
Proof.
  split; [intros; apply keeps_buffer_serPort|].
  unfold sPort_init. run_py.
  pose proof (keeps_buffer_serPort E name None None None None w) as Hb.
  destruct (serPort E name None None None None w) as [[p|e|] w1];
    cbn [fst snd] in *.
  - split; [intros H; contradiction H; reflexivity|].
    intros _. exists p. rewrite Hb. reflexivity.
  - split; [intros _; exact Hb | discriminate].
  - split; [intros _; exact Hb | discriminate].
Qed.

Lemma sPort_init_leaves_witness :
  let stale := unplugged (world_with (blit "old") 16) in
  let locked := host_env ["ttyS0"; "ttyUSB0"]%string
                         (fun _ => Some SerialException) (fun _ => []) in
  buffer (snd (sPort_init locked "Auto" (PyStr (str ";")) stale)) = buffer stale
  /\ exists p,
       buffer (snd (sPort_init plain_env "Auto" (PyStr (str ";")) stale))
       = with_terminator (PyStr (str ";")) (with_port (Some p) (buffer stale)).
Proof.
  intros stale locked. split.
  - apply (proj1 (proj2 (sPort_init_leaves locked "Auto" (PyStr (str ";")) stale))).
    vm_compute. discriminate.
  - apply (proj2 (proj2 (sPort_init_leaves plain_env "Auto" (PyStr (str ";")) stale))).
    reflexivity.
Defined.

(** ** The value of [readL] and what it consumed *)

(** X10. The value [readL] returns does not tell whether a line was
    consumed. A buffer that starts with the line [not enough data]
    gives the value that a buffer without any line feed gives, and
    loses the line; a line that does not decode gives the value that
    the line [Read data isn't a string] gives. *)
Theorem readL_value_ambiguous (rest : bytes) (w : World) :
  (content (buffer w) = blit "not enough data" ++ newline :: rest ->
   readL w = (Return not_enough_data, put_content rest w))
  /\ (~ In newline (content (buffer w)) ->
      readL w = (Return not_enough_data, w))
  /\ (forall line,
         ~ In newline line -> decode line = None ->
         content (buffer w) = line ++ newline :: rest ->
         readL w = (Return not_a_string, put_content rest w))
  /\ (content (buffer w) = blit "Read data isn't a string" ++ newline :: rest ->
      readL w = (Return not_a_string, put_content rest w)).
Proof.
  split; [|split; [|split]].
  - intros Hc. rewrite (readL_found _ rest w Hc); [reflexivity|].
    intros Hin. vm_compute in Hin. intuition discriminate.
  - apply readL_absent.
  - intros line Hno Hdec Hc. rewrite (readL_found line rest w Hc Hno).
    unfold decoded_line. rewrite Hdec. reflexivity.
  - intros Hc. rewrite (readL_found _ rest w Hc); [reflexivity|].
    intros Hin. vm_compute in Hin. intuition discriminate.
Qed.

Lemma readL_value_ambiguous_witness :
  let full := world_with (blit "not enough data" ++ newline :: blit "x") 64 in
  let bare := world_with (blit "x") 64 in
  readL full = (Return not_enough_data, put_content (blit "x") full)
  /\ readL bare = (Return not_enough_data, bare).
Proof.
  intros full bare. split.
  - apply (proj1 (readL_value_ambiguous (blit "x") full)). reflexivity.
  - apply (proj1 (proj2 (readL_value_ambiguous (blit "x") bare))).
    cbn. intros [H|[]]. discriminate H.
Defined.

(** * The helper functions *)

(** ** [rindex] and slices with a negative end *)

Lemma rindex_from_absent (s : pystr) (c : N) :
  ~ In c s -> forall i last, rindex_from s c i last = last.
Proof.
  induction s as [|x rest IH]; intros Hno i last; [reflexivity|].
  cbn [rindex_from]. destruct (N.eqb_spec x c) as [->|Hne].
  - exfalso. apply Hno. left. reflexivity.
  - apply IH. intros Hin. apply Hno. right. exact Hin.
Qed.

Lemma rindex_from_last (pre post : pystr) (c : N) :
  ~ In c post ->
  forall i last,
    rindex_from (pre ++ c :: post) c i last = Some (i + length pre)%nat.
Proof.
  intros Hno. induction pre as [|x pre IH]; intros i last.
  - cbn [app rindex_from length]. rewrite N.eqb_refl.
    rewrite rindex_from_absent by exact Hno. f_equal. lia.
  - cbn [app rindex_from length]. rewrite IH. f_equal. lia.
Qed.

Lemma rindex_last (pre post : pystr) (c : N) :
  ~ In c post -> rindex (pre ++ c :: post) c = Some (length pre).
Proof. intros Hno. unfold rindex. rewrite rindex_from_last by exact Hno. reflexivity. Qed.

Lemma rindex_absent (s : pystr) (c : N) : ~ In c s -> rindex s c = None.
Proof. intros Hno. apply rindex_from_absent. exact Hno. Qed.

Lemma slice_middle {A : Type} (a m b : list A) :
  0 < len b -> slice (a ++ m ++ b) (len a) (- len b) = m.
Proof.
  intros Hb. unfold slice. fold (len (a ++ m ++ b)).
  rewrite !len_app.
  pose proof (len_nonneg a). pose proof (len_nonneg m).
  assert (Hlo : adjust_index (len a) (len a + (len m + len b)) = len a).
  { unfold adjust_index. destruct (Z.ltb_spec (len a) 0); [lia|].
    destruct (Z.ltb_spec (len a + (len m + len b)) (len a)); [lia | reflexivity]. }
  assert (Hhi : adjust_index (- len b) (len a + (len m + len b)) = len a + len m).
  { rewrite adjust_index_negative by lia. lia. }
  rewrite Hlo, Hhi.
  replace (len a + len m - len a) with (len m) by lia.
  unfold len. rewrite !Nat2Z.id.
  rewrite skipn_app, Nat.sub_diag, skipn_all. cbn [app skipn].
  rewrite firstn_app, Nat.sub_diag, firstn_all.
  cbn [firstn]. apply app_nil_r.
Qed.

Lemma slice_empty {A : Type} (s : list A) (lo hi : Z) :
  0 <= lo -> 0 <= hi <= lo -> slice s lo hi = [].
Proof.
  intros Hlo Hhi. unfold slice. fold (len s). pose proof (len_nonneg s) as Hs.
  assert (H : adjust_index hi (len s) - adjust_index lo (len s) <= 0).
  { unfold adjust_index.
    destruct (Z.ltb_spec hi 0); [lia|]. destruct (Z.ltb_spec lo 0); [lia|].
    destruct (Z.ltb_spec (len s) hi); destruct (Z.ltb_spec (len s) lo); lia. }
  destruct (adjust_index hi (len s) - adjust_index lo (len s)) eqn:Hd;
    try reflexivity. lia.
Qed.

Lemma slice_backwards {A : Type} (s : list A) (lo e : Z) :
  0 < e <= len s -> len s - e <= lo -> slice s lo (- e) = [].
Proof.
  intros He Hlo. unfold slice. fold (len s).
  rewrite (adjust_index_negative (- e)) by lia.
  assert (H : Z.max 0 (len s + - e) - adjust_index lo (len s) <= 0).
  { unfold adjust_index. destruct (Z.ltb_spec lo 0); [lia|].
    destruct (Z.ltb_spec (len s) lo); lia. }
  destruct (Z.max 0 (len s + - e) - adjust_index lo (len s)) eqn:Hd;
    try reflexivity. lia.
Qed.

(** ** [fileNameFromPath] *)

(** X11. The name of a file. For a path [dir/name.ext], where [name] has
    no slash and [ext] neither a dot nor a slash, [fileNameFromPath]
    returns [name] and prints nothing; [name] may contain dots and [dir]
    anything. For [name.ext] without any slash it returns [name] too,
    after the line about the missing directory. *)
Theorem fileNameFromPath_name (dir name ext : pystr) :
  ~ In slash name -> ~ In dot ext -> ~ In slash ext ->
  fileNameFromPath (OStr (dir ++ slash :: name ++ dot :: ext)) true
  = (PyStr name, [])
  /\ fileNameFromPath (OStr (name ++ dot :: ext)) true
     = (PyStr name, [no_directory_line (name ++ dot :: ext)]).
Proof.
  intros Hname Hdot Hslash.
  assert (Hext : 0 < len (dot :: ext)).
  { unfold len. cbn [length]. lia. }
  split.
  - unfold fileNameFromPath.
    replace (dir ++ slash :: name ++ dot :: ext)
      with ((dir ++ slash :: name) ++ dot :: ext)
      by (rewrite <- app_assoc; reflexivity).
    rewrite (rindex_last (dir ++ slash :: name) ext dot Hdot).
    rewrite <- app_assoc. cbn [app].
    rewrite (rindex_last dir (name ++ dot :: ext) slash).
    + cbn [app].
      replace (dir ++ slash :: name ++ dot :: ext)
        with ((dir ++ [slash]) ++ name ++ dot :: ext)
        by (rewrite <- app_assoc; reflexivity).
      replace (Z.of_nat (length dir) + 1) with (len (dir ++ [slash]))
        by (rewrite len_app; reflexivity).
      replace (len ((dir ++ [slash]) ++ name ++ dot :: ext)
               - Z.of_nat (length (dir ++ slash :: name)))
        with (len (dot :: ext)).
      * rewrite slice_middle by exact Hext. reflexivity.
      * rewrite !len_app, length_app. unfold len. cbn [length]. lia.
    + intros Hin. apply in_app_or in Hin.
      destruct Hin as [Hin|[Hin|Hin]];
        [exact (Hname Hin) | unfold dot, slash in Hin; discriminate Hin | exact (Hslash Hin)].
  - unfold fileNameFromPath.
    rewrite (rindex_last name ext dot Hdot).
    rewrite (rindex_absent (name ++ dot :: ext) slash).
    + cbn [app].
      replace (len (name ++ dot :: ext) - Z.of_nat (length name))
        with (len (dot :: ext))
        by (rewrite len_app; unfold len; lia).
      change 0 with (len (@nil N)).
      change (name ++ dot :: ext) with ([] ++ name ++ dot :: ext) at 1.
      rewrite slice_middle by exact Hext. reflexivity.
    + intros Hin. apply in_app_or in Hin.
      destruct Hin as [Hin|[Hin|Hin]];
        [exact (Hname Hin) | unfold dot, slash in Hin; discriminate Hin | exact (Hslash Hin)].
Qed.

Lemma fileNameFromPath_name_witness :
  fileNameFromPath (OStr (str "./data" ++ slash :: str "run.1" ++ dot :: str "csv")) true
  = (PyStr (str "run.1"), [])
  /\ fileNameFromPath (OStr (str "run.1" ++ dot :: str "csv")) true
     = (PyStr (str "run.1"), [no_directory_line (str "run.1" ++ dot :: str "csv")]).
Proof.
  destruct (fileNameFromPath_name (str "./data") (str "run.1") (str "csv"))
    as [H1 H2].
  - vm_compute. intuition discriminate.
  - vm_compute. intuition discriminate.
  - vm_compute. intuition discriminate.
  - split; [exact H1 | exact H2].
Defined.

(** X12. When the name comes out empty. With [cropExt] false the result
    is the empty string for every path, and so it is with [cropExt] true
    for a path without a dot: an end index of [-0] is the index 0. The
    result is also empty when the last dot of the path is before its
    last slash, as in [./file]. *)
Theorem fileNameFromPath_empty (path : pystr) :
  fst (fileNameFromPath (OStr path) false) = PyStr []
  /\ (~ In dot path -> fst (fileNameFromPath (OStr path) true) = PyStr [])
  /\ (forall a b c,
         path = a ++ dot :: b ++ slash :: c ->
         ~ In dot b -> ~ In dot c -> ~ In slash c ->
         fileNameFromPath (OStr path) true = (PyStr [], [])).
Proof.
  split; [|split].
  - unfold fileNameFromPath.
    destruct (rindex path slash) as [i|]; cbn [fst]; f_equal;
      apply slice_empty; lia.
  - intros Hno. unfold fileNameFromPath. rewrite (rindex_absent path dot Hno).
    destruct (rindex path slash) as [i|]; cbn [fst]; f_equal;
      apply slice_empty; lia.
  - intros a b c -> Hb Hc Hs. unfold fileNameFromPath.
    rewrite (rindex_last a (b ++ slash :: c) dot).
    + replace (a ++ dot :: b ++ slash :: c) with ((a ++ dot :: b) ++ slash :: c)
        by (rewrite <- app_assoc; reflexivity).
      rewrite (rindex_last (a ++ dot :: b) c slash Hs). cbn [app].
      f_equal. f_equal. apply slice_backwards.
      * unfold len. repeat (rewrite length_app; cbn [length]). lia.
      * unfold len. repeat (rewrite length_app; cbn [length]). lia.
    + intros Hin. apply in_app_or in Hin.
      destruct Hin as [Hin|[Hin|Hin]];
        [exact (Hb Hin) | unfold dot, slash in Hin; discriminate Hin | exact (Hc Hin)].
Qed.

Lemma fileNameFromPath_empty_witness :
  fst (fileNameFromPath (OStr (str "notes")) true) = PyStr []
  /\ fileNameFromPath (OStr (str "./file")) true = (PyStr [], []).
Proof.
  split.
  - apply (proj1 (proj2 (fileNameFromPath_empty (str "notes")))).
    vm_compute. intuition discriminate.
  - apply (proj2 (proj2 (fileNameFromPath_empty (str "./file")))
                 [] [] (str "file") eq_refl).
    + intros [].
    + vm_compute. intuition discriminate.
    + vm_compute. intuition discriminate.
Defined.

(** ** [reorder] *)

Section ReorderFacts.

Context {A : Type}.
Variable none : A.

Lemma list_set_length (l : list A) : forall i v, length (list_set l i v) = length l.
Proof.
  induction l as [|x t IH]; intros i v; [reflexivity|].
  destruct i; cbn [list_set length]; [reflexivity | rewrite IH; reflexivity].
Qed.

Lemma firstn_S_list_set (l : list A) :
  forall i v, (i < length l)%nat ->
              firstn (S i) (list_set l i v) = firstn i l ++ [v].
Proof.
  induction l as [|x t IH]; intros i v Hi; [simpl in Hi; lia|].
  destruct i; [reflexivity|].
  cbn [list_set]. rewrite firstn_cons. rewrite IH by (simpl in Hi; lia).
  reflexivity.
Qed.

Lemma reorder_fill_all (a : list A) (order : list (index_obj A)) :
  forall m k newList vs,
    (k + m = length order)%nat -> length newList = length order ->
    Forall2 (picks a) (skipn k order) vs ->
    reorder_fill a order (seq k m) newList = inl (firstn k newList ++ vs).
Proof.
  induction m as [|m IH]; intros k newList vs Hk Hlen Hvs.
  - rewrite skipn_all2 in Hvs by lia. inversion Hvs.
    cbn [seq reorder_fill]. rewrite app_nil_r, firstn_all2 by lia. reflexivity.
  - destruct (skipn_nth_error order k) as [o [Hnth Hskip]]; [lia|].
    rewrite Hskip in Hvs.
    inversion Hvs as [|o' v os vs' Hpick Hrest]; subst.
    cbn [seq reorder_fill]. rewrite Hnth. unfold picks in Hpick. rewrite Hpick.
    rewrite (IH (S k) (list_set newList k v) vs');
      [| lia | rewrite list_set_length; exact Hlen | exact Hrest].
    rewrite firstn_S_list_set by lia. rewrite <- app_assoc. reflexivity.
Qed.

Lemma reorder_fill_stops (a : list A) (order : list (index_obj A)) :
  forall m k newList before o after e,
    (k + m = length order)%nat ->
    skipn k order = before ++ o :: after ->
    (forall o', In o' before -> exists v, picks a o' v) ->
    gets a o = inr e ->
    reorder_fill a order (seq k m) newList = inr e.
Proof.
  induction m as [|m IH]; intros k newList before o after e Hk Hskip Hbefore He.
  - rewrite skipn_all2 in Hskip by lia. destruct before; discriminate Hskip.
  - destruct (skipn_nth_error order k) as [o0 [Hnth Hskip0]]; [lia|].
    cbn [seq reorder_fill]. rewrite Hnth. rewrite Hskip0 in Hskip.
    destruct before as [|b before'].
    + cbn in Hskip. injection Hskip as -> _. rewrite He. reflexivity.
    + cbn in Hskip. injection Hskip as -> Hrest.
      destruct (Hbefore b (or_introl eq_refl)) as [v Hv].
      unfold picks in Hv. rewrite Hv.
      apply (IH (S k) _ before' o after e); [lia | exact Hrest | | exact He].
      intros o' Ho'. apply Hbefore. right. exact Ho'.
Qed.

Lemma reorder_copy_all (newList : list A) :
  forall m k a,
    (k + m = length newList)%nat -> length a = length newList ->
    reorder_copy none a newList (seq k m) = firstn k a ++ skipn k newList.
Proof.
  induction m as [|m IH]; intros k a Hk Hlen.
  - cbn [seq reorder_copy]. rewrite skipn_all2, firstn_all2, app_nil_r by lia.
    reflexivity.
  - cbn [seq reorder_copy].
    rewrite IH by (rewrite ?list_set_length; lia).
    rewrite firstn_S_list_set by lia.
    destruct (skipn_nth_error newList k) as [v [Hnth Hskip]]; [lia|].
    rewrite Hskip, (nth_error_nth newList k none Hnth), <- app_assoc.
    reflexivity.
Qed.

Lemma reorder_picked (al : list A) (ol : list (index_obj A)) (vs : list A) :
  length al = length ol ->
  Forall2 (picks al) ol vs ->
  reorder none (IsList al) (IsList ol) = (Returned tt, IsList vs, []).
Proof.
  intros Hlen Hvs. unfold reorder. rewrite Hlen, Nat.eqb_refl. cbn [negb].
  unfold range.
  rewrite (reorder_fill_all al ol (length ol) 0 (repeat none (length ol)) vs);
    [| lia | apply repeat_length | exact Hvs].
  assert (Hvl : length vs = length ol).
  { symmetry. eapply Forall2_length. exact Hvs. }
  cbn [firstn app]. rewrite reorder_copy_all by lia. reflexivity.
Qed.

Lemma reorder_stopped (al : list A) (before after : list (index_obj A))
    (o : index_obj A) (e : raised) :
  length al = length (before ++ o :: after) ->
  (forall o', In o' before -> exists v, picks al o' v) ->
  gets al o = inr e ->
  reorder none (IsList al) (IsList (before ++ o :: after))
  = (fst (reorder_except e), IsList al, snd (reorder_except e)).
Proof.
  intros Hlen Hbefore He. unfold reorder. rewrite Hlen, Nat.eqb_refl.
  cbn [negb]. unfold range.
  rewrite (reorder_fill_stops al (before ++ o :: after) _ 0 _ before o after e);
    [reflexivity | lia | reflexivity | exact Hbefore | exact He].
Qed.

Lemma subscript_inside (al : list A) (z : Z) :
  - len al <= z < len al ->
  subscript al z
  = Some (nth (Z.to_nat (if z <? 0 then z + len al else z)) al none).
Proof.
  intros Hz. unfold subscript.
  set (i := if z <? 0 then z + len al else z).
  assert (Hi : 0 <= i < len al).
  { unfold i. destruct (Z.ltb_spec z 0); lia. }
  destruct (Z.ltb_spec i 0); [lia|].
  destruct (Z.leb_spec (len al) i); [lia|]. cbn [orb].
  apply nth_error_nth'. unfold len in Hi. lia.
Qed.

Lemma subscript_outside (al : list A) (z : Z) :
  z < - len al \/ len al <= z -> subscript al z = None.
Proof.
  intros Hz. unfold subscript.
  destruct (Z.ltb_spec z 0).
  - destruct (Z.ltb_spec (z + len al) 0); [reflexivity|].
    destruct (Z.leb_spec (len al) (z + len al)); [reflexivity|]. lia.
  - destruct (Z.ltb_spec z 0); [lia|].
    destruct (Z.leb_spec (len al) z); [reflexivity|]. lia.
Qed.

(** X13. [reorder] is all or nothing. If one of the arguments is not a
    list or the lengths differ, one line is printed and [a] is what it
    was. Otherwise the entries of [order] are used in turn to subscript
    [a], and the first one for which this raises decides: a [TypeError]
    (an object a list cannot be subscripted with) and an [IndexError]
    (an int below [-len(a)] or from [len(a)] on) print their line and
    the call returns, any other exception leaves the call, and in each
    case [a] is what it was. When no entry raises, nothing is printed
    and [a] becomes the list of the values [a[o]], in the order of
    [order]: for an int the element at that index, a negative one
    counting from the end, and for another object that a list accepts
    as a subscript (a slice, an object with [__index__]) the value the
    subscription gives. *)
Theorem reorder_all_or_nothing (a : list_arg A)
    (order : list_arg (index_obj A)) :
  ((forall al ol, a = IsList al -> order = IsList ol -> False) ->
   reorder none a order = (Returned tt, a, [not_lists_line a order]))
  /\ (forall al ol,
         a = IsList al -> order = IsList ol ->
         (length al <> length ol ->
          reorder none a order
          = (Returned tt, a, [lengths_line (length al) (length ol)]))
         /\ (length al = length ol ->
             (forall before o after e,
                 ol = before ++ o :: after ->
                 (forall o', In o' before -> exists v, picks al o' v) ->
                 gets al o = inr e ->
                 reorder none a order
                 = match e with
                   | Other TypeError => (Returned tt, a, [not_integers_line])
                   | Other IndexError => (Returned tt, a, [out_of_bounds_line])
                   | _ => (Raised e, a, [])
                   end)
             /\ (forall vs,
                    Forall2 (picks al) ol vs ->
                    reorder none a order = (Returned tt, IsList vs, [])))
         /\ (forall z,
                (- len al <= z < len al ->
                 gets al (IInt z)
                 = inl (nth (Z.to_nat (if z <? 0 then z + len al else z))
                            al none))
                /\ (z < - len al \/ len al <= z ->
                    gets al (IInt z) = inr (Other IndexError)))
         /\ gets al INotInt = inr (Other TypeError)
         /\ (forall get, gets al (IObj get) = get al)).
Proof.
  split.
  { intros Hnot. destruct a as [al|sa]; [|reflexivity].
    destruct order as [ol|so]; [|reflexivity].
    destruct (Hnot al ol eq_refl eq_refl). }
  intros al ol -> ->. split.
  { intros Hlen. unfold reorder.
    destruct (Nat.eqb_spec (length al) (length ol)) as [Heq|_];
      [contradiction | reflexivity]. }
  split.
  { intros Hlen. split.
    - intros before o after e -> Hbefore He.
      rewrite (reorder_stopped al before after o e Hlen Hbefore He).
      destruct e as [|[]]; reflexivity.
    - intros vs Hvs. apply reorder_picked; assumption. }
  split.
  { intros z. split; intros Hz; cbn [gets].
    - rewrite (subscript_inside al z Hz). reflexivity.
    - rewrite (subscript_outside al z Hz). reflexivity. }
  split; [reflexivity|]. intros get. reflexivity.
Qed.

Lemma picks_map (al : list A) (p : list nat) :
  (forall i, In i p -> (i < length al)%nat) ->
  Forall2 (picks al) (List.map (fun i => IInt (Z.of_nat i)) p)
          (List.map (fun i => nth i al none) p).
Proof.
  induction p as [|i p IH]; intros Hp; [constructor|].
  cbn [List.map]. constructor.
  - unfold picks. cbn [gets].
    pose proof (Hp i (or_introl eq_refl)) as Hi.
    rewrite (subscript_inside al (Z.of_nat i)) by (unfold len; lia).
    destruct (Z.ltb_spec (Z.of_nat i) 0); [lia|].
    rewrite Nat2Z.id. reflexivity.
  - apply IH. intros j Hj. apply Hp. right. exact Hj.
Qed.

Lemma map_nth_all (al : list A) :
  List.map (fun i => nth i al none) (seq 0 (length al)) = al.
Proof.
  induction al as [|x t IH]; [reflexivity|].
  cbn [length seq List.map nth]. f_equal.
  rewrite <- seq_shift, map_map. exact IH.
Qed.

(** X14. With a permutation of the indices as [order], [reorder]
    returns, prints nothing and leaves in [a] the element [a[order[i]]]
    at each index [i]: the same elements as before, rearranged. *)
Theorem reorder_permutation (al : list A) (p : list nat) :
  Permutation p (seq 0 (length al)) ->
  reorder none (IsList al) (IsList (List.map (fun i => IInt (Z.of_nat i)) p))
  = (Returned tt, IsList (List.map (fun i => nth i al none) p), [])
  /\ Permutation al (List.map (fun i => nth i al none) p).
Proof.
  intros Hp.
  assert (Hrange : forall i, In i p -> (i < length al)%nat).
  { intros i Hi. apply (Permutation_in _ Hp), in_seq in Hi. lia. }
  split.
  - apply reorder_picked.
    + rewrite length_map, (Permutation_length Hp), length_seq. reflexivity.
    + apply picks_map. exact Hrange.
  - rewrite <- (map_nth_all al) at 1. apply Permutation_map.
    symmetry. exact Hp.
Qed.

End ReorderFacts.

Lemma reorder_all_or_nothing_witness :
  let a := [Num 97; Num 98; Num 99] in
  reorder (Num 0) (IsList a) (IsList [slice_obj 0 1; IInt 0; IInt 1])
  = (Returned tt, IsList [Lst [Num 97]; Num 97; Num 98], [])
  /\ reorder (Num 0) (IsList a) (IsList [IInt 0; INotInt; IInt 7])
     = (Returned tt, IsList a, [not_integers_line])
  /\ reorder (Num 0) (IsList a) (IsList [IInt (-1); IInt 3; INotInt])
     = (Returned tt, IsList a, [out_of_bounds_line])
  /\ reorder (Num 0) (IsList a) (IsList [IInt 1; failing_index; IInt 0])
     = (Raised ValueError, IsList a, [])
  /\ reorder (Num 0) (IsList a) (IsList [IInt 0])
     = (Returned tt, IsList a, [lengths_line 3 1])
  /\ reorder (Num 0) (NotList (str "<class 'tuple'>")) (IsList [IInt 0])
     = (Returned tt, NotList (str "<class 'tuple'>"),
        [not_lists_line (NotList (str "<class 'tuple'>"))
                        (IsList [@IInt pyitem 0])]).
Proof.
  intros a.
  pose proof (fun order =>
    proj2 (reorder_all_or_nothing (Num 0) (IsList a) (IsList order))
          a order eq_refl eq_refl) as H.
  split.
  { apply (proj2 (proj1 (proj2 (H [slice_obj 0 1; IInt 0; IInt 1])) eq_refl)).
    repeat constructor. }
  split.
  { apply (proj1 (proj1 (proj2 (H [IInt 0; INotInt; IInt 7])) eq_refl)
                 [IInt 0] INotInt [IInt 7] (Other TypeError) eq_refl).
    - intros o' [<-|[]]. exists (Num 97). reflexivity.
    - reflexivity. }
  split.
  { apply (proj1 (proj1 (proj2 (H [IInt (-1); IInt 3; INotInt])) eq_refl)
                 [IInt (-1)] (IInt 3) [INotInt] (Other IndexError) eq_refl).
    - intros o' [<-|[]]. exists (Num 99). reflexivity.
    - reflexivity. }
  split.
  { apply (proj1 (proj1 (proj2 (H [IInt 1; failing_index; IInt 0])) eq_refl)
                 [IInt 1] failing_index [IInt 0] ValueError eq_refl).
    - intros o' [<-|[]]. exists (Num 98). reflexivity.
    - reflexivity. }
  split.
  { apply (proj1 (H [IInt 0])). cbn. discriminate. }
  apply (proj1 (reorder_all_or_nothing (Num 0) (NotList (str "<class 'tuple'>"))
                                       (IsList [IInt 0]))).
  intros al ol Ha. discriminate Ha.
Defined.

Lemma reorder_permutation_witness :
  reorder 0%N (IsList [97; 98; 99]%N) (IsList [IInt 2; IInt 0; IInt 1])
  = (Returned tt, IsList [99; 97; 98]%N, [])
  /\ Permutation [97; 98; 99]%N [99; 97; 98]%N.
Proof.
  apply (reorder_permutation 0%N [97; 98; 99]%N [2; 0; 1]%nat).
  cbn [length seq].
  apply Permutation_sym. apply (perm_trans (l' := [0; 2; 1]%nat)).
  - apply perm_skip. apply perm_swap.
  - apply perm_swap.
Defined.

(** ** [removeFromLists] *)

Section RemoveFromListsFacts.

Context {A : Type}.
Variable eqb : A -> A -> bool.

Lemma count_pos_index (item : A) (l : list A) :
  (0 < count eqb item l)%nat ->
  exists i, index eqb item l = Some i /\ (i < length l)%nat.
Proof.
  induction l as [|x t IH]; cbn [count index length]; [lia|].
  destruct (eqb x item).
  - intros _. exists O. split; [reflexivity | lia].
  - intros Hc. destruct (IH Hc) as [i [Hi Hlt]]. exists (S i).
    rewrite Hi. split; [reflexivity | lia].
Qed.

Lemma pop_in_range (l : list A) :
  forall i, (i < length l)%nat ->
            exists l', pop l i = Some l' /\ S (length l') = length l.
Proof.
  induction l as [|x t IH]; intros i Hi; [simpl in Hi; lia|].
  destruct i; cbn [pop length].
  - exists t. split; reflexivity.
  - destruct (IH i) as [t' [Ht Hlen]]; [simpl in Hi; lia|].
    exists (x :: t'). rewrite Ht. cbn. split; [reflexivity | lia].
Qed.

Lemma remove_is_pop (item : A) (l : list A) :
  forall i, index eqb item l = Some i -> remove eqb item l = pop l i.
Proof.
  induction l as [|x t IH]; intros i; cbn [index remove]; [discriminate|].
  destruct (eqb x item).
  - intros Heq. apply Some_eq in Heq. subst i. reflexivity.
  - destruct (index eqb item t) as [j|]; [|discriminate].
    cbn [option_map]. intros Heq. apply Some_eq in Heq. subst i.
    cbn [pop]. rewrite (IH j eq_refl). reflexivity.
Qed.

Lemma keep_where_all (item : A) (l0 : list A) :
  count eqb item l0 = O ->
  forall l, length l = length l0 -> keep_where eqb item l0 l = l.
Proof.
  induction l0 as [|x t0 IH]; intros Hc l Hlen.
  - destruct l; [reflexivity | discriminate Hlen].
  - destruct l as [|y t]; [discriminate Hlen|].
    cbn [count keep_where] in *. destruct (eqb x item); [discriminate Hc|].
    rewrite IH; [reflexivity | exact Hc | injection Hlen as Hlen; exact Hlen].
Qed.

Lemma keep_where_pop (item : A) (l0 : list A) :
  forall i l0' l l',
    index eqb item l0 = Some i ->
    pop l0 i = Some l0' -> pop l i = Some l' ->
    keep_where eqb item l0' l' = keep_where eqb item l0 l.
Proof.
  induction l0 as [|x t0 IH]; intros i l0' l l'; cbn [index]; [discriminate|].
  destruct (eqb x item) eqn:Hx.
  - intros Heq. apply Some_eq in Heq. subst i.
    destruct l as [|y t]; cbn [pop]; [discriminate|].
    intros H0 H1. apply Some_eq in H0. apply Some_eq in H1. subst.
    cbn [keep_where]. rewrite Hx. reflexivity.
  - destruct (index eqb item t0) as [j|] eqn:Hj; [|discriminate].
    cbn [option_map]. intros Heq. apply Some_eq in Heq. subst i.
    destruct l as [|y t]; cbn [pop]; [discriminate|].
    destruct (pop t0 j) as [t0'|] eqn:H0; [|discriminate].
    destruct (pop t j) as [t'|] eqn:H1; [|discriminate].
    cbn [option_map]. intros E0 E1. apply Some_eq in E0. apply Some_eq in E1.
    subst. cbn [keep_where]. rewrite Hx. f_equal.
    apply (IH j t0' t t' eq_refl H0 H1).
Qed.

Lemma count_keep_where (item : A) (l0 : list A) :
  count eqb item (keep_where eqb item l0 l0) = O.
Proof.
  induction l0 as [|x t IH]; [reflexivity|].
  cbn [keep_where]. destruct (eqb x item) eqn:Hx; [exact IH|].
  cbn [count]. rewrite Hx. exact IH.
Qed.

Lemma heap_set_same (h : @heap A) r l : heap_set h r l r = l.
Proof. unfold heap_set. rewrite Nat.eqb_refl. reflexivity. Qed.

Lemma heap_set_other (h : @heap A) r l r' : r' <> r -> heap_set h r l r' = h r'.
Proof.
  intros Hne. unfold heap_set.
  destruct (Nat.eqb_spec r' r); [contradiction | reflexivity].
Qed.

Lemma pop_rest_distinct (i : nat) (rs : list nat) :
  NoDup rs ->
  forall h : @heap A,
    (forall r, In r rs -> (i < length (h r))%nat) ->
    exists h1,
      pop_rest h (List.map EList rs) i = (Returned tt, h1)
      /\ (forall r, In r rs -> pop (h r) i = Some (h1 r))
      /\ (forall r, ~ In r rs -> h1 r = h r).
Proof.
  intros Hnd. induction Hnd as [|r rs Hr Hnd IH]; intros h Hlen.
  - exists h. split; [reflexivity|]. split; [intros r []|reflexivity].
  - cbn [List.map pop_rest].
    destruct (pop_in_range (h r) i) as [l' [Hpop _]];
      [apply Hlen; left; reflexivity|].
    rewrite Hpop.
    destruct (IH (heap_set h r l')) as [h1 [Hrun [Hin Hout]]].
    { intros r' Hr'. rewrite heap_set_other by (intros ->; contradiction).
      apply Hlen. right. exact Hr'. }
    exists h1. split; [exact Hrun|]. split.
    + intros r' [<-|Hr'].
      * rewrite (Hout r Hr), heap_set_same. exact Hpop.
      * rewrite <- (Hin r' Hr').
        rewrite heap_set_other by (intros ->; contradiction). reflexivity.
    + intros r' Hr'. rewrite (Hout r') by (intros H; apply Hr'; right; exact H).
      apply heap_set_other. intros ->. apply Hr'. left. reflexivity.
Qed.

Lemma pop_while_done fuel item first rest (h : @heap A) :
  count eqb item (h first) = O ->
  pop_while eqb fuel item first rest h = (Returned tt, h).
Proof. intros Hc. destruct fuel; cbn [pop_while]; rewrite Hc; reflexivity. Qed.

Lemma remove_while_done fuel item first (h : @heap A) :
  count eqb item (h first) = O ->
  remove_while eqb fuel item first h = (Returned tt, h).
Proof. intros Hc. destruct fuel; cbn [remove_while]; rewrite Hc; reflexivity. Qed.

Lemma pop_while_removes (item : A) (first : nat) (rs : list nat) :
  NoDup (first :: rs) ->
  forall fuel (h : @heap A),
    (forall r, In r rs -> length (h r) = length (h first)) ->
    (length (h first) <= fuel)%nat ->
    exists h',
      pop_while eqb fuel item first (List.map EList rs) h = (Returned tt, h')
      /\ (forall r, In r (first :: rs) ->
                    h' r = keep_where eqb item (h first) (h r))
      /\ (forall r, ~ In r (first :: rs) -> h' r = h r).
Proof.
  intros Hnd. inversion Hnd as [|? ? Hfirst Hrs]; subst.
  induction fuel as [|fuel IH]; intros h Hlen Hfuel.
  - assert (Hc : count eqb item (h first) = O).
    { destruct (h first); [reflexivity | simpl in Hfuel; lia]. }
    exists h. rewrite pop_while_done by exact Hc.
    split; [reflexivity|]. split; [|reflexivity].
    intros r [<-|Hr]; symmetry; apply keep_where_all; auto.
  - destruct (count eqb item (h first)) as [|c] eqn:Hc.
    { exists h. rewrite pop_while_done by exact Hc.
      split; [reflexivity|]. split; [|reflexivity].
      intros r [<-|Hr]; symmetry; apply keep_where_all; auto. }
    destruct (count_pos_index item (h first)) as [i [Hi Hlt]]; [lia|].
    destruct (pop_in_range (h first) i Hlt) as [l0' [Hpop Hl0']].
    destruct (pop_rest_distinct i rs Hrs (heap_set h first l0')) as
        [h1 [Hrun [Hin Hout]]].
    { intros r Hr. rewrite heap_set_other by (intros ->; contradiction).
      rewrite (Hlen r Hr). exact Hlt. }
    assert (H1first : h1 first = l0').
    { rewrite (Hout first Hfirst). apply heap_set_same. }
    assert (Hpopr : forall r, In r rs -> pop (h r) i = Some (h1 r)).
    { intros r Hr. rewrite <- (Hin r Hr).
      rewrite heap_set_other by (intros ->; contradiction). reflexivity. }
    destruct (IH h1) as [h' [Hrun' [Hin' Hout']]].
    { intros r Hr. rewrite H1first.
      destruct (pop_in_range (h r) i) as [l' [Hp Hl']];
        [rewrite (Hlen r Hr); exact Hlt|].
      rewrite (Hpopr r Hr) in Hp. apply Some_eq in Hp. subst l'.
      rewrite <- (Hlen r Hr) in Hl0'. lia. }
    { rewrite H1first. lia. }
    exists h'. split; [|split].
    + cbn [pop_while]. rewrite Hc. cbn [Nat.ltb Nat.leb].
      rewrite Hi, Hpop, Hrun. exact Hrun'.
    + intros r Hr. rewrite (Hin' r Hr), H1first.
      destruct Hr as [<-|Hr].
      * rewrite H1first. apply (keep_where_pop item (h first) i); assumption.
      * apply (keep_where_pop item (h first) i); [assumption..|].
        apply Hpopr. exact Hr.
    + intros r Hr. rewrite (Hout' r Hr).
      rewrite (Hout r) by (intros H; apply Hr; right; exact H).
      apply heap_set_other. intros ->. apply Hr. left. reflexivity.
Qed.

Lemma remove_while_removes (item : A) (first : nat) :
  forall fuel (h : @heap A),
    (length (h first) <= fuel)%nat ->
    exists h',
      remove_while eqb fuel item first h = (Returned tt, h')
      /\ h' first = keep_where eqb item (h first) (h first)
      /\ (forall r, r <> first -> h' r = h r).
Proof.
  induction fuel as [|fuel IH]; intros h Hfuel.
  - assert (Hc : count eqb item (h first) = O).
    { destruct (h first); [reflexivity | simpl in Hfuel; lia]. }
    exists h. rewrite remove_while_done by exact Hc.
    split; [reflexivity|]. split; [|reflexivity].
    symmetry. apply keep_where_all; auto.
  - destruct (count eqb item (h first)) as [|c] eqn:Hc.
    { exists h. rewrite remove_while_done by exact Hc.
      split; [reflexivity|]. split; [|reflexivity].
      symmetry. apply keep_where_all; auto. }
    destruct (count_pos_index item (h first)) as [i [Hi Hlt]]; [lia|].
    destruct (pop_in_range (h first) i Hlt) as [l0' [Hpop Hl0']].
    destruct (IH (heap_set h first l0')) as [h' [Hrun [Hf Ho]]].
    { rewrite heap_set_same. lia. }
    exists h'. split; [|split].
    + cbn [remove_while]. rewrite Hc. cbn [Nat.ltb Nat.leb].
      rewrite (remove_is_pop item (h first) i Hi), Hpop. exact Hrun.
    + rewrite Hf, heap_set_same.
      apply (keep_where_pop item (h first) i); assumption.
    + intros r Hr. rewrite (Ho r Hr). apply heap_set_other. exact Hr.
Qed.

Lemma check_rest_passes (h : @heap A) (n : nat) (rs : list nat) :
  (forall r, In r rs -> length (h r) = n) ->
  check_rest h n (List.map EList rs) = None.
Proof.
  induction rs as [|r rs IH]; intros Hlen; [reflexivity|].
  cbn [List.map check_rest]. rewrite (Hlen r (or_introl eq_refl)).
  rewrite Nat.eqb_refl. cbn [negb]. apply IH.
  intros r' Hr'. apply Hlen. right. exact Hr'.
Qed.

Lemma check_rest_fails (h : @heap A) (n : nat) (rest : list tuple_elem) :
  In ENotList rest \/ (exists r, In (EList r) rest /\ length (h r) <> n) ->
  exists line, check_rest h n rest = Some line.
Proof.
  induction rest as [|e rest IH]; intros Hbad.
  - destruct Hbad as [[]|[r [[] _]]].
  - cbn [check_rest]. destruct e as [r|]; [|eexists; reflexivity].
    destruct (Nat.eqb_spec (length (h r)) n) as [Heq|Hne]; cbn [negb];
      [|eexists; reflexivity].
    apply IH. destruct Hbad as [[Hd|Hin]|[r' [[Hd|Hin] Hlen]]].
    + discriminate Hd.
    + left. exact Hin.
    + injection Hd as <-. contradiction.
    + right. exists r'. split; assumption.
Qed.

(** X15. What [removeFromLists] removes. For a tuple of distinct list
    objects of one length, the call returns normally and prints
    nothing; every list of the tuple keeps exactly the elements at the
    positions where the first list did not hold [item], in their order;
    the first list no longer holds [item]; no other list changes. *)
Theorem removeFromLists_removes (item : A) (first : nat) (rs : list nat)
    (h : @heap A) :
  NoDup (first :: rs) ->
  (forall r, In r rs -> length (h r) = length (h first)) ->
  exists h',
    removeFromLists eqb item (Tuple (FList first) (List.map EList rs)) h
    = (Returned tt, h', [])
    /\ (forall r, In r (first :: rs) ->
                  h' r = keep_where eqb item (h first) (h r))
    /\ (forall r, ~ In r (first :: rs) -> h' r = h r)
    /\ count eqb item (h' first) = O.
Proof.
  intros Hnd Hlen. unfold removeFromLists.
  rewrite check_rest_passes by exact Hlen.
  destruct rs as [|r0 rs'].
  - cbn [List.map].
    destruct (remove_while_removes item first (length (h first)) h (le_n _))
      as [h' [Hrun [Hf Ho]]].
    exists h'. rewrite Hrun. split; [reflexivity|]. split; [|split].
    + intros r [<-|[]]. exact Hf.
    + intros r Hr. apply Ho. intros ->. apply Hr. left. reflexivity.
    + rewrite Hf. apply count_keep_where.
  - destruct (pop_while_removes item first (r0 :: rs') Hnd
                                (length (h first)) h Hlen (le_n _))
      as [h' [Hrun [Hin Hout]]].
    exists h'. cbn [List.map] in *. rewrite Hrun.
    split; [reflexivity|]. split; [exact Hin|]. split; [exact Hout|].
    rewrite (Hin first (or_introl eq_refl)). apply count_keep_where.
Qed.

Lemma check_rest_line (h : @heap A) (n : nat) (rest : list tuple_elem) line :
  check_rest h n rest = Some line ->
  line = str "Lists must be a tuple of lists."
  \/ line = str "Lists are not of the same length.".
Proof.
  induction rest as [|e rest IH]; cbn [check_rest]; [discriminate|].
  destruct e as [r|].
  - destruct (negb (length (h r) =? n)%nat).
    + intros H. right. injection H as <-. reflexivity.
    + exact IH.
  - intros H. left. injection H as <-. reflexivity.
Qed.

(** X16. What [removeFromLists] refuses, and what it does not test.
    When [lists] is not a tuple or is empty, one line is printed, the
    call returns normally and no list has changed. The first element
    of the tuple is never tested: its length is taken first, and when
    [len] raises on it (an int has no length) the call raises that
    exception, whatever the other elements are, with nothing printed
    and no list changed. When the length of the first element can be
    taken, an element after the first that is not a list, or a list
    after the first of another length, makes the call print one of the
    two lines and return with no list changed. A first element that is
    not a list, has a length and holds [item] passes the checks and the
    call raises [AttributeError] at the first removal. *)
Theorem removeFromLists_refuses (item : A) (h : @heap A) :
  removeFromLists eqb item NotTuple h
  = (Returned tt, h, [str "Lists must be a tuple of lists."])
  /\ removeFromLists eqb item EmptyTuple h
     = (Returned tt, h, [str "No lists given to remove the item from."])
  /\ (forall o rest e,
         obj_len o = inr e ->
         removeFromLists eqb item (Tuple (FOther o) rest) h = (Raised e, h, []))
  /\ (forall first rest,
         In ENotList rest
         \/ (exists r, In (EList r) rest /\ length (h r) <> length (h first)) ->
         exists line,
           removeFromLists eqb item (Tuple (FList first) rest) h
           = (Returned tt, h, [line])
           /\ (line = str "Lists must be a tuple of lists."
               \/ line = str "Lists are not of the same length."))
  /\ (forall o n rest,
         obj_len o = inl n ->
         In ENotList rest
         \/ (exists r, In (EList r) rest /\ length (h r) <> n) ->
         exists line,
           removeFromLists eqb item (Tuple (FOther o) rest) h
           = (Returned tt, h, [line])
           /\ (line = str "Lists must be a tuple of lists."
               \/ line = str "Lists are not of the same length."))
  /\ (forall o n k rs,
         obj_len o = inl n ->
         obj_count o item = inl (S k) ->
         (forall r, In r rs -> length (h r) = n) ->
         (rs = [] \/ exists i, obj_index o item = inl i) ->
         removeFromLists eqb item (Tuple (FOther o) (List.map EList rs)) h
         = (Raised (Other AttributeError), h, [])).
Proof.
  split; [reflexivity|]. split; [reflexivity|].
  split.
  { intros o rest e He. cbn [removeFromLists]. rewrite He. reflexivity. }
  split.
  { intros first rest Hbad. cbn [removeFromLists].
    destruct (check_rest_fails h (length (h first)) rest Hbad) as [line Hline].
    rewrite Hline. exists line. split; [reflexivity|].
    exact (check_rest_line h _ rest line Hline). }
  split.
  { intros o n rest Hn Hbad. cbn [removeFromLists]. rewrite Hn.
    destruct (check_rest_fails h n rest Hbad) as [line Hline].
    rewrite Hline. exists line. split; [reflexivity|].
    exact (check_rest_line h _ rest line Hline). }
  intros o n k rs Hn Hk Hlen Hrs. cbn [removeFromLists]. rewrite Hn.
  rewrite check_rest_passes by exact Hlen.
  unfold other_while. rewrite Hk.
  destruct rs as [|r rs']; [reflexivity|]. cbn [List.map].
  destruct Hrs as [Hrs|[i Hi]]; [discriminate Hrs|]. rewrite Hi. reflexivity.
Qed.

End RemoveFromListsFacts.

Lemma removeFromLists_removes_witness :
  let h : @heap N :=
    fun r => match r with
             | 0%nat => [1; 2; 1; 3]%N
             | 1%nat => [10; 20; 30; 40]%N
             | 2%nat => [5; 6; 7; 8]%N
             | _ => []
             end in
  exists h',
    removeFromLists N.eqb 1%N (Tuple (FList 0) [EList 1; EList 2]) h = (Returned tt, h', [])
    /\ h' 0%nat = [2; 3]%N /\ h' 1%nat = [20; 40]%N /\ h' 2%nat = [6; 8]%N
    /\ h' 3%nat = h 3%nat.
Proof.
  intros h.
  destruct (removeFromLists_removes N.eqb 1%N 0%nat [1; 2]%nat h)
    as [h' [Hrun [Hin [Hout _]]]].
  - repeat constructor; cbn; intuition discriminate.
  - intros r [<-|[<-|[]]]; reflexivity.
  - exists h'. split; [exact Hrun|].
    rewrite (Hin 0%nat), (Hin 1%nat), (Hin 2%nat), (Hout 3%nat);
      cbn; intuition discriminate.
Defined.

Lemma removeFromLists_refuses_witness :
  let h : @heap N :=
    fun r => match r with
             | 0%nat => [1; 2; 1; 3]%N
             | 1%nat => [10; 20; 30]%N
             | _ => []
             end in
  removeFromLists N.eqb 1%N (Tuple (FOther int_obj) [ENotList]) h
  = (Raised (Other TypeError), h, [])
  /\ (exists line,
         removeFromLists N.eqb 1%N (Tuple (FList 0) [EList 1]) h
         = (Returned tt, h, [line])
         /\ (line = str "Lists must be a tuple of lists."
             \/ line = str "Lists are not of the same length."))
  /\ (exists line,
         removeFromLists N.eqb 1%N (Tuple (FOther (tuple_obj 3 1 0)) [ENotList]) h
         = (Returned tt, h, [line])
         /\ (line = str "Lists must be a tuple of lists."
             \/ line = str "Lists are not of the same length."))
  /\ removeFromLists N.eqb 1%N (Tuple (FOther (tuple_obj 3 1 0)) [EList 1]) h
     = (Raised (Other AttributeError), h, []).
Proof.
  intros h. split; [|split; [|split]].
  - apply (proj1 (proj2 (proj2 (removeFromLists_refuses N.eqb 1%N h)))
                 int_obj [ENotList] (Other TypeError)).
    reflexivity.
  - apply (proj1 (proj2 (proj2 (proj2 (removeFromLists_refuses N.eqb 1%N h))))
                 0%nat [EList 1]).
    right. exists 1%nat. split; [left; reflexivity | cbn; discriminate].
  - apply (proj1 (proj2 (proj2 (proj2 (proj2
             (removeFromLists_refuses N.eqb 1%N h)))))
                 (tuple_obj 3 1 0) 3%nat [ENotList] eq_refl).
    left. left. reflexivity.
  - apply (proj2 (proj2 (proj2 (proj2 (proj2
             (removeFromLists_refuses N.eqb 1%N h)))))
                 (tuple_obj 3 1 0) 3%nat 0%nat [1%nat] eq_refl eq_refl).
    + intros r [<-|[]]. reflexivity.
    + right. exists 0%nat. reflexivity.
Defined.

(** ** [timeToSeconds] *)

Ltac solve_adjust :=
  unfold adjust_index;
  repeat match goal with
         | |- context [Z.ltb ?x ?y] => destruct (Z.ltb_spec x y)
         end; lia.

Lemma slice_parts {A : Type} (a m b : list A) (lo hi : Z) :
  adjust_index lo (len (a ++ m ++ b)) = len a ->
  adjust_index hi (len (a ++ m ++ b)) = len a + len m ->
  slice (a ++ m ++ b) lo hi = m.
Proof.
  intros Hlo Hhi. unfold slice. fold (len (a ++ m ++ b)). rewrite Hlo, Hhi.
  replace (len a + len m - len a) with (len m) by lia.
  unfold len. rewrite !Nat2Z.id.
  rewrite skipn_app, Nat.sub_diag, skipn_all. cbn [app skipn].
  rewrite firstn_app, Nat.sub_diag, firstn_all.
  cbn [firstn]. apply app_nil_r.
Qed.

Lemma subscript_from_end {A : Type} (a b : list A) (c : A) :
  subscript (a ++ c :: b) (- (len b + 1)) = Some c.
Proof.
  unfold subscript. rewrite len_app.
  replace (len (c :: b)) with (len b + 1) by (unfold len; cbn [length]; lia).
  pose proof (len_nonneg a). pose proof (len_nonneg b).
  destruct (Z.ltb_spec (- (len b + 1)) 0); [|lia].
  replace (- (len b + 1) + (len a + (len b + 1))) with (len a) by lia.
  destruct (Z.ltb_spec (len a) 0); [lia|].
  destruct (Z.leb_spec (len a + (len b + 1)) (len a)); [lia|].
  cbn [orb]. unfold len. rewrite Nat2Z.id.
  rewrite nth_error_app2 by lia. rewrite Nat.sub_diag. reflexivity.
Qed.

Lemma subscript_short {A : Type} (t : list A) (k : Z) :
  len t < k -> subscript t (- k) = None.
Proof.
  intros Hk. unfold subscript. pose proof (len_nonneg t).
  destruct (Z.ltb_spec (- k) 0); [|lia].
  destruct (Z.ltb_spec (- k + len t) 0); [reflexivity | lia].
Qed.

Section TimeToSecondsFacts.

Variable py_int : pystr -> option Z.

Lemma timeToSeconds_two_fields (t : pystr) :
  subscript t (-3) = Some colon ->
  len t < 6 ->
  timeToSeconds py_int (OStr t)
  = match py_int (slice t (-2) (len t)) with
    | None => (Raised ValueError, [])
    | Some s =>
        match py_int (slice t (-5) (-3)) with
        | None => (Raised ValueError, [])
        | Some m => (Returned (Some (s + 60 * m)), [])
        end
    end.
Proof.
  intros H3 Hlen. unfold timeToSeconds. rewrite H3, N.eqb_refl.
  destruct (Z.leb_spec 6 (len t)); [lia|]. reflexivity.
Qed.

Lemma timeToSeconds_three_fields (t : pystr) :
  subscript t (-3) = Some colon ->
  subscript t (-6) = Some colon ->
  6 <= len t ->
  timeToSeconds py_int (OStr t)
  = match py_int (slice t (-2) (len t)) with
    | None => (Raised ValueError, [])
    | Some s =>
        match py_int (slice t (-5) (-3)) with
        | None => (Raised ValueError, [])
        | Some m =>
            match py_int (slice t 0 (-6)) with
            | None => (Raised ValueError, [])
            | Some h => (Returned (Some (s + 60 * m + 3600 * h)), [])
            end
        end
    end.
Proof.
  intros H3 H6 Hlen. unfold timeToSeconds. rewrite H3, H6, N.eqb_refl.
  destruct (Z.leb_spec 6 (len t)); [|lia]. reflexivity.
Qed.

Lemma time_fields (a mm ss : pystr) :
  len ss = 2 -> adjust_index (-5) (len (a ++ mm ++ colon :: ss)) = len a ->
  subscript (a ++ mm ++ colon :: ss) (-3) = Some colon
  /\ slice (a ++ mm ++ colon :: ss) (-2) (len (a ++ mm ++ colon :: ss)) = ss
  /\ slice (a ++ mm ++ colon :: ss) (-5) (-3) = mm.
Proof.
  intros Hss Hlo.
  pose proof (len_nonneg a) as Ha. pose proof (len_nonneg mm) as Hm.
  assert (Hlen : len (a ++ mm ++ colon :: ss) = len a + len mm + 3).
  { rewrite !len_app. unfold len in *. cbn [length]. lia. }
  split; [|split].
  - rewrite app_assoc. replace (-3) with (- (len ss + 1)) by lia.
    apply subscript_from_end.
  - replace (a ++ mm ++ colon :: ss) with ((a ++ mm ++ [colon]) ++ ss ++ []) at 1
      by (rewrite app_nil_r, <- !app_assoc; reflexivity).
    apply slice_parts.
    + rewrite app_nil_r, <- !app_assoc. cbn [app]. rewrite Hlen.
      rewrite !len_app. change (len [colon]) with 1. solve_adjust.
    + rewrite app_nil_r, <- !app_assoc. cbn [app]. rewrite Hlen.
      rewrite !len_app. change (len [colon]) with 1. solve_adjust.
  - apply slice_parts.
    + exact Hlo.
    + rewrite Hlen. solve_adjust.
Qed.

(** X17. The fields of a time. With two characters [ss] after the last
    colon: for [m:ss] or [mm:ss] the result is [int(ss) + 60 * int(mm)],
    and for [h:mm:ss], with two characters [mm] and any number of
    characters [h], it is [int(ss) + 60 * int(mm) + 3600 * int(h)];
    nothing is printed. The values of the fields are not bounded. *)
Theorem timeToSeconds_fields (h mm ss : pystr) (sv mv : Z) :
  len ss = 2 ->
  py_int ss = Some sv ->
  py_int mm = Some mv ->
  (len mm <= 2 ->
   timeToSeconds py_int (OStr (mm ++ colon :: ss))
   = (Returned (Some (sv + 60 * mv)), []))
  /\ (len mm = 2 ->
      forall hv,
        py_int h = Some hv ->
        timeToSeconds py_int (OStr (h ++ colon :: mm ++ colon :: ss))
        = (Returned (Some (sv + 60 * mv + 3600 * hv)), [])).
Proof.
  intros Hss Hsv Hmv.
  pose proof (len_nonneg mm) as Hmm0. pose proof (len_nonneg h) as Hh0.
  split.
  - intros Hmm.
    assert (Hlen : len (mm ++ colon :: ss) = len mm + 3).
    { rewrite len_app. unfold len in *. cbn [length]. lia. }
    destruct (time_fields [] mm ss Hss) as [H3 [H2 H5]].
    { cbn [app]. rewrite Hlen. change (len (@nil N)) with 0. solve_adjust. }
    cbn [app] in *.
    rewrite timeToSeconds_two_fields by (try exact H3; lia).
    rewrite H2, Hsv, H5, Hmv. reflexivity.
  - intros Hmm hv Hhv.
    assert (Hlen : len ((h ++ [colon]) ++ mm ++ colon :: ss) = len h + 6).
    { rewrite !len_app. unfold len in *. cbn [length]. lia. }
    destruct (time_fields (h ++ [colon]) mm ss Hss) as [H3 [H2 H5]].
    { rewrite Hlen, len_app. change (len [colon]) with 1. solve_adjust. }
    assert (H6 : subscript ((h ++ [colon]) ++ mm ++ colon :: ss) (-6) = Some colon).
    { rewrite <- app_assoc. cbn [app].
      replace (-6) with (- (len (mm ++ colon :: ss) + 1))
        by (rewrite len_app; unfold len in *; cbn [length]; lia).
      apply subscript_from_end. }
    assert (H0 : slice ((h ++ [colon]) ++ mm ++ colon :: ss) 0 (-6) = h).
    { rewrite <- app_assoc.
      apply (slice_parts [] h ([colon] ++ mm ++ colon :: ss)); cbn [app].
      - rewrite <- app_assoc in Hlen. cbn [app] in Hlen. rewrite Hlen.
        change (len (@nil N)) with 0. solve_adjust.
      - rewrite <- app_assoc in Hlen. cbn [app] in Hlen. rewrite Hlen.
        change (len (@nil N)) with 0. solve_adjust. }
    replace (h ++ colon :: mm ++ colon :: ss)
      with ((h ++ [colon]) ++ mm ++ colon :: ss)
      by (rewrite <- app_assoc; reflexivity).
    rewrite timeToSeconds_three_fields by (try assumption; lia).
    rewrite H2, Hsv, H5, Hmv, H0, Hhv. reflexivity.
Qed.

Lemma subscript_in_range {A : Type} (t : list A) (k : Z) :
  0 < k <= len t -> exists c, subscript t (- k) = Some c.
Proof.
  intros Hk. unfold subscript.
  destruct (Z.ltb_spec (- k) 0); [|lia].
  destruct (Z.ltb_spec (- k + len t) 0); [lia|].
  destruct (Z.leb_spec (len t) (- k + len t)); [lia|]. cbn [orb].
  destruct (nth_error t (Z.to_nat (- k + len t))) as [c|] eqn:Hn.
  - exists c. reflexivity.
  - apply nth_error_None in Hn. unfold len in *. lia.
Qed.

(** X18. What [timeToSeconds] does not take. A string of fewer than
    three characters raises [IndexError]. A string whose third
    character from the end is not a colon, and a string of six
    characters or more whose sixth from the end is not a colon (so
    [123:45], minutes of three digits), give [None] after the line about
    the format. A field that [int] refuses raises [ValueError]. *)
Theorem timeToSeconds_refused (t : pystr) :
  (len t < 3 -> timeToSeconds py_int (OStr t) = (Raised (Other IndexError), []))
  /\ (forall a c b,
         t = a ++ c :: b -> (len b = 2 \/ len b = 5) -> c <> colon ->
         timeToSeconds py_int (OStr t) = (Returned None, [bad_format_line t]))
  /\ (forall mm ss,
         t = mm ++ colon :: ss -> len ss = 2 -> len mm <= 2 ->
         py_int ss = None \/ py_int mm = None ->
         timeToSeconds py_int (OStr t) = (Raised ValueError, [])).
Proof.
  split; [|split].
  - intros Hlen. unfold timeToSeconds.
    pose proof (subscript_short t 3 Hlen) as Hs. cbn [Z.opp] in Hs.
    rewrite Hs. reflexivity.
  - intros a c b Ht Hb Hc.
    assert (Hlen : len t = len a + len b + 1).
    { rewrite Ht, len_app. unfold len. cbn [length]. lia. }
    pose proof (len_nonneg a) as Ha.
    assert (Hsub : subscript t (- (len b + 1)) = Some c).
    { rewrite Ht. apply subscript_from_end. }
    assert (Hne : N.eqb c colon = false) by (apply N.eqb_neq; exact Hc).
    unfold timeToSeconds. destruct Hb as [Hb|Hb]; rewrite Hb in Hsub.
    + cbn [Z.add Z.opp Pos.add Pos.succ] in Hsub. rewrite Hsub, Hne.
      destruct (Z.leb_spec 6 (len t)) as [H6|H6]; [|reflexivity].
      destruct (subscript_in_range t 6) as [c6 Hc6]; [lia|].
      cbn [Z.opp] in Hc6. rewrite Hc6.
      destruct (N.eqb c6 colon); reflexivity.
    + cbn [Z.add Z.opp Pos.add Pos.succ] in Hsub.
      destruct (subscript_in_range t 3) as [c3 Hc3]; [lia|].
      cbn [Z.opp] in Hc3. rewrite Hc3.
      destruct (Z.leb_spec 6 (len t)) as [H6|H6]; [|lia].
      rewrite Hsub, Hne. reflexivity.
  - intros mm ss Ht Hss Hmm Hbad.
    pose proof (len_nonneg mm) as Hmm0.
    assert (Hlen : len (mm ++ colon :: ss) = len mm + 3).
    { rewrite len_app. unfold len in *. cbn [length]. lia. }
    destruct (time_fields [] mm ss Hss) as [H3 [H2 H5]].
    { cbn [app]. rewrite Hlen. change (len (@nil N)) with 0. solve_adjust. }
    cbn [app] in *. rewrite Ht.
    rewrite timeToSeconds_two_fields by (try exact H3; lia).
    rewrite H2, H5. destruct Hbad as [-> | Hm].
    + reflexivity.
    + rewrite Hm. destruct (py_int ss); reflexivity.
Qed.

End TimeToSecondsFacts.

Lemma timeToSeconds_fields_witness :
  timeToSeconds int_of_digits (OStr (str "7" ++ colon :: str "05"))
  = (Returned (Some 425), [])
  /\ timeToSeconds int_of_digits
       (OStr (str "12" ++ colon :: str "34" ++ colon :: str "56"))
     = (Returned (Some 45296), []).
Proof.
  split.
  - apply (proj1 (timeToSeconds_fields int_of_digits [] (str "7") (str "05") 5 7
                    eq_refl eq_refl eq_refl)).
    vm_compute. discriminate.
  - apply (proj2 (timeToSeconds_fields int_of_digits (str "12") (str "34")
                    (str "56") 56 34 eq_refl eq_refl eq_refl)
                 eq_refl 12 eq_refl).
Defined.

Lemma timeToSeconds_refused_witness :
  timeToSeconds int_of_digits (OStr (str "30")) = (Raised (Other IndexError), [])
  /\ timeToSeconds int_of_digits (OStr (str "123:45"))
     = (Returned None, [bad_format_line (str "123:45")])
  /\ timeToSeconds int_of_digits (OStr (str "1:3x")) = (Raised ValueError, []).
Proof.
  split; [|split].
  - apply (proj1 (timeToSeconds_refused int_of_digits (str "30"))).
    vm_compute. reflexivity.
  - apply (proj1 (proj2 (timeToSeconds_refused int_of_digits (str "123:45")))
                 [] 49%N (str "23:45") eq_refl).
    + right. reflexivity.
    + discriminate.
  - apply (proj2 (proj2 (timeToSeconds_refused int_of_digits (str "1:3x")))
                 (str "1") (str "3x") eq_refl eq_refl).
    + vm_compute. discriminate.
    + left. reflexivity.
Defined.

(** ** One list given twice to [removeFromLists] *)

Section SameListTwice.

Context {A : Type}.
Variable eqb : A -> A -> bool.

Lemma count_last (item x : A) (l1 : list A) :
  eqb x item = true -> count eqb item l1 = O ->
  count eqb item (l1 ++ [x]) = 1%nat.
Proof.
  intros Hx. induction l1 as [|y t IH]; cbn [app count].
  - rewrite Hx. reflexivity.
  - destruct (eqb y item); [discriminate | exact IH].
Qed.

Lemma index_last (item x : A) (l1 : list A) :
  eqb x item = true -> count eqb item l1 = O ->
  index eqb item (l1 ++ [x]) = Some (length l1).
Proof.
  intros Hx. induction l1 as [|y t IH]; cbn [app count index length].
  - rewrite Hx. reflexivity.
  - destruct (eqb y item); [discriminate|]. intros Hc. rewrite (IH Hc). reflexivity.
Qed.

Lemma pop_last (x : A) (l1 : list A) : pop (l1 ++ [x]) (length l1) = Some l1.
Proof.
  induction l1 as [|y t IH]; cbn [app pop length]; [reflexivity|].
  rewrite IH. reflexivity.
Qed.

Lemma pop_past_end (l1 : list A) : pop l1 (length l1) = None.
Proof.
  induction l1 as [|y t IH]; cbn [pop length]; [reflexivity|].
  rewrite IH. reflexivity.
Qed.

(** X19. The same list object as first and as second element of the
    tuple passes the checks, and every removal is then done twice on
    it. When [item] is only the last element of the list, the second
    removal is out of range: the call raises [IndexError] and the list
    is left without its last element. *)
Theorem removeFromLists_same_list_twice (item x : A) (l1 : list A)
    (first : nat) (h : @heap A) :
  eqb x item = true ->
  count eqb item l1 = O ->
  h first = l1 ++ [x] ->
  removeFromLists eqb item (Tuple (FList first) [EList first]) h
  = (Raised (Other IndexError), heap_set h first l1, []).
Proof.
  intros Hx Hc Hh. unfold removeFromLists. cbn [check_rest].
  rewrite Nat.eqb_refl. cbn [negb].
  rewrite Hh, length_app. cbn [length]. rewrite Nat.add_1_r.
  cbn [pop_while]. rewrite Hh.
  rewrite (count_last item x l1 Hx Hc). cbn [Nat.ltb Nat.leb].
  rewrite (index_last item x l1 Hx Hc), pop_last.
  cbn [pop_rest]. rewrite heap_set_same, pop_past_end. reflexivity.
Qed.

End SameListTwice.

Lemma removeFromLists_same_list_twice_witness :
  let h : @heap N := fun r => match r with 0%nat => [4; 5; 9]%N | _ => [] end in
  removeFromLists N.eqb 9%N (Tuple (FList 0) [EList 0]) h
  = (Raised (Other IndexError), heap_set h 0 [4; 5]%N, []).
Proof.
  intros h.
  apply (removeFromLists_same_list_twice N.eqb 9%N 9%N [4; 5]%N 0%nat h);
    reflexivity.
Defined.

(** ** Reconnection where [Serial] is bound *)

Lemma enumerations_app (t1 t2 : list event) :
  enumerations (t1 ++ t2) = (enumerations t1 + enumerations t2)%nat.
Proof.
  induction t1 as [|e t1 IH]; [reflexivity|].
  destruct e; cbn [app enumerations]; rewrite IH; reflexivity.
Qed.

Lemma reopen_polls_wait E (k : nat) :
  (forall t, (enumerations t < k)%nat -> (length (env_comports E t) < 2)%nat) ->
  forall n w,
    (enumerations (trace w) + n <= k)%nat ->
    exists w',
      reopen_polls E n w = (Return tt, w')
      /\ buffer w' = buffer w
      /\ handleData w' = handleData w
      /\ enumerations (trace w') = (enumerations (trace w) + n)%nat.
Proof.
  intros Hfew. induction n as [|n IH]; intros w Hk.
  - exists w. split; [reflexivity|]. split; [reflexivity|].
    split; [reflexivity | lia].
  - cbn [reopen_polls]. unfold bind.
    rewrite reopen_rescheduled by (apply Hfew; lia).
    destruct (IH (emit (After 1 cb_reopen) (emit Comports w)))
      as [w' [Hrun [Hb [Hh He]]]].
    { cbn [emit trace]. rewrite !enumerations_app. cbn [enumerations]. lia. }
    exists w'. split; [exact Hrun|]. split; [exact Hb|]. split; [exact Hh|].
    rewrite He. cbn [emit trace]. rewrite !enumerations_app.
    cbn [enumerations]. lia.
Qed.

Lemma reopen_polls_then E (n : nat) :
  forall w w',
    reopen_polls E n w = (Return tt, w') ->
    reopen_polls E (n + 1) w = reopen E w'.
Proof.
  induction n as [|n IH]; intros w w' Hrun.
  - cbn [reopen_polls] in Hrun. injection Hrun as ->.
    cbn [Nat.add reopen_polls]. unfold bind, ret.
    destruct (reopen E w') as [[[]|e|] w1]; reflexivity.
  - cbn [Nat.add reopen_polls] in *. unfold bind in *.
    destruct (reopen E w) as [[[]|e|] w1]; try discriminate.
    apply IH. exact Hrun.
Qed.

(** *** The first step of a started reader thread *)

(** The world after the constructor has opened the device [dev] found
    at index 1 and has set the terminator [t]. *)
Lemma sPort_init_auto_opens E t w dev :
  nth_error (env_comports E (trace w)) 1 = Some dev ->
  env_open E (trace (emit Comports w)) (prefix E ++ dev)%string = None ->
  sPort_init E "Auto" t w
  = (Return tt,
     put_buffer (with_terminator t (with_port (Some (candidate E dev)) (buffer w)))
                (emit (SerialOpen (prefix E ++ dev)%string (Some 2))
                      (emit Comports w))).
Proof.
  intros Hdev Hopen. unfold sPort_init. unfold bind at 1.
  rewrite serPort_refines_Open_auto.
  rewrite (Open_auto_no_probe E None w dev Hdev Hopen). reflexivity.
Qed.

Lemma sPort_init_auto_cases E t w :
  (exists dev,
      nth_error (env_comports E (trace w)) 1 = Some dev
      /\ env_open E (trace (emit Comports w)) (prefix E ++ dev)%string = None
      /\ sPort_init E "Auto" t w
         = (Return tt,
            put_buffer
              (with_terminator t (with_port (Some (candidate E dev)) (buffer w)))
              (emit (SerialOpen (prefix E ++ dev)%string (Some 2))
                    (emit Comports w))))
  \/ (exists e es, sPort_init E "Auto" t w = (Raise e, emit_all es w)).
Proof.
  destruct (nth_error (env_comports E (trace w)) 1) as [dev|] eqn:Hdev.
  - destruct (env_open E (trace (emit Comports w)) (prefix E ++ dev)%string)
      as [e|] eqn:Hopen.
    + right. unfold sPort_init. unfold bind at 1.
      rewrite serPort_refines_Open_auto.
      unfold Open_auto, try_except, bind, comports.
      destruct (env_comports E (trace w)) as [|d0 [|d1 rest]];
        try discriminate Hdev.
      injection Hdev as ->. cbn [length Nat.ltb Nat.leb skipn Open_candidates].
      unfold bind, serial_Serial. rewrite Hopen.
      destruct (isinstance_SerialException e || isinstance_SerialDisconnect e)%bool.
      * exists NoDeviceFound,
          [Comports; SerialOpen (prefix E ++ dev)%string (Some 2);
           Printed could_not_open].
        unfold pln, raise, emit_all, emit. cbn. rewrite <- !app_assoc.
        reflexivity.
      * exists e, [Comports; SerialOpen (prefix E ++ dev)%string (Some 2)].
        unfold emit_all, emit. cbn. rewrite <- !app_assoc. reflexivity.
    + left. exists dev. split; [reflexivity|]. split; [exact Hopen|].
      apply sPort_init_auto_opens; assumption.
  - right. exists SerialDisconnect, [Comports; Printed could_not_open].
    unfold sPort_init. unfold bind at 1.
    rewrite serPort_refines_Open_auto.
    rewrite Open_auto_too_few.
    + unfold emit_all, emit. cbn. rewrite <- !app_assoc. reflexivity.
    + apply nth_error_None in Hdev. lia.
Qed.

Lemma reader_begins_keeps E w :
  let w1 := snd (reader_begins E w) in
  content (buffer w1) = content (buffer w)
  /\ size (buffer w1) = size (buffer w)
  /\ disconnected (buffer w1) = disconnected (buffer w)
  /\ handleData w1 = handleData w
  /\ (fst (reader_begins E w) = Return tt ->
      terminator (buffer w1) = PyStr (str nl)
      /\ exists dev,
           nth_error (env_comports E (trace w)) 1 = Some dev
           /\ port (buffer w1) = Some (candidate E dev))
  /\ (fst (reader_begins E w) <> Return tt -> buffer w1 = buffer w).
Proof.
  unfold reader_begins.
  destruct (sPort_init_auto_cases E (PyStr (str nl)) w)
    as [[dev [Hdev [Hopen Hrun]]]|[e [es Hrun]]]; rewrite Hrun; cbn [fst snd].
  - split; [reflexivity|]. split; [reflexivity|]. split; [reflexivity|].
    split; [reflexivity|]. split.
    + intros _. split; [reflexivity|]. exists dev.
      split; [exact Hdev | reflexivity].
    + intros Hne. contradiction Hne. reflexivity.
  - split; [reflexivity|]. split; [reflexivity|]. split; [reflexivity|].
    split; [reflexivity|]. split.
    + intros Heq. discriminate Heq.
    + intros _. reflexivity.
Qed.

(** X20. The reconnection as it is meant, in a process where the module
    global [Serial] is bound. The connection is lost while the host
    lists fewer than two devices, and it goes on listing fewer than two
    for the first [k] enumerations ([k >= 1]); at the next one the
    device at index 1 is there and opens. Then [connection_lost] leaves
    the link marked disconnected, so that [write] only prints its
    warning; and after [k] further attempts the port is the new one,
    opened as [/dev/] and the name of the device without a timeout, the
    link is marked connected, the callback is the one of before and a
    reader thread is started on the new port. The first step of that
    thread is the constructor of [sPort] with its defaults: where the
    host then lists a device at index 1 that opens, the port of the
    link is replaced once more, by that device opened with the timeout
    2 under the prefix of the operating system, and the terminator is
    the line feed; otherwise the constructor raises in the thread and
    buffer and callback stay as the reconnection left them. In either
    case the content, the capacity and the flag are those the
    reconnection left. *)
Theorem reconnects_when_device_returns (E : Env) (k : nat) (dev : string)
    (w : World) :
  global_Serial E = true ->
  (1 <= k)%nat ->
  enumerations (trace w) = O ->
  (forall t, (enumerations t < k)%nat -> (length (env_comports E t) < 2)%nat) ->
  (forall t, enumerations t = k ->
             nth_error (env_comports E t) 1 = Some dev
             /\ env_open E (t ++ [Comports]) ("/dev/" ++ dev)%string = None) ->
  let newPort := mkPort ("/dev/" ++ dev)%string None in
  (exists w1,
      connection_lost E w = (Return tt, w1)
      /\ disconnected (buffer w1) = true
      /\ forall data, write E data w1 = (Return tt, emit (Printed port_closed_msg) w1))
  /\ (exists w2,
         (connection_lost E ;; reopen_polls E k) w = (Return tt, w2)
         /\ buffer w2 = with_disconnected false (with_port (Some newPort) (buffer w))
         /\ handleData w2 = handleData w
         /\ In (ReaderStart (Some newPort)) (trace w2)
         /\ enumerations (trace w2) = S k
         /\ (forall dev2,
                nth_error (env_comports E (trace w2)) 1 = Some dev2 ->
                env_open E (trace (emit Comports w2)) (prefix E ++ dev2)%string
                = None ->
                reader_begins E w2
                = (Return tt,
                   put_buffer
                     (with_terminator (PyStr (str nl))
                        (with_disconnected false
                           (with_port (Some (candidate E dev2)) (buffer w))))
                     (emit (SerialOpen (prefix E ++ dev2)%string (Some 2))
                           (emit Comports w2))))
         /\ ((exists dev2,
                 nth_error (env_comports E (trace w2)) 1 = Some dev2
                 /\ env_open E (trace (emit Comports w2))
                             (prefix E ++ dev2)%string = None)
             \/ (exists e es, reader_begins E w2 = (Raise e, emit_all es w2)))
         /\ content (buffer (snd (reader_begins E w2))) = content (buffer w)
         /\ size (buffer (snd (reader_begins E w2))) = size (buffer w)
         /\ disconnected (buffer (snd (reader_begins E w2))) = false
         /\ handleData (snd (reader_begins E w2)) = handleData w).
Proof.
  intros Hbound Hk Hzero Hfew Hback newPort.
  set (w0 := emit (Printed "Serial port disconnected. Trying to reconnect...") w).
  assert (Hz0 : enumerations (trace w0) = O).
  { unfold w0. cbn [emit trace]. rewrite enumerations_app, Hzero. reflexivity. }
  assert (Hlost : connection_lost E w
                  = (Return tt,
                     put_buffer (with_disconnected true (buffer w))
                                (emit (After 1 cb_reopen) (emit Comports w0)))).
  { unfold connection_lost, bind, pln. fold w0.
    rewrite (reopen_rescheduled E w0) by (apply Hfew; lia). reflexivity. }
  split.
  - eexists. split; [exact Hlost|]. split; [reflexivity|].
    intros data. apply write_disconnected. reflexivity.
  - set (w1 := put_buffer (with_disconnected true (buffer w))
                          (emit (After 1 cb_reopen) (emit Comports w0))) in *.
    assert (Hz1 : enumerations (trace w1) = 1%nat).
    { unfold w1. cbn [put_buffer emit trace]. rewrite !enumerations_app, Hz0.
      reflexivity. }
    destruct (reopen_polls_wait E k Hfew (k - 1) w1) as [w' [Hrun [Hb [Hh He]]]];
      [lia|].
    destruct (Hback (trace w')) as [Hdev Hopen]; [lia|].
    pose proof (reopen_succeeds E w' dev Hbound Hdev Hopen) as Hlast.
    assert (Hpolls : reopen_polls E k w1 = (Return tt, snd (reopen E w'))).
    { replace k with ((k - 1) + 1)%nat at 1 by lia.
      rewrite (reopen_polls_then E (k - 1) w1 w' Hrun), Hlast. reflexivity. }
    set (w2 := snd (reopen E w')).
    assert (Hb2 : buffer w2
                  = with_disconnected false (with_port (Some newPort) (buffer w))).
    { unfold w2. rewrite Hlast. cbn [snd]. cbn [emit put_buffer buffer].
      rewrite Hb. reflexivity. }
    assert (Hh2 : handleData w2 = handleData w).
    { unfold w2. rewrite Hlast. cbn [snd emit put_buffer handleData].
      rewrite Hh. reflexivity. }
    pose proof (reader_begins_keeps E w2) as [Hc [Hs [Hd [Hhd _]]]].
    exists w2. split; [|split; [|split; [|split; [|split; [|split; [|split]]]]]].
    + unfold bind. rewrite Hlost. exact Hpolls.
    + exact Hb2.
    + exact Hh2.
    + unfold w2. rewrite Hlast. cbn [snd emit trace put_buffer].
      apply in_or_app. right. left. reflexivity.
    + unfold w2. rewrite Hlast. cbn [snd emit trace put_buffer].
      rewrite !enumerations_app, He, Hz1. cbn [enumerations]. lia.
    + intros dev2 Hdev2 Hopen2. unfold reader_begins.
      rewrite (sPort_init_auto_opens E _ w2 dev2 Hdev2 Hopen2).
      rewrite Hb2. reflexivity.
    + unfold reader_begins.
      destruct (sPort_init_auto_cases E (PyStr (str nl)) w2)
        as [[dev2 [Hdev2 [Hopen2 _]]]|Hraise].
      * left. exists dev2. split; assumption.
      * right. exact Hraise.
    + rewrite Hc, Hs, Hd, Hhd, Hb2, Hh2. repeat split; reflexivity.
Qed.

Lemma reconnects_when_device_returns_witness :
  let w := world_with [] 64 in
  let newPort := mkPort "/dev/ttyUSB0" None in
  exists w2,
    (connection_lost (returning_env 2) ;; reopen_polls (returning_env 2) 2) w
    = (Return tt, w2)
    /\ buffer w2 = with_disconnected false (with_port (Some newPort) (buffer w))
    /\ In (ReaderStart (Some newPort)) (trace w2)
    /\ reader_begins (returning_env 2) w2
       = (Return tt,
          put_buffer
            (with_terminator (PyStr (str nl))
               (with_disconnected false
                  (with_port (Some (mkPort "/dev/ttyUSB0" (Some 2))) (buffer w))))
            (emit (SerialOpen "/dev/ttyUSB0" (Some 2)) (emit Comports w2))).
Proof.
  intros w newPort.
  destruct (reconnects_when_device_returns (returning_env 2) 2 "ttyUSB0" w)
    as [_ [w2 [Hrun [Hb [_ [Hin [Hen [Hopens _]]]]]]]].
  - reflexivity.
  - lia.
  - reflexivity.
  - intros t Ht. cbn [returning_env env_comports].
    destruct (Nat.ltb_spec (enumerations t) 2); [cbn; lia | lia].
  - intros t Ht. cbn [returning_env env_comports env_open plain_env].
    rewrite Ht. split; reflexivity.
  - exists w2. split; [exact Hrun|]. split; [exact Hb|]. split; [exact Hin|].
    apply (Hopens "ttyUSB0"%string).
    + cbn [returning_env env_comports]. rewrite Hen. reflexivity.
    + reflexivity.
Defined.

(** ** [start] *)

Lemma start_world (maxSize : Z) (handleFunc : option nat) (w : World) :
  start maxSize handleFunc w
  = (Return tt,
     started maxSize
             (match handleFunc with Some f => user f | None => handleData w end) w).
Proof. destruct handleFunc; reflexivity. Qed.

(** X21. [start] sets the capacity and starts a reader thread on the
    current port; with a function it replaces the callback, without one
    it keeps the callback registered before. It never touches the
    content. The first step of the started thread is the constructor of
    [sPort] with its defaults: it leaves content, capacity, callback
    and flag alone, and either returns, and then the port of the link
    is the device at index 1, opened anew with the timeout 2, and the
    terminator is the line feed, or raises in the thread, and then the
    buffer is what [start] left. A chunk delivered after that is
    appended if it fits the new capacity, and then the callback in
    force is run, the function given to [start] or the one registered
    before; when the content is already longer than the new capacity,
    the buffer is over its capacity after [start] and every chunk
    delivered next, an empty one included, is dropped before the
    callback is run. *)
Theorem start_then_deliver (E : Env) (maxSize : Z) (handleFunc : option nat)
    (data : bytes) (w : World) :
  let h := match handleFunc with Some f => user f | None => handleData w end in
  let w0 := started maxSize h w in
  let w1 := snd (reader_begins E w0) in
  start maxSize handleFunc w = (Return tt, w0)
  /\ content (buffer w0) = content (buffer w)
  /\ (content (buffer w1) = content (buffer w)
      /\ size (buffer w1) = maxSize
      /\ disconnected (buffer w1) = disconnected (buffer w)
      /\ handleData w1 = h)
  /\ (fst (reader_begins E w0) = Return tt ->
      terminator (buffer w1) = PyStr (str nl)
      /\ exists dev,
           nth_error (env_comports E (trace w0)) 1 = Some dev
           /\ port (buffer w1) = Some (candidate E dev))
  /\ (fst (reader_begins E w0) <> Return tt -> buffer w1 = buffer w0)
  /\ (len (content (buffer w)) + len data <= maxSize ->
      readStoreBuffer E data w1
      = call_handleData E (put_content (content (buffer w) ++ data) w1)
      /\ (forall f, h = user f ->
                    readStoreBuffer E data w1
                    = env_user E f (put_content (content (buffer w) ++ data) w1))
      /\ (h = dummy ->
          readStoreBuffer E data w1
          = (Return tt, put_content (content (buffer w) ++ data) w1)))
  /\ (maxSize < len (content (buffer w)) ->
      ~ within_capacity w0
      /\ ~ within_capacity w1
      /\ readStoreBuffer E data w1 = call_handleData E w1
      /\ (forall f, h = user f -> readStoreBuffer E data w1 = env_user E f w1)
      /\ (h = dummy -> readStoreBuffer E data w1 = (Return tt, w1))).
Proof.
  intros h w0 w1.
  pose proof (reader_begins_keeps E w0) as [Hc [Hs [Hd [Hh [Hret Hraise]]]]].
  fold w1 in Hc, Hs, Hd, Hh, Hret, Hraise.
  change (content (buffer w0)) with (content (buffer w)) in Hc.
  change (size (buffer w0)) with maxSize in Hs.
  change (disconnected (buffer w0)) with (disconnected (buffer w)) in Hd.
  change (handleData w0) with h in Hh.
  split; [apply start_world|]. split; [reflexivity|].
  split; [repeat split; assumption|].
  split; [exact Hret|]. split; [exact Hraise|]. split.
  - intros Hfit.
    assert (Hgo : readStoreBuffer E data w1
                  = call_handleData E (put_content (content (buffer w) ++ data) w1)).
    { rewrite readStoreBuffer_fits by (rewrite Hc, Hs; exact Hfit).
      rewrite Hc. reflexivity. }
    split; [exact Hgo|]. split.
    + intros f Hf. rewrite Hgo. apply call_handleData_user.
      cbn [put_content put_buffer handleData]. rewrite Hh. exact Hf.
    + intros Hdum. rewrite Hgo. apply call_handleData_dummy.
      cbn [put_content put_buffer handleData]. rewrite Hh. exact Hdum.
  - intros Hover.
    assert (Hgo : readStoreBuffer E data w1 = call_handleData E w1).
    { apply readStoreBuffer_overflow. rewrite Hc, Hs.
      pose proof (len_nonneg data). lia. }
    split; [unfold within_capacity; cbn; lia|].
    split; [unfold within_capacity; rewrite Hc, Hs; lia|].
    split; [exact Hgo|]. split.
    + intros f Hf. rewrite Hgo. apply call_handleData_user.
      rewrite Hh. exact Hf.
    + intros Hdum. rewrite Hgo. apply call_handleData_dummy.
      rewrite Hh. exact Hdum.
Qed.

Lemma start_then_deliver_witness :
  let w := world_with (blit "abcdef") 64 in
  let usb0 := mkPort "/dev/ttyUSB0" (Some 2) in
  let reading h cap :=
    snd (reader_begins announcing_env (started cap h w)) in
  port (buffer (reading (user 1) 8)) = Some usb0
  /\ readStoreBuffer announcing_env (blit "gh") (reading (user 1) 8)
     = (Return tt,
        emit (Printed "data handled")
             (put_content (blit "abcdefgh") (reading (user 1) 8)))
  /\ readStoreBuffer announcing_env (blit "gh") (reading dummy 8)
     = (Return tt, put_content (blit "abcdefgh") (reading dummy 8))
  /\ ~ within_capacity (reading (user 1) 4)
  /\ readStoreBuffer announcing_env [] (reading (user 1) 4)
     = (Return tt, emit (Printed "data handled") (reading (user 1) 4)).
Proof.
  intros w usb0 reading.
  pose proof (start_then_deliver announcing_env 8 (Some 1%nat) (blit "gh") w)
    as [_ [_ [_ [Hret [_ [Hfit _]]]]]].
  pose proof (start_then_deliver announcing_env 8 None (blit "gh") w)
    as [_ [_ [_ [_ [_ [Hfit0 _]]]]]].
  pose proof (start_then_deliver announcing_env 4 (Some 1%nat) [] w)
    as [_ [_ [_ [_ [_ [_ Hover]]]]]].
  split.
  { destruct (Hret eq_refl) as [_ [dev [Hdev Hport]]].
    cbn in Hdev. injection Hdev as <-. exact Hport. }
  split.
  { apply (proj1 (proj2 (Hfit ltac:(vm_compute; discriminate))) 1%nat eq_refl). }
  split.
  { apply (proj2 (proj2 (Hfit0 ltac:(vm_compute; discriminate))) eq_refl). }
  split.
  { apply (proj1 (proj2 (Hover ltac:(vm_compute; reflexivity)))). }
  apply (proj1 (proj2 (proj2 (proj2 (Hover ltac:(vm_compute; reflexivity)))))
               1%nat eq_refl).
Defined.

(** ** The link after the reader thread has begun *)

Lemma sPort_init_returns E name t w w0 :
  sPort_init E name t w = (Return tt, w0) ->
  exists p, buffer w0 = with_terminator t (with_port (Some p) (buffer w)).
Proof.
  unfold sPort_init. run_py.
  pose proof (keeps_buffer_serPort E name None None None None w) as Hb.
  destruct (serPort E name None None None None w) as [[p|e|] w']; cbn [snd] in Hb;
    try discriminate.
  intros Heq. injection Heq as <-. exists p. cbn. rewrite Hb. reflexivity.
Qed.

(** X22. What the started reader thread does to the link. Whatever name
    and terminator the link was created with, once [start] has been
    called and the first step of the reader thread has returned, the
    port of the link is the device found at index 1, opened with the
    timeout 2, and the terminator stored is the line feed: the port and
    the terminator of the constructor call of the application are
    gone. When the first step raises, the buffer is what [start] left.
    In either case the content, the capacity set by [start], the flag
    and the callback are untouched. *)
Theorem reader_replaces_port_and_terminator (E : Env) (name : string)
    (t : pyval) (maxSize : Z) (handleFunc : option nat) (w w1 : World) :
  (sPort_init E name t ;; start maxSize handleFunc) w = (Return tt, w1) ->
  let w2 := snd (reader_begins E w1) in
  (exists p, port (buffer w1) = Some p)
  /\ terminator (buffer w1) = t
  /\ (fst (reader_begins E w1) = Return tt ->
      terminator (buffer w2) = PyStr (str nl)
      /\ exists dev,
           nth_error (env_comports E (trace w1)) 1 = Some dev
           /\ port (buffer w2) = Some (candidate E dev))
  /\ (fst (reader_begins E w1) <> Return tt -> buffer w2 = buffer w1)
  /\ content (buffer w2) = content (buffer w)
  /\ size (buffer w2) = maxSize
  /\ disconnected (buffer w2) = disconnected (buffer w)
  /\ handleData w2 = handleData w1.
Proof.
  intros Hrun w2. unfold bind in Hrun.
  destruct (sPort_init E name t w) as [[[]|e|] w0] eqn:Hinit; try discriminate.
  destruct (sPort_init_returns E name t w w0 Hinit) as [p Hb0].
  rewrite start_world in Hrun. injection Hrun as <-.
  pose proof (reader_begins_keeps E
                (started maxSize
                   match handleFunc with
                   | Some f => user f
                   | None => handleData w0
                   end w0)) as [Hc [Hs [Hd [Hh [Hret Hraise]]]]].
  split; [exists p; cbn; rewrite Hb0; reflexivity|].
  split; [cbn; rewrite Hb0; reflexivity|].
  split; [exact Hret|]. split; [exact Hraise|].
  split; [unfold w2; rewrite Hc; cbn; rewrite Hb0; reflexivity|].
  split; [unfold w2; rewrite Hs; reflexivity|].
  split; [unfold w2; rewrite Hd; cbn; rewrite Hb0; reflexivity|].
  exact Hh.
Qed.

Lemma reader_replaces_port_and_terminator_witness :
  let w1 := snd ((sPort_init plain_env "/dev/ttyACM3" (PyStr (str ";")) ;;
                  start 4096 None) World_initial) in
  let w2 := snd (reader_begins plain_env w1) in
  port (buffer w1) = Some (mkPort "/dev/ttyACM3" None)
  /\ terminator (buffer w1) = PyStr (str ";")
  /\ port (buffer w2) = Some (mkPort "/dev/ttyUSB0" (Some 2))
  /\ terminator (buffer w2) = PyStr (str nl).
Proof.
  intros w1 w2.
  pose proof (reader_replaces_port_and_terminator plain_env "/dev/ttyACM3"
                (PyStr (str ";")) 4096 None World_initial w1 eq_refl)
    as [_ [Ht [Hret _]]].
  split; [reflexivity|]. split; [exact Ht|].
  destruct (Hret eq_refl) as [Hnl [dev [Hdev Hport]]].
  split; [|exact Hnl].
  cbn in Hdev. injection Hdev as <-. exact Hport.
Defined.
